(** * VocabMaster: lookup resolver, Ebbinghaus scheduler and word store

    A shallow embedding of the web realisation of VocabMaster (its
    dictionary, Ebbinghaus and storage modules) and the properties its
    specification states about it.

    Conventions of the embedding:
    - a JavaScript string is the list of its UTF-16 code units;
    - a JavaScript number that holds a level, a counter or a timestamp in
      milliseconds is an integer of [Z];
    - [null] and [undefined] are [None];
    - an [async] function is a function from the state it works on (the log
      of network calls, or the object store) to the new state and either the
      value it resolves to or the exception it rejects with. *)

From Stdlib Require Import ZArith NArith Lia Ascii String List.
From stdpp Require Import base option list gmap.

Local Open Scope N_scope.

(** ** JavaScript strings *)

Module Js.

Abbreviation jsstring := (list N).

(** A string literal of the source whose characters are all ASCII. *)
Definition u (s : string) : jsstring :=
  map N_of_ascii (list_ascii_of_string s).

(** ECMAScript [WhiteSpace] and [LineTerminator] code units: what
    [String.prototype.trim] removes and what [\s] matches. *)
Definition isWhitespace (c : N) : bool :=
  ((0x09 <=? c) && (c <=? 0x0D))
  || (c =? 0x20) || (c =? 0xA0) || (c =? 0x1680)
  || ((0x2000 <=? c) && (c <=? 0x200A))
  || (c =? 0x2028) || (c =? 0x2029) || (c =? 0x202F)
  || (c =? 0x205F) || (c =? 0x3000) || (c =? 0xFEFF).

Fixpoint dropWhile (p : N -> bool) (s : jsstring) : jsstring :=
  match s with
  | [] => []
  | c :: r => if p c then dropWhile p r else s
  end.

Definition dropWhileEnd (p : N -> bool) (s : jsstring) : jsstring :=
  rev (dropWhile p (rev s)).

(** [s.trim()] *)
Definition trim (s : jsstring) : jsstring :=
  dropWhileEnd isWhitespace (dropWhile isWhitespace s).

(** [s.toLowerCase()], modelled on the ASCII letters: every other code
    unit is left as it is. *)
Definition lowerUnit (c : N) : N :=
  if (0x41 <=? c) && (c <=? 0x5A) then c + 32 else c.

Definition toLowerCase (s : jsstring) : jsstring := map lowerUnit s.

(** [a === b] on strings. *)
Fixpoint eqb (a b : jsstring) : bool :=
  match a, b with
  | [], [] => true
  | x :: a', y :: b' => (x =? y) && eqb a' b'
  | _, _ => false
  end.

(** Truthiness of a string: every string but the empty one. *)
Definition truthy (s : jsstring) : bool :=
  match s with [] => false | _ => true end.

(** The last code unit of a string is white space. *)
Fixpoint endsWithWhitespace (s : jsstring) : bool :=
  match s with
  | [] => false
  | c :: r => match r with [] => isWhitespace c | _ => endsWithWhitespace r end
  end.

(** [/\s/.test(s)] *)
Definition hasWhitespace (s : jsstring) : bool := existsb isWhitespace s.

(** [s.split(/\s+/)]: the pieces between the maximal runs of white space,
    an empty piece included when the string starts or ends with a run.
    [inRun] tells that the previous code unit was white space, [cur] holds
    the current piece in reverse. *)
Fixpoint splitRuns (inRun : bool) (cur : jsstring) (s : jsstring)
  : list jsstring :=
  match s with
  | [] => [rev cur]
  | c :: r =>
      if isWhitespace c
      then (if inRun then splitRuns true cur r
            else rev cur :: splitRuns true [] r)
      else splitRuns false (c :: cur) r
  end.

Definition splitWhitespace (s : jsstring) : list jsstring :=
  splitRuns false [] s.

(** [s.replace(/\s+/g, '_')] *)
Fixpoint underscoreRuns (inRun : bool) (s : jsstring) : jsstring :=
  match s with
  | [] => []
  | c :: r =>
      if isWhitespace c
      then (if inRun then underscoreRuns true r
            else 0x5F :: underscoreRuns true r)
      else c :: underscoreRuns false r
  end.

(** The character class [[.!?,;:]]. *)
Definition isTrailingPunctuation (c : N) : bool :=
  (c =? 0x2E) || (c =? 0x21) || (c =? 0x3F)
  || (c =? 0x2C) || (c =? 0x3B) || (c =? 0x3A).

(** [s.replace(/[.!?,;:]+$/, '')] *)
Definition stripTrailingPunctuation (s : jsstring) : jsstring :=
  dropWhileEnd isTrailingPunctuation s.

(** [html.replace(/<[^>]*>/g, '')]: [pending] holds, in reverse, the code
    units read since an opening [<] that has not met its [>] yet; they are
    kept when the string ends before a [>] comes. *)
Fixpoint removeTags (pending : option jsstring) (s : jsstring) : jsstring :=
  match s with
  | [] => match pending with None => [] | Some p => rev p end
  | c :: r =>
      match pending with
      | None => if c =? 0x3C then removeTags (Some [c]) r
                else c :: removeTags None r
      | Some p => if c =? 0x3E then removeTags None r
                  else removeTags (Some (c :: p)) r
      end
  end.

(** [s.isWellFormed()]: the string has no lone surrogate, that is every
    code unit d800-dbff is followed by a code unit dc00-dfff and every code
    unit dc00-dfff follows one of d800-dbff. [encodeURIComponent] throws a
    [URIError] on the strings that are not well formed, and on no other. *)
Definition isHighSurrogate (c : N) : bool := (0xD800 <=? c) && (c <=? 0xDBFF).

Definition isLowSurrogate (c : N) : bool := (0xDC00 <=? c) && (c <=? 0xDFFF).

Fixpoint isWellFormed (s : jsstring) : bool :=
  match s with
  | [] => true
  | c :: r =>
      if isHighSurrogate c
      then match r with
           | l :: r' => isLowSurrogate l && isWellFormed r'
           | [] => false
           end
      else if isLowSurrogate c then false
      else isWellFormed r
  end.

(** [x || d] for a string that may be missing. *)
Definition orString (x : option jsstring) (d : jsstring) : jsstring :=
  match x with
  | Some s => if truthy s then s else d
  | None => d
  end.

(** [x || d] for a number that may be missing: [0] is falsy. *)
Definition orNumber (x : option Z) (d : Z) : Z :=
  match x with
  | Some n => if (n =? 0)%Z then d else n
  | None => d
  end.

End Js.

Import Js.

(** ** Asynchronous functions

    An [async] function of the source runs on a state (the log of the network
    calls made so far, or the object store) and settles: it resolves to a
    value or rejects with an exception. What it did to the state before it
    rejected stays done. *)

Module Async.

Inductive exn :=
| Error (message : jsstring)   (* [new Error(message)] *)
| HttpError (status : Z)       (* [new Error(`API error: ${status}`)] *)
| NetworkFailure               (* [fetch] rejects *)
| SyntaxError                  (* [response.json()] rejects *)
| TypeError                    (* a property of [null] is read, or a value
                                  that is no function is called *)
| URIError.                    (* [encodeURIComponent] of a lone surrogate *)

Inductive outcome (A : Type) :=
| Resolved (a : A)
| Rejected (e : exn).
Arguments Resolved {A} a.
Arguments Rejected {A} e.

Definition Async (S A : Type) : Type := S -> S * outcome A.

Definition ret {S A} (a : A) : Async S A := fun s => (s, Resolved a).

Definition bind {S A B} (m : Async S A) (k : A -> Async S B) : Async S B :=
  fun s =>
    match m s with
    | (s', Resolved a) => k a s'
    | (s', Rejected e) => (s', Rejected e)
    end.

(** [throw e] *)
Definition throw {S A} (e : exn) : Async S A := fun s => (s, Rejected e).

(** [try { body } catch (error) { handler }] *)
Definition tryCatch {S A} (body : Async S A) (handler : exn -> Async S A)
  : Async S A :=
  fun s =>
    match body s with
    | (s', Resolved a) => (s', Resolved a)
    | (s', Rejected e) => handler e s'
    end.

Definition gets {S A} (f : S -> A) : Async S A := fun s => (s, Resolved (f s)).

Definition modify {S} (f : S -> S) : Async S unit :=
  fun s => (f s, Resolved tt).

#[global] Instance async_ret {S} : MRet (Async S) := @ret S.
#[global] Instance async_bind {S} : MBind (Async S) :=
  fun A B k m => bind m k.

(** A loop [for (const x of xs) { acc = body(x, acc) }]. *)
Fixpoint forEach {S A B} (body : A -> B -> Async S B) (xs : list A) (acc : B)
  : Async S B :=
  match xs with
  | [] => ret acc
  | x :: r => bind (body x acc) (forEach body r)
  end.

(** [xs.map(f)] where [f] is asynchronous and the calls start in order. *)
Fixpoint mapAsync {S A B} (f : A -> Async S B) (xs : list A)
  : Async S (list B) :=
  match xs with
  | [] => ret []
  | x :: r =>
     bind (f x) (fun y => bind (mapAsync f r) (fun ys => ret (y :: ys)))
  end.

End Async.

Import Async.

(** ** The dictionary module: classification of the input *)

Module Dictionary.

(** The three classes: ['word'], ['phrase'] and ['chinese']. *)
Inductive InputType := Word | Phrase | Chinese.

(** The character class of the source: the code units 4e00-9fff,
    3400-4dbf and f900-faff. *)
Definition isCJK (c : N) : bool :=
  ((0x4e00 <=? c) && (c <=? 0x9fff))
  || ((0x3400 <=? c) && (c <=? 0x4dbf))
  || ((0xf900 <=? c) && (c <=? 0xfaff)).

Definition hasCJK (s : jsstring) : bool := existsb isCJK s.

Definition detectInputType (text : jsstring) : InputType :=
  let trimmed := trim text in
  if hasCJK trimmed then Chinese
  else if hasWhitespace trimmed
          && (1 <? length (splitWhitespace trimmed))%nat
  then Phrase
  else Word.

(** The tokens of a text as the specification counts them: the non-empty
    pieces between white space. *)
Definition tokens (s : jsstring) : list jsstring :=
  List.filter truthy (splitWhitespace s).

(** *** The normalised record of a lookup *)

Record Definition_ := {
  definition : jsstring;
  examples : list jsstring;
  translationZh : option jsstring   (* absent until it is translated *)
}.

Record Meaning := {
  partOfSpeech : jsstring;
  definitions : list Definition_;
  synonyms : list jsstring
}.

Record DictData := {
  word : option jsstring;           (* [None]: [undefined], not a string *)
  phonetic : jsstring;
  audioUrl : option jsstring;
  meanings : list Meaning;
  source : jsstring;
  originalWord : option jsstring    (* set by the Chinese lookup only;
                                       [None]: absent or [undefined] *)
}.

Record LookupResult := {
  dictData : option DictData;
  translation : jsstring;
  inputType : InputType
}.

(** *** The network

    Every request gets the answer the network holds for it. [fetch] either
    rejects or resolves to a response with a status and a body;
    [response.json()] rejects on a body that is not JSON. *)

Inductive FetchResult (B : Type) :=
| FetchFailed
| Response (status : Z) (json : option B).
Arguments FetchFailed {B}.
Arguments Response {B} status json.

Record ApiPhonetic := {
  api_text : option jsstring;
  api_audio : option jsstring
}.

Record ApiDefinition := {
  api_definition : jsstring;
  api_example : option jsstring
}.

Record ApiMeaning := {
  api_partOfSpeech : option jsstring;
  api_definitions : option (list ApiDefinition);
  api_synonyms : option (list jsstring)
}.

Record ApiEntry := {
  api_word : option jsstring;       (* [None]: missing, or not a string *)
  api_phonetic : option jsstring;
  api_phonetics : option (list ApiPhonetic);
  api_meanings : option (list ApiMeaning)
}.

(** The body of a Free Dictionary answer: an array of entries, or any
    other JSON value. *)
Inductive FreeDictionaryJson :=
| NotAnArray
| Entries (entries : list ApiEntry).

Record WikiDefinition := {
  wiki_definition : option jsstring;
  wiki_examples : option (list jsstring)
}.

Record WikiEntry := {
  wiki_partOfSpeech : option jsstring;
  wiki_definitions : option (list WikiDefinition)
}.

(** The value under a language key of a Wiktionary answer: an array of
    entries, or another value, of which only its truthiness matters. *)
Inductive WikiValue :=
| WikiEntries (entries : list WikiEntry)
| WikiOther (isTruthy : bool).

(** A Wiktionary answer: an object keyed by language, its keys in the
    order [Object.keys] lists them. *)
Abbreviation WiktionaryJson := (list (jsstring * WikiValue)).

Record TranslationData := {
  translatedText : option jsstring
}.

Record TranslationJson := {
  responseStatus : option Z;
  responseData : option TranslationData
}.

(** What [data.choices?.[0]?.message?.content] (DeepSeek) or
    [data.candidates?.[0]?.content?.parts?.[0]?.text] (Gemini) reads. *)
Record ChatJson := {
  chat_content : option jsstring
}.

Record Network := {
  freeDictionaryApi : jsstring -> FetchResult FreeDictionaryJson;
  wiktionaryApi : jsstring -> FetchResult WiktionaryJson;
  translationApi : jsstring -> jsstring -> FetchResult TranslationJson;
  deepseekApi : jsstring -> jsstring -> jsstring -> FetchResult ChatJson;
  geminiApi : jsstring -> jsstring -> jsstring -> FetchResult ChatJson;
  (* [localStorage.getItem('llm-provider')] and [('llm-api-key')] *)
  llm_provider : option jsstring;
  llm_api_key : option jsstring
}.

(** The requests a lookup sends, as the log keeps them. *)
Inductive Call :=
| GetFreeDictionary (w : jsstring)
| GetWiktionary (slug : jsstring)
| GetTranslation (text langPair : jsstring)
| PostDeepSeek (apiKey systemPrompt userMessage : jsstring)
| PostGemini (apiKey systemPrompt userMessage : jsstring).

Abbreviation Lookup := (Async (list Call)).

Record HttpResponse (B : Type) := {
  status : Z;
  body : option B
}.
Arguments status {B} _.
Arguments body {B} _.

(** [await fetch(url)]: the request is logged when it is sent. *)
Definition fetch {B} (c : Call) (r : FetchResult B) : Lookup (HttpResponse B) :=
  fun log =>
    (log ++ [c],
     match r with
     | FetchFailed => Rejected NetworkFailure
     | Response st js => Resolved {| status := st; body := js |}
     end).

(** [encodeURIComponent(s)] as a part of the URL of a request: it throws
    on a string that is not well formed; the request is told by the text
    that is encoded. *)
Definition encodeURIComponent (s : jsstring) : Lookup jsstring :=
  if isWellFormed s then ret s else throw URIError.

(** [response.ok] *)
Definition ok {B} (response : HttpResponse B) : bool :=
  ((200 <=? status response) && (status response <=? 299))%Z.

(** [await response.json()] *)
Definition json {B} (response : HttpResponse B) : Lookup B :=
  match body response with
  | Some data => ret data
  | None => throw SyntaxError
  end.

(** A value that is [null] or a string, read as a condition. *)
Definition whenTruthy (x : option jsstring) : option jsstring :=
  match x with
  | Some s => if truthy s then Some s else None
  | None => None
  end.

(** *** Primary lookup: Free Dictionary *)

Fixpoint firstPhoneticText (ps : list ApiPhonetic) : jsstring :=
  match ps with
  | [] => []
  | p :: r =>
      match whenTruthy (api_text p) with
      | Some t => t
      | None => firstPhoneticText r
      end
  end.

Definition extractPhonetic (entry : ApiEntry) : jsstring :=
  match whenTruthy (api_phonetic entry) with
  | Some p => p
  | None =>
      match api_phonetics entry with
      | Some ps => firstPhoneticText ps
      | None => []
      end
  end.

Fixpoint firstAudio (ps : list ApiPhonetic) : option jsstring :=
  match ps with
  | [] => None
  | p :: r =>
      match whenTruthy (api_audio p) with
      | Some a => Some a
      | None => firstAudio r
      end
  end.

Definition extractAudioUrl (entry : ApiEntry) : option jsstring :=
  match api_phonetics entry with
  | Some ps => firstAudio ps
  | None => None
  end.

Definition extractMeanings (entry : ApiEntry) : list Meaning :=
  match api_meanings entry with
  | None => []
  | Some ms =>
      map (fun m =>
             {| partOfSpeech := orString (api_partOfSpeech m) (u "unknown");
                definitions :=
                  map (fun d =>
                         {| definition := api_definition d;
                            examples :=
                              match whenTruthy (api_example d) with
                              | Some e => [e]
                              | None => []
                              end;
                            translationZh := None |})
                      (default [] (api_definitions m));
                synonyms := take 5 (default [] (api_synonyms m)) |})
          ms
  end.

Definition lookupFreeDictionary (net : Network) (w : jsstring)
  : Lookup (option DictData) :=
  tryCatch
    (key ← encodeURIComponent (toLowerCase (trim w));
     response ← fetch (GetFreeDictionary key) (freeDictionaryApi net key);
     if negb (ok response)
     then (if (status response =? 404)%Z then mret None
           else throw (HttpError (status response)))
     else
       data ← json response;
       match data with
       | NotAnArray => mret None
       | Entries [] => mret None
       | Entries (entry :: _) =>
           mret (Some {| word := api_word entry;
                         phonetic := extractPhonetic entry;
                         audioUrl := extractAudioUrl entry;
                         meanings := extractMeanings entry;
                         source := u "free-dictionary";
                         originalWord := None |})
       end)
    (fun _ => mret None).

(** *** Fallback lookup: Wiktionary *)

(** [stripHtml(html)] *)
Definition stripHtml (html : jsstring) : jsstring :=
  if truthy html then trim (removeTags None html) else [].

(** [data[k]] *)
Fixpoint property (data : WiktionaryJson) (k : jsstring) : option WikiValue :=
  match data with
  | [] => None
  | (k', v) :: r => if eqb k' k then Some v else property r k
  end.

(** A property of the answer read as a condition: [None] when it is
    missing or falsy. *)
Definition truthyProperty (data : WiktionaryJson) (k : jsstring)
  : option WikiValue :=
  match property data k with
  | Some (WikiOther false) => None
  | v => v
  end.

(** [Array.isArray(v) && v.length > 0] *)
Definition nonEmptyArray (v : option WikiValue) : bool :=
  match v with
  | Some (WikiEntries (_ :: _)) => true
  | _ => false
  end.

Definition parseWiktionaryEntries (originalText : jsstring)
  (entries : list WikiEntry) : option DictData :=
  let meanings :=
    flat_map
      (fun entry =>
         match wiki_definitions entry with
         | None => []
         | Some [] => []
         | Some ds =>
             let defs :=
               List.filter (fun d => truthy (definition d))
                 (map (fun d =>
                         {| definition :=
                              stripHtml (orString (wiki_definition d) []);
                            examples :=
                              map stripHtml
                                  (take 3 (default [] (wiki_examples d)));
                            translationZh := None |})
                      ds) in
             match defs with
             | [] => []
             | _ =>
                 [{| partOfSpeech :=
                       orString (wiki_partOfSpeech entry) (u "unknown");
                     definitions := defs;
                     synonyms := [] |}]
             end
         end)
      entries in
  match meanings with
  | [] => None
  | _ =>
      Some {| word := Some (toLowerCase (trim originalText));
              phonetic := [];
              audioUrl := None;
              meanings := meanings;
              source := u "wiktionary";
              originalWord := None |}
  end.

Definition parseWiktionaryResult (originalText : jsstring)
  (data : WiktionaryJson) : option DictData :=
  (* [data.en || data.English || []] *)
  let enEntries :=
    match truthyProperty data (u "en") with
    | Some v => v
    | None =>
        match truthyProperty data (u "English") with
        | Some v => v
        | None => WikiEntries []
        end
    end in
  match enEntries with
  | WikiEntries (e :: r) => parseWiktionaryEntries originalText (e :: r)
  | _ =>
      (* try any available language *)
      match find (fun k => nonEmptyArray (property data k)) (map fst data) with
      | None => None
      | Some firstLang =>
          if truthy firstLang
          then match property data firstLang with
               | Some (WikiEntries es) => parseWiktionaryEntries originalText es
               | _ => None
               end
          else None
      end
  end.

Definition lookupWiktionary (net : Network) (text : jsstring)
  : Lookup (option DictData) :=
  tryCatch
    (slug ← encodeURIComponent
              (underscoreRuns false (toLowerCase (trim text)));
     response ← fetch (GetWiktionary slug) (wiktionaryApi net slug);
     if negb (ok response)
     then (if (status response =? 404)%Z then mret None
           else throw (HttpError (status response)))
     else
       data ← json response;
       mret (parseWiktionaryResult text data))
    (fun _ => mret None).

(** *** Translation *)

Definition translateText (net : Network) (text langPair : jsstring)
  : Lookup (option jsstring) :=
  tryCatch
    (q ← encodeURIComponent text;
     langpair ← encodeURIComponent langPair;
     response ← fetch (GetTranslation q langpair)
                      (translationApi net q langpair);
     if negb (ok response) then throw (HttpError (status response))
     else
       data ← json response;
       match responseStatus data, responseData data with
       | Some 200%Z, Some d =>
           match translatedText d with
           | Some result =>
               (* the service returns the input as it is when it cannot
                  translate *)
               if truthy result
                  && negb (eqb (toLowerCase result) (toLowerCase text))
               then mret (Some result)
               else mret None
           | None => mret None
           end
       | _, _ => mret None
       end)
    (fun _ => mret None).

(** The literal of the source that stands for a missing translation. *)
Definition translationUnavailable : jsstring :=
  [0x7ffb; 0x8bd1; 0x6682; 0x4e0d; 0x53ef; 0x7528].

Definition translateWord (net : Network) (text : jsstring) : Lookup jsstring :=
  result ← translateText net text (u "en|zh-CN");
  mret (orString result translationUnavailable).

Definition translateChineseToEnglish (net : Network) (text : jsstring)
  : Lookup (option jsstring) :=
  translateText net text (u "zh-CN|en").

(** [translateDefinitions(meanings)] writes [translationZh] into every
    definition of the meanings it is given; the embedding returns the
    meanings as they are once all the translations have settled. *)
Definition translateDefinition (net : Network) (def : Definition_)
  : Lookup Definition_ :=
  zh ← translateText net (definition def) (u "en|zh-CN");
  mret {| definition := definition def;
          examples := examples def;
          translationZh := Some (orString zh []) |}.

Definition translateMeaning (net : Network) (meaning : Meaning)
  : Lookup Meaning :=
  defs ← mapAsync (translateDefinition net) (definitions meaning);
  mret {| partOfSpeech := partOfSpeech meaning;
          definitions := defs;
          synonyms := synonyms meaning |}.

Definition translateDefinitions (net : Network) (meanings : list Meaning)
  : Lookup (list Meaning) :=
  mapAsync (translateMeaning net) meanings.

(** *** Translation by a language model *)

Definition TRANSLATION_PROMPT : jsstring :=
  [0x4f60; 0x662f; 0x4e00; 0x4e2a; 0x4e13; 0x4e1a; 0x7ffb; 0x8bd1;
   0x52a9; 0x624b; 0x3002; 0x8bc6; 0x522b; 0x7528; 0x6237; 0x8f93;
   0x5165; 0x7684; 0x8bed; 0x79cd; 0xff1a; 0x5982; 0x679c; 0x662f;
   0x4e2d; 0x6587; 0x5219; 0x7ffb; 0x8bd1; 0x6210; 0x82f1; 0x6587;
   0xff0c; 0x5982; 0x679c; 0x662f; 0x82f1; 0x6587; 0x6216; 0x5176;
   0x4ed6; 0x8bed; 0x8a00; 0x5219; 0x7ffb; 0x8bd1; 0x6210; 0x4e2d;
   0x6587; 0x3002; 0x53ea; 0x8fd4; 0x56de; 0x7ffb; 0x8bd1; 0x7ed3;
   0x679c; 0xff0c; 0x4e0d; 0x8981; 0x4efb; 0x4f55; 0x89e3; 0x91ca;
   0x3001; 0x6807; 0x70b9; 0x4fee; 0x6539; 0x6216; 0x989d; 0x5916;
   0x5185; 0x5bb9; 0x3002].

(** [data...content?.trim() || null] *)
Definition chatText (data : ChatJson) : option jsstring :=
  match chat_content data with
  | Some c => whenTruthy (Some (trim c))
  | None => None
  end.

(** The only endpoint and model the source passes are those of DeepSeek;
    the request is told by its key, system prompt and user message. *)
Definition callOpenAICompatibleApi (net : Network)
  (apiKey systemPrompt userMessage : jsstring) : Lookup (option jsstring) :=
  response ← fetch (PostDeepSeek apiKey systemPrompt userMessage)
                   (deepseekApi net apiKey systemPrompt userMessage);
  if negb (ok response) then throw (HttpError (status response))
  else
    data ← json response;
    mret (chatText data).

Definition callGeminiApi (net : Network)
  (apiKey systemPrompt userMessage : jsstring) : Lookup (option jsstring) :=
  response ← fetch (PostGemini apiKey systemPrompt userMessage)
                   (geminiApi net apiKey systemPrompt userMessage);
  if negb (ok response) then throw (HttpError (status response))
  else
    data ← json response;
    mret (chatText data).

Definition translateWithDeepSeek (net : Network) (text : jsstring)
  : Lookup (option jsstring) :=
  let provider := orString (llm_provider net) (u "deepseek") in
  match whenTruthy (llm_api_key net) with
  | None => mret None
  | Some apiKey =>
      tryCatch
        (if eqb provider (u "gemini")
         then callGeminiApi net apiKey TRANSLATION_PROMPT text
         else callOpenAICompatibleApi net apiKey TRANSLATION_PROMPT text)
        (fun _ => mret None)
  end.

(** *** Unified lookup entry point *)

Definition createTranslationOnlyResult (text : jsstring) : DictData :=
  {| word := Some (toLowerCase (trim text));
     phonetic := [];
     audioUrl := None;
     meanings := [];
     source := u "translation-only";
     originalWord := None |}.

(** [dictData] once [translateDefinitions(dictData.meanings)] has written
    into its meanings. *)
Definition withMeanings (d : DictData) (ms : list Meaning) : DictData :=
  {| word := word d;
     phonetic := phonetic d;
     audioUrl := audioUrl d;
     meanings := ms;
     source := source d;
     originalWord := originalWord d |}.

(** [{ ...d, source: s }] *)
Definition withSource (d : DictData) (s : jsstring) : DictData :=
  {| word := word d;
     phonetic := phonetic d;
     audioUrl := audioUrl d;
     meanings := meanings d;
     source := s;
     originalWord := originalWord d |}.

(** [translation && translation !== '翻译暂不可用'], the source's test
    that the translation fetched with the first tier is a real one. *)
Definition isTranslation (translation : jsstring) : bool :=
  truthy translation && negb (eqb translation translationUnavailable).

(** Handle single English word lookup. The first two requests are the two
    members of one [Promise.all]: both are sent before either settles. *)
Definition handleWordLookup (net : Network) (w : jsstring)
  : Lookup LookupResult :=
  dictData ← lookupFreeDictionary net w;
  translation ← translateWord net w;
  match dictData with
  | Some d =>
      ms ← translateDefinitions net (meanings d);
      mret {| dictData := Some (withMeanings d ms);
              translation := translation;
              inputType := Word |}
  | None =>
      (* Fallback to Wiktionary *)
      wikiData ← lookupWiktionary net w;
      match wikiData with
      | Some d =>
          ms ← translateDefinitions net (meanings d);
          mret {| dictData := Some (withMeanings d ms);
                  translation := translation;
                  inputType := Word |}
      | None =>
          (* Translation-only fallback *)
          if isTranslation translation
          then mret {| dictData := Some (createTranslationOnlyResult w);
                       translation := translation;
                       inputType := Word |}
          else
            (* DeepSeek LLM fallback *)
            deepSeekResult ← translateWithDeepSeek net w;
            match whenTruthy deepSeekResult with
            | Some r =>
                mret {| dictData :=
                          Some (withSource (createTranslationOnlyResult w)
                                           (u "deepseek"));
                        translation := r;
                        inputType := Word |}
            | None =>
                mret {| dictData := None;
                        translation := translation;
                        inputType := Word |}
            end
      end
  end.

(** Handle English phrase lookup. *)
Definition handlePhraseLookup (net : Network) (p : jsstring)
  : Lookup LookupResult :=
  wikiData ← lookupWiktionary net p;
  translation ← translateWord net p;
  match wikiData with
  | Some d =>
      ms ← translateDefinitions net (meanings d);
      mret {| dictData := Some (withMeanings d ms);
              translation := translation;
              inputType := Phrase |}
  | None =>
      (* Also try Free Dictionary *)
      dictData ← lookupFreeDictionary net p;
      match dictData with
      | Some d =>
          ms ← translateDefinitions net (meanings d);
          mret {| dictData := Some (withMeanings d ms);
                  translation := translation;
                  inputType := Phrase |}
      | None =>
          if isTranslation translation
          then mret {| dictData := Some (createTranslationOnlyResult p);
                       translation := translation;
                       inputType := Phrase |}
          else
            deepSeekResult ← translateWithDeepSeek net p;
            match whenTruthy deepSeekResult with
            | Some r =>
                mret {| dictData :=
                          Some (withSource (createTranslationOnlyResult p)
                                           (u "deepseek"));
                        translation := r;
                        inputType := Phrase |}
            | None =>
                mret {| dictData := None;
                        translation := translation;
                        inputType := Phrase |}
            end
      end
  end.

(** The key of the English lookup of a Chinese input:
    [englishTranslation.toLowerCase().trim().replace(/[.!?,;:]+$/, '')]. *)
Definition englishWordOf (englishTranslation : jsstring) : jsstring :=
  stripTrailingPunctuation (trim (toLowerCase englishTranslation)).

(** [{ ...dictData, word: chineseText, originalWord: dictData.word }] *)
Definition withChineseWord (d : DictData) (chineseText : jsstring) : DictData :=
  {| word := Some chineseText;
     phonetic := phonetic d;
     audioUrl := audioUrl d;
     meanings := meanings d;
     source := source d;
     originalWord := word d |}.

(** Handle Chinese input lookup. *)
Definition handleChineseLookup (net : Network) (chineseText : jsstring)
  : Lookup LookupResult :=
  (* Step 1: Translate Chinese to English, DeepSeek as the fallback *)
  first ← translateChineseToEnglish net chineseText;
  englishTranslation ←
    match whenTruthy first with
    | Some e => mret (Some e)
    | None => translateWithDeepSeek net chineseText
    end;
  match whenTruthy englishTranslation with
  | None =>
      mret {| dictData := Some (createTranslationOnlyResult chineseText);
              translation := chineseText;
              inputType := Chinese |}
  | Some english =>
      (* Step 2: Look up the English translation *)
      let englishWord := englishWordOf english in
      fromFreeDictionary ← lookupFreeDictionary net englishWord;
      dictData ←
        match fromFreeDictionary with
        | Some d => mret (Some d)
        | None => lookupWiktionary net englishWord
        end;
      let result :=
        match dictData with
        | Some d => withChineseWord d chineseText
        | None => createTranslationOnlyResult chineseText
        end in
      mret {| dictData := Some result;
              translation := english;
              inputType := Chinese |}
  end.

Definition lookupWord (net : Network) (text : jsstring) : Lookup LookupResult :=
  let inputType := detectInputType text in
  let trimmed := trim text in
  match inputType with
  | Chinese => handleChineseLookup net trimmed
  | Phrase => handlePhraseLookup net trimmed
  | Word => handleWordLookup net trimmed
  end.

(** *** What the network answers

    The value each provider function resolves to, and the requests it
    sends, told from a run on the empty log. *)

Definition answerOf {A} (m : Lookup (option A)) : option A :=
  match snd (m []) with
  | Resolved a => a
  | Rejected _ => None
  end.

Definition freeDictionaryAnswer (net : Network) (w : jsstring)
  : option DictData :=
  answerOf (lookupFreeDictionary net w).

Definition wiktionaryAnswer (net : Network) (text : jsstring)
  : option DictData :=
  answerOf (lookupWiktionary net text).

Definition translationAnswer (net : Network) (text langPair : jsstring)
  : option jsstring :=
  answerOf (translateText net text langPair).

Definition llmAnswer (net : Network) (text : jsstring) : option jsstring :=
  answerOf (translateWithDeepSeek net text).

Definition llmCalls (net : Network) (text : jsstring) : list Call :=
  fst (translateWithDeepSeek net text []).

(** The request each of the three providers with a URL sends: none when
    the text of the URL is not well formed, as [encodeURIComponent] throws
    before [fetch] is called. *)
Definition freeDictionaryCalls (w : jsstring) : list Call :=
  if isWellFormed (toLowerCase (trim w))
  then [GetFreeDictionary (toLowerCase (trim w))]
  else [].

Definition wiktionaryCalls (text : jsstring) : list Call :=
  if isWellFormed (underscoreRuns false (toLowerCase (trim text)))
  then [GetWiktionary (underscoreRuns false (toLowerCase (trim text)))]
  else [].

Definition translationCalls (text langPair : jsstring) : list Call :=
  if isWellFormed text
  then (if isWellFormed langPair then [GetTranslation text langPair] else [])
  else [].

(** The translation of the query that [translateWord] resolves to. *)
Definition fetchedTranslation (net : Network) (q : jsstring) : jsstring :=
  orString (translationAnswer net q (u "en|zh-CN")) translationUnavailable.

(** The meanings once [translateDefinitions] has gone through them, and
    the requests it sends on the way. *)
Definition translatedDefinition (net : Network) (def : Definition_)
  : Definition_ :=
  {| definition := definition def;
     examples := examples def;
     translationZh :=
       Some (orString (translationAnswer net (definition def)
                                         (u "en|zh-CN")) []) |}.

Definition translatedMeaning (net : Network) (meaning : Meaning) : Meaning :=
  {| partOfSpeech := partOfSpeech meaning;
     definitions := map (translatedDefinition net) (definitions meaning);
     synonyms := synonyms meaning |}.

Definition definitionCalls (meanings : list Meaning) : list Call :=
  flat_map
    (fun m =>
       flat_map (fun d => translationCalls (definition d) (u "en|zh-CN"))
                (definitions m))
    meanings.

(** A record with the translations of its definitions filled in. *)
Definition annotated (net : Network) (d : DictData) : DictData :=
  withMeanings d (map (translatedMeaning net) (meanings d)).

(** A record without the translations of its definitions. *)
Definition withoutTranslationZh (d : DictData) : DictData :=
  withMeanings d
    (map (fun m =>
            {| partOfSpeech := partOfSpeech m;
               definitions :=
                 map (fun def => {| definition := definition def;
                                    examples := examples def;
                                    translationZh := None |})
                     (definitions m);
               synonyms := synonyms m |})
         (meanings d)).

(** The English translation the Chinese lookup goes on with: that of the
    translation service, or else that of the language model. *)
Definition chineseTranslation (net : Network) (chineseText : jsstring)
  : option jsstring :=
  match whenTruthy (translationAnswer net chineseText (u "zh-CN|en")) with
  | Some e => Some e
  | None => whenTruthy (llmAnswer net chineseText)
  end.

(** The requests that get that translation. *)
Definition chineseTranslationCalls (net : Network) (chineseText : jsstring)
  : list Call :=
  translationCalls chineseText (u "zh-CN|en")
  ++ match whenTruthy (translationAnswer net chineseText (u "zh-CN|en")) with
     | Some _ => []
     | None => llmCalls net chineseText
     end.

(** The record the two dictionaries have for a key, the Free Dictionary
    asked first, and the requests that get it. *)
Definition dictionaryAnswer (net : Network) (key : jsstring)
  : option DictData :=
  match freeDictionaryAnswer net key with
  | Some d => Some d
  | None => wiktionaryAnswer net key
  end.

Definition dictionaryCalls (net : Network) (key : jsstring) : list Call :=
  freeDictionaryCalls key
  ++ match freeDictionaryAnswer net key with
     | Some _ => []
     | None => wiktionaryCalls key
     end.

(** The requests and the result of a Chinese lookup. *)
Definition chineseRequests (net : Network) (chineseText : jsstring)
  : list Call :=
  chineseTranslationCalls net chineseText
  ++ match chineseTranslation net chineseText with
     | Some english => dictionaryCalls net (englishWordOf english)
     | None => []
     end.

Definition chineseResult (net : Network) (chineseText : jsstring)
  : LookupResult :=
  match chineseTranslation net chineseText with
  | None =>
      {| dictData := Some (createTranslationOnlyResult chineseText);
         translation := chineseText;
         inputType := Chinese |}
  | Some english =>
      {| dictData :=
           Some match dictionaryAnswer net (englishWordOf english) with
                | Some d => withChineseWord d chineseText
                | None => createTranslationOnlyResult chineseText
                end;
         translation := english;
         inputType := Chinese |}
  end.

End Dictionary.

(** ** The iOS realisation of the dictionary service

    [DictionaryService.swift]. A Swift [String] is modelled as the list of
    its Unicode scalars. What Foundation provides is taken as given: the
    case mapping of [lowercased()] and the two character sets the service
    names. Percent-encoding a Swift string and building the URL do not
    fail; a request is told by the text that is encoded. [now] is what
    [Date()] reads, in seconds. *)

Module Swift.

Abbreviation Text := (list N).

Record Foundation := {
  lowercased : Text -> Text;              (* [String.lowercased()] *)
  whitespaces : N -> bool;                (* [CharacterSet.whitespaces] *)
  whitespacesAndNewlines : N -> bool;     (* [.whitespacesAndNewlines] *)
  (* the line terminators U+000A to U+000D, U+0085, U+2028 and U+2029 are
     in the second set, as its documentation says: in a string trimmed
     with it, [$] of a regular expression is the end of the string *)
  newlines :
    forallb whitespacesAndNewlines
            [0x0A; 0x0B; 0x0C; 0x0D; 0x85; 0x2028; 0x2029] = true
}.

(** [s.trimmingCharacters(in: set)] *)
Definition trimmingCharacters (set : N -> bool) (s : Text) : Text :=
  dropWhileEnd set (dropWhile set s).

(** [s.components(separatedBy: set)]: the pieces between the scalars of
    the set, an empty piece between two such scalars that are adjacent;
    [cur] holds the current piece in reverse. *)
Fixpoint components (set : N -> bool) (cur : Text) (s : Text) : list Text :=
  match s with
  | [] => [rev cur]
  | c :: r =>
      if set c then rev cur :: components set [] r
      else components set (c :: cur) r
  end.

(** The two ranges of the service: 4E00...9FFF and 3400...4DBF. *)
Definition isCJK (c : N) : bool :=
  ((0x4E00 <=? c) && (c <=? 0x9FFF)) || ((0x3400 <=? c) && (c <=? 0x4DBF)).

Definition detectInputType (F : Foundation) (text : Text)
  : Dictionary.InputType :=
  let trimmed := trimmingCharacters (whitespacesAndNewlines F) text in
  (* Check for CJK characters *)
  if existsb isCJK trimmed then Dictionary.Chinese
  else
    (* Check for multiple words *)
    let wordCount :=
      length (List.filter truthy (components (whitespaces F) [] trimmed)) in
    if (1 <? wordCount)%nat then Dictionary.Phrase else Dictionary.Word.

(** *** The models of [Models.swift] *)

Record Definition_ := {
  definition : Text;
  example : option Text;
  synonyms : option (list Text)
}.

Record Meaning := {
  partOfSpeech : Text;
  definitions : list Definition_
}.

Record WordEntry := {
  word : Text;
  phonetic : option Text;
  audioUrl : option Text;
  meanings : list Meaning;
  translation : option Text;
  addedAt : Z;
  nextReviewAt : Z;
  reviewCount : Z;
  level : Z;
  lastReviewedAt : option Z
}.

(** [WordEntry(word:phonetic:audioUrl:meanings:translation:)] *)
Definition init (F : Foundation) (now : Z) (w : Text)
  (ph au : option Text) (ms : list Meaning) (tr : option Text) : WordEntry :=
  {| word := lowercased F w;
     phonetic := ph;
     audioUrl := au;
     meanings := ms;
     translation := tr;
     addedAt := now;
     nextReviewAt := (now + 24 * 60 * 60)%Z;
     reviewCount := 0;
     level := 0;
     lastReviewedAt := None |}.

(** [entry.word = w] and [entry.translation = tr] *)
Definition withWord (entry : WordEntry) (w : Text) (tr : Text) : WordEntry :=
  {| word := w;
     phonetic := phonetic entry;
     audioUrl := audioUrl entry;
     meanings := meanings entry;
     translation := Some tr;
     addedAt := addedAt entry;
     nextReviewAt := nextReviewAt entry;
     reviewCount := reviewCount entry;
     level := level entry;
     lastReviewedAt := lastReviewedAt entry |}.

Record Phonetic := {
  text : option Text;
  audio : option Text
}.

Record APIDefinition := {
  api_definition : option Text;
  api_example : option Text;
  api_synonyms : option (list Text)
}.

Record APIMeaning := {
  api_partOfSpeech : option Text;
  api_definitions : option (list APIDefinition)
}.

Record FreeDictEntry := {
  entry_word : Text;
  phonetics : option (list Phonetic);
  api_meanings : option (list APIMeaning)
}.

Record TranslationData := {
  translatedText : option Text
}.

Record TranslationResponse := {
  responseStatus : option Z;
  responseData : option TranslationData
}.

Record LookupResult := {
  dictData : option WordEntry;
  resultTranslation : option Text;
  inputType : Dictionary.InputType;
  source : option Text
}.

(** What [JSONSerialization] and the casts of [lookupWiktionary] read of a
    Wiktionary answer: a field is [None] when it is missing or the cast
    fails. *)
Record WikiDefinition := {
  wiki_definition : option Text
}.

Record WikiSection := {
  wiki_partOfSpeech : option Text;
  wiki_definitions : option (list WikiDefinition)
}.

Record WikiJson := {
  en : option (list WikiSection)
}.

(** [URLSession.shared]: the answer to each request, its body as the
    decoder reads it, [None] when decoding throws. *)
Record Session := {
  freeDictionary : Text -> Dictionary.FetchResult (list FreeDictEntry);
  wiktionary : Text -> Dictionary.FetchResult WikiJson;
  translationService :
    Text -> Text -> Dictionary.FetchResult TranslationResponse
}.

(** *** Free Dictionary API *)

Fixpoint firstText (ps : list Phonetic) : option Text :=
  match ps with
  | [] => None
  | p :: r => match text p with Some t => Some t | None => firstText r end
  end.

Fixpoint firstAudio (ps : list Phonetic) : option Text :=
  match ps with
  | [] => None
  | p :: r =>
      match audio p with
      | Some (c :: a) => Some (c :: a)
      | _ => firstAudio r
      end
  end.

Definition apiDefinitions (ds : list APIDefinition) : list Definition_ :=
  omap (fun d =>
          match api_definition d with
          | None => None
          | Some def =>
              Some {| definition := def;
                      example := api_example d;
                      synonyms := match api_synonyms d with
                                  | Some (s :: r) => Some (s :: r)
                                  | _ => None
                                  end |}
          end)
       ds.

Definition apiMeanings (ms : list APIMeaning) : list Meaning :=
  omap (fun m =>
          match api_partOfSpeech m with
          | None => None
          | Some pos =>
              match apiDefinitions (default [] (api_definitions m)) with
              | [] => None
              | defs => Some {| partOfSpeech := pos; definitions := defs |}
              end
          end)
       ms.

Definition lookupFreeDictionary (F : Foundation) (net : Session) (now : Z)
  (w : Text) : Dictionary.Lookup (option WordEntry) :=
  let encoded := lowercased F w in
  tryCatch
    (response ← Dictionary.fetch (Dictionary.GetFreeDictionary encoded)
                                 (freeDictionary net encoded);
     if negb (Dictionary.status response =? 200)%Z then mret None
     else
       entries ← Dictionary.json response;
       match entries with
       | [] => mret None
       | first :: _ =>
           mret (Some (init F now w
                         (firstText (default [] (phonetics first)))
                         (firstAudio (default [] (phonetics first)))
                         (apiMeanings (default [] (api_meanings first)))
                         None))
       end)
    (fun _ => mret None).

(** *** Wiktionary API *)

(** [s.replacingOccurrences(of: " ", with: "_")] *)
Definition underscoreSpaces (s : Text) : Text :=
  map (fun c => if c =? 0x20 then 0x5F else c) s.

(** [s.replacingOccurrences(of: "<[^>]+>", with: "", options:
    .regularExpression)]: [pending] holds, in reverse, the scalars read
    since an opening [<] that has not met its [>] yet; a [>] right after
    the [<] closes no tag. *)
Fixpoint removeTags (pending : option Text) (s : Text) : Text :=
  match s with
  | [] => match pending with None => [] | Some p => rev p end
  | c :: r =>
      match pending with
      | None => if c =? 0x3C then removeTags (Some [c]) r
                else c :: removeTags None r
      | Some p =>
          if c =? 0x3E
          then match p with
               | [_] => rev p ++ c :: removeTags None r
               | _ => removeTags None r
               end
          else removeTags (Some (c :: p)) r
      end
  end.

Definition wikiDefinitions (ds : list WikiDefinition) : list Definition_ :=
  omap (fun d =>
          match wiki_definition d with
          | None => None
          | Some defText =>
              Some {| definition := removeTags None defText;
                      example := None;
                      synonyms := None |}
          end)
       ds.

Definition wikiMeanings (sections : list WikiSection) : list Meaning :=
  omap (fun section =>
          match wiki_partOfSpeech section, wiki_definitions section with
          | Some pos, Some ds =>
              match wikiDefinitions ds with
              | [] => None
              | defs => Some {| partOfSpeech := pos; definitions := defs |}
              end
          | _, _ => None
          end)
       sections.

Definition lookupWiktionary (F : Foundation) (net : Session) (now : Z)
  (t : Text) : Dictionary.Lookup (option WordEntry) :=
  let slug := underscoreSpaces (lowercased F t) in
  tryCatch
    (response ← Dictionary.fetch (Dictionary.GetWiktionary slug)
                                 (wiktionary net slug);
     if negb (Dictionary.status response =? 200)%Z then mret None
     else
       json ← Dictionary.json response;
       match en json with
       | None => mret None
       | Some sections =>
           match wikiMeanings sections with
           | [] => mret None
           | ms => mret (Some (init F now t None None ms None))
           end
       end)
    (fun _ => mret None).

(** *** Translation *)

Definition translateText (F : Foundation) (net : Session)
  (t langPair : Text) : Dictionary.Lookup (option Text) :=
  tryCatch
    (response ← Dictionary.fetch (Dictionary.GetTranslation t langPair)
                                 (translationService net t langPair);
     body ← Dictionary.json response;
     match responseData body with
     | Some data =>
         match translatedText data with
         | Some result =>
             if negb (eqb (lowercased F result) (lowercased F t))
             then mret (Some result)
             else mret None
         | None => mret None
         end
     | None => mret None
     end)
    (fun _ => mret None).

(** *** Chinese Lookup *)

(** The key of the English lookup:
    [english.lowercased().trimmingCharacters(in: .whitespacesAndNewlines)
    .replacingOccurrences(of: "[.!?,;:]+$", with: "", options:
    .regularExpression)]. *)
Definition cleanEnglish (F : Foundation) (english : Text) : Text :=
  stripTrailingPunctuation
    (trimmingCharacters (whitespacesAndNewlines F) (lowercased F english)).

Definition handleChineseLookup (F : Foundation) (net : Session) (now : Z)
  (chinese : Text) : Dictionary.Lookup LookupResult :=
  (* Step 1: Translate to English *)
  translated ← translateText F net chinese (u "zh|en");
  match translated with
  | None =>
      mret {| dictData := None;
              resultTranslation := None;
              inputType := Dictionary.Chinese;
              source := None |}
  | Some english =>
      (* Step 2: Look up the English word *)
      fromFreeDictionary ←
        lookupFreeDictionary F net now (cleanEnglish F english);
      dictData ←
        match fromFreeDictionary with
        | Some entry => mret (Some entry)
        | None => lookupWiktionary F net now (cleanEnglish F english)
        end;
      match dictData with
      | Some entry =>
          mret {| dictData := Some (withWord entry chinese english);
                  resultTranslation := Some english;
                  inputType := Dictionary.Chinese;
                  source := Some (u "free-dictionary") |}
      | None =>
          (* Translation-only result *)
          mret {| dictData :=
                    Some (init F now chinese None None [] (Some english));
                  resultTranslation := Some english;
                  inputType := Dictionary.Chinese;
                  source := Some (u "translation-only") |}
      end
  end.


Definition entryOf (F : Foundation) (net : Session) (now : Z) (key : Text)
  : option WordEntry :=
  match Dictionary.answerOf (lookupFreeDictionary F net now key) with
  | Some entry => Some entry
  | None => Dictionary.answerOf (lookupWiktionary F net now key)
  end.

End Swift.

(** ** The bridge from a Chinese text to an English key *)

Module Bridging.



End Bridging.

(** ** The classes of the specification *)

Module Classes.

(** The CJK ranges of the web page: 4e00-9fff, 3400-4dbf and f900-faff. *)
Definition cjk (c : N) : Prop :=
  0x4e00 <= c <= 0x9fff \/ 0x3400 <= c <= 0x4dbf \/ 0xf900 <= c <= 0xfaff.

(** The CJK ranges of the iOS service: 4E00-9FFF and 3400-4DBF. *)
Definition cjkOfService (c : N) : Prop :=
  0x4E00 <= c <= 0x9FFF \/ 0x3400 <= c <= 0x4DBF.

(** The white space of ECMAScript, line terminators included: what [\s]
    matches and [trim] removes. *)
Definition space (c : N) : Prop :=
  In c [0x09; 0x0A; 0x0B; 0x0C; 0x0D; 0x20; 0xA0; 0x1680;
        0x2000; 0x2001; 0x2002; 0x2003; 0x2004; 0x2005; 0x2006; 0x2007;
        0x2008; 0x2009; 0x200A; 0x2028; 0x2029; 0x202F; 0x205F; 0x3000;
        0xFEFF].

(** A text of more than one token: a separator stands between two code
    units that are not separators. *)
Definition severalTokens (sep : N -> Prop) (s : list N) : Prop :=
  exists a x b,
    s = a ++ x :: b /\ sep x
    /\ (exists c, In c a /\ ~ sep c) /\ (exists c, In c b /\ ~ sep c).

(** [core] is [s] without the separators at its two ends. *)
Definition trimmed (sep : N -> Prop) (s core : list N) : Prop :=
  exists pre post,
    s = pre ++ core ++ post
    /\ Forall sep pre /\ Forall sep post
    /\ (forall c r, core = c :: r -> ~ sep c)
    /\ (forall k c, core = k ++ [c] -> ~ sep c).

End Classes.

(** ** The tiers of the specification

    The waterfall as the specification words it: an ordered list of tiers
    per class of input, tried in order until one answers with a record. *)

Module Waterfall.

Import Dictionary.

Inductive Tier :=
| PrimaryDictionary      (* Free Dictionary *)
| SecondaryDictionary    (* Wiktionary *)
| TranslationOnly
| LLMFallback.

Definition wordTiers : list Tier :=
  [PrimaryDictionary; SecondaryDictionary; TranslationOnly; LLMFallback].

Definition phraseTiers : list Tier :=
  [SecondaryDictionary; PrimaryDictionary; TranslationOnly; LLMFallback].

Definition tiersOf (t : InputType) : list Tier :=
  match t with
  | Phrase => phraseTiers
  | _ => wordTiers
  end.

(** The record and the translation a tier answers the query [q] with;
    [fetched] is the translation of the query that was fetched together
    with the first tier. *)
Definition tierAnswer (net : Network) (q fetched : jsstring) (tier : Tier)
  : option (DictData * jsstring) :=
  match tier with
  | PrimaryDictionary =>
      (fun d => (d, fetched)) <$> freeDictionaryAnswer net q
  | SecondaryDictionary =>
      (fun d => (d, fetched)) <$> wiktionaryAnswer net q
  | TranslationOnly =>
      if isTranslation fetched
      then Some (createTranslationOnlyResult q, fetched)
      else None
  | LLMFallback =>
      (fun r => (withSource (createTranslationOnlyResult q) (u "deepseek"), r))
        <$> whenTruthy (llmAnswer net q)
  end.

(** The requests a tier sends when its turn comes. *)
Definition tierCalls (net : Network) (q : jsstring) (tier : Tier)
  : list Call :=
  match tier with
  | PrimaryDictionary => freeDictionaryCalls q
  | SecondaryDictionary => wiktionaryCalls q
  | TranslationOnly => []
  | LLMFallback => llmCalls net q
  end.

(** The tiers tried, in order, and the answer of the last of them. *)
Fixpoint waterfall (net : Network) (q fetched : jsstring) (tiers : list Tier)
  : list Tier * option (DictData * jsstring) :=
  match tiers with
  | [] => ([], None)
  | tier :: rest =>
      match tierAnswer net q fetched tier with
      | Some answer => ([tier], Some answer)
      | None =>
          let (tried, answer) := waterfall net q fetched rest in
          (tier :: tried, answer)
      end
  end.

(** The requests of a lookup that tried the tiers [tried] and got
    [answer]: the translation of the query is asked for right after the
    first tier's request, and the definitions of the record that won are
    translated last. *)
Definition requests (net : Network) (q : jsstring) (tried : list Tier)
  (answer : option (DictData * jsstring)) : list Call :=
  flat_map (tierCalls net q) (take 1 tried)
  ++ translationCalls q (u "en|zh-CN")
  ++ flat_map (tierCalls net q) (drop 1 tried)
  ++ match answer with
     | Some (d, _) => definitionCalls (meanings d)
     | None => []
     end.

(** The result of a lookup of class [t] that got [answer]. *)
Definition resultOf (net : Network) (t : InputType) (fetched : jsstring)
  (answer : option (DictData * jsstring)) : LookupResult :=
  {| dictData := annotated net <$> (fst <$> answer);
     translation := match answer with
                    | Some (_, tr) => tr
                    | None => fetched
                    end;
     inputType := t |}.

(** The tag of the tier a result came from: the [source] of its record,
    none when it has no record. *)
Definition sourceOf (r : LookupResult) : option jsstring :=
  source <$> dictData r.

(** Every tier of the class of the input misses; for a Chinese input, no
    English translation is got. *)
Definition exhausted (net : Network) (text : jsstring) : Prop :=
  match detectInputType text with
  | Chinese => chineseTranslation net (trim text) = None
  | t =>
      snd (waterfall net (trim text) (fetchedTranslation net (trim text))
                     (tiersOf t)) = None
  end.

End Waterfall.

(** ** Text without tags *)

Module Html.

(** The string has a [>]. *)
Definition closes (s : jsstring) : bool := existsb (fun c => c =? 0x3E) s.

(** No [<] of the string has a [>] after it: the string has no match of
    [/<[^>]*>/]. *)
Fixpoint tagFree (s : jsstring) : bool :=
  match s with
  | [] => true
  | c :: r => (if c =? 0x3C then negb (closes r) else true) && tagFree r
  end.

End Html.

(** ** The tags of a record *)

Module Tags.

Import Dictionary.

(** A record of the lookup of the query [q], a word or a phrase: one of
    the Free Dictionary, one of Wiktionary for the query, or a record
    without meanings for the query, tagged [translation-only] or
    [deepseek]. *)
Definition tagged (q : jsstring) (d : DictData) : Prop :=
  (source d = u "free-dictionary"
   \/ (source d = u "wiktionary" /\ meanings d <> []
       /\ word d = Some (toLowerCase (trim q)))
   \/ ((source d = u "translation-only" \/ source d = u "deepseek")
       /\ meanings d = [] /\ word d = Some (toLowerCase (trim q))))
  /\ originalWord d = None.

End Tags.

(** ** The storage module: the IndexedDB object store of words *)

Module Storage.

Import Dictionary.

(** Data an extras panel caches in a record: any JSON value. *)
#[local] Unset Elimination Schemes.
Inductive Json :=
| JNull
| JBool (b : bool)
| JNumber (n : Z)
| JString (s : jsstring)
| JArray (items : list Json)
| JObject (fields : list (jsstring * Json)).
#[local] Set Elimination Schemes.

(** A record of the object store. [nextReviewAt] is [None] when the number
    stored is [NaN]; [audioUrl], [lastReviewedAt] and the three caches are
    [None] when the field is [null] or the record has no such field. *)
Record WordEntry := {
  word : jsstring;
  phonetic : jsstring;
  audioUrl : option jsstring;
  meanings : list Meaning;
  translation : jsstring;
  addedAt : Z;
  nextReviewAt : option Z;
  reviewCount : Z;
  level : Z;
  lastReviewedAt : option Z;
  conjugationsData : option Json;
  synonymsData : option Json;
  antonymsData : option Json
}.

(** The object store has key path ['word']: a record is kept under its
    own [word]. *)
Abbreviation ObjectStore := (gmap jsstring WordEntry).

Abbreviation Db := (Async ObjectStore).

(** What the key path makes of every store: each record is kept under
    its own [word]. *)
Definition keyed (db : ObjectStore) : Prop :=
  forall k e, db !! k = Some e -> word e = k.

(** [store.put(entry)] *)
Definition put (entry : WordEntry) : Db unit :=
  modify (fun db : ObjectStore => <[word entry := entry]> db).

(** [store.get(key)] *)
Definition get (key : jsstring) : Db (option WordEntry) :=
  gets (fun db : ObjectStore => db !! key).

(** [store.getAll()]; the order of the records is the map's own. *)
Definition getAll : Db (list WordEntry) :=
  gets (fun db : ObjectStore => map snd (map_to_list db)).

(** The argument of [saveWord]. *)
Module WordData.
Record t := {
  word : jsstring;
  phonetic : option jsstring;
  audioUrl : option jsstring;
  meanings : option (list Meaning);
  translation : option jsstring
}.
End WordData.

Definition DAY : Z := 24 * 60 * 60 * 1000.

(** Save a word entry to the database. [now] is what [Date.now()] reads
    while the entry is built. *)
Definition saveWord (now : Z) (wordData : WordData.t) : Db unit :=
  let entry :=
    {| word := toLowerCase (WordData.word wordData);
       phonetic := orString (WordData.phonetic wordData) [];
       audioUrl := whenTruthy (WordData.audioUrl wordData);
       meanings := default [] (WordData.meanings wordData);
       translation := orString (WordData.translation wordData) [];
       addedAt := now;
       nextReviewAt := Some (now + DAY)%Z;   (* 1 day from now *)
       reviewCount := 0;
       level := 0;
       lastReviewedAt := None;
       conjugationsData := None;
       synonymsData := None;
       antonymsData := None |} in
  put entry.

Definition getWord (w : jsstring) : Db (option WordEntry) :=
  get (toLowerCase w).

Definition getAllWords : Db (list WordEntry) := getAll.

(** The object a caller passes to [updateWord]: the fields it sets. *)
Record Updates := {
  set_translation : option jsstring;
  set_nextReviewAt : option (option Z);
  set_reviewCount : option Z;
  set_level : option Z;
  set_lastReviewedAt : option Z;
  set_conjugationsData : option Json;
  set_synonymsData : option Json;
  set_antonymsData : option Json
}.

(** [{ ...existing, ...updates }] *)
Definition merge (existing : WordEntry) (updates : Updates) : WordEntry :=
  {| word := word existing;
     phonetic := phonetic existing;
     audioUrl := audioUrl existing;
     meanings := meanings existing;
     translation := default (translation existing) (set_translation updates);
     addedAt := addedAt existing;
     nextReviewAt :=
       default (nextReviewAt existing) (set_nextReviewAt updates);
     reviewCount := default (reviewCount existing) (set_reviewCount updates);
     level := default (level existing) (set_level updates);
     lastReviewedAt :=
       match set_lastReviewedAt updates with
       | Some t => Some t
       | None => lastReviewedAt existing
       end;
     conjugationsData :=
       match set_conjugationsData updates with
       | Some d => Some d
       | None => conjugationsData existing
       end;
     synonymsData :=
       match set_synonymsData updates with
       | Some d => Some d
       | None => synonymsData existing
       end;
     antonymsData :=
       match set_antonymsData updates with
       | Some d => Some d
       | None => antonymsData existing
       end |}.

(** Update a word entry (partial update via merge). *)
Definition updateWord (w : jsstring) (updates : Updates) : Db unit :=
  existing ← get (toLowerCase w);
  match existing with
  | None => mret tt
  | Some e => put (merge e updates)
  end.

Definition deleteWord (w : jsstring) : Db unit :=
  modify (fun db : ObjectStore => delete (toLowerCase w) db).

Definition getWordCount : Db Z :=
  gets (fun db : ObjectStore => Z.of_nat (size db)).

(** *** Export and import *)

(** A record as a JSON backup file holds it: every field may be missing
    or [null]. *)
Module Backup.
Record t := {
  word : option jsstring;
  phonetic : option jsstring;
  audioUrl : option jsstring;
  meanings : option (list Meaning);
  translation : option jsstring;
  addedAt : option Z;
  nextReviewAt : option Z;
  reviewCount : option Z;
  level : option Z;
  lastReviewedAt : option Z;
  conjugationsData : option Json;
  synonymsData : option Json;
  antonymsData : option Json
}.
End Backup.

(** What [JSON.stringify] writes for a record of the store and
    [JSON.parse] reads back: [NaN] is written as [null]. *)
Definition toBackup (e : WordEntry) : Backup.t :=
  {| Backup.word := Some (word e);
     Backup.phonetic := Some (phonetic e);
     Backup.audioUrl := audioUrl e;
     Backup.meanings := Some (meanings e);
     Backup.translation := Some (translation e);
     Backup.addedAt := Some (addedAt e);
     Backup.nextReviewAt := nextReviewAt e;
     Backup.reviewCount := Some (reviewCount e);
     Backup.level := Some (level e);
     Backup.lastReviewedAt := lastReviewedAt e;
     Backup.conjugationsData := conjugationsData e;
     Backup.synonymsData := synonymsData e;
     Backup.antonymsData := antonymsData e |}.

(** An element of the array of a backup file, which is any JSON value.
    What the loop of [importWords] does with it depends on its [word]. *)
Inductive Element :=
| Entry (entry : Backup.t)  (* an object whose [word] is a string, or is
                               missing, [null], [false] or [0] *)
| WordNotString             (* an object whose [word] is [true], a number
                               other than 0, an array or an object *)
| NotAnObject               (* a number, a string, a boolean or an array *)
| NullElement.              (* [null] *)

(** The [words] property of a wrapped backup. *)
Inductive WordsProperty :=
| WordsArray (words : list Element)
| WordsOther (isTruthy : bool)      (* any value that is not an array *)
| WordsMissing.

(** The value [JSON.parse] makes of a backup file. *)
Inductive BackupJson :=
| RawArray (words : list Element)   (* [[...]] *)
| Wrapped (version : option Z) (exportedAt : option Z) (wordCount : option Z)
          (words : WordsProperty)   (* [{ version, ..., words }] *)
| Primitive                         (* a number, a string or a boolean *)
| Null.

(** Export all words: the number of words the source returns, with the
    object it serialises into the downloaded file. *)
Definition exportAllWords (now : Z) : Db (BackupJson * Z) :=
  words ← getAllWords;
  match words with
  | [] => throw (Error [0x6ca1; 0x6709; 0x53ef; 0x5bfc; 0x51fa; 0x7684;
                        0x6570; 0x636e])
  | _ =>
      let exportData :=
        Wrapped (Some 1%Z) (Some now) (Some (Z.of_nat (length words)))
                (WordsArray (map Entry (map toBackup words))) in
      mret (exportData, Z.of_nat (length words))
  end.

Record ImportCount := {
  imported : Z;
  skipped : Z
}.

(** The record [importWords] puts for the backup record [entry] whose
    word is [w]. *)
Definition backupRecord (now : Z) (w : jsstring) (entry : Backup.t)
  : WordEntry :=
  {| word := toLowerCase w;
     phonetic := orString (Backup.phonetic entry) [];
     audioUrl := None;
     meanings := default [] (Backup.meanings entry);
     translation := orString (Backup.translation entry) [];
     addedAt := orNumber (Backup.addedAt entry) now;
     nextReviewAt :=
       Some (orNumber (Backup.nextReviewAt entry) (now + DAY));
     reviewCount := orNumber (Backup.reviewCount entry) 0;
     level := orNumber (Backup.level entry) 0;
     lastReviewedAt :=
       match Backup.lastReviewedAt entry with
       | Some t => if (t =? 0)%Z then None else Some t
       | None => None
       end;
     conjugationsData := None;
     synonymsData := None;
     antonymsData := None |}.

(** The body of the loop of [importWords], for an object whose word is a
    string or is falsy. *)
Definition importEntry (now : Z) (entry : Backup.t) (count : ImportCount)
  : Db ImportCount :=
  match whenTruthy (Backup.word entry) with
  | None => mret count                       (* [continue] *)
  | Some w =>
      (* Check if word already exists *)
      existing ← getWord w;
      match existing with
      | Some _ =>
          mret {| imported := imported count;
                  skipped := skipped count + 1 |}
      | None =>
          (* Save with original data (preserving review state) *)
          put (backupRecord now w entry);;
          mret {| imported := imported count + 1;
                  skipped := skipped count |}
      end
  end.

(** The two errors [importWords] throws: the text of the file does not
    parse, and the file has no array of words that is not empty. *)
Definition unparsable : exn :=
  Error [0x6587; 0x4ef6; 0x683c; 0x5f0f; 0x9519; 0x8bef; 0xff0c; 0x65e0;
         0x6cd5; 0x89e3; 0x6790; 0x20; 0x4a; 0x53; 0x4f; 0x4e].

Definition noWords : exn :=
  Error [0x6587; 0x4ef6; 0x4e2d; 0x6ca1; 0x6709; 0x627e; 0x5230; 0x8bcd;
         0x6c47; 0x6570; 0x636e].

(** The body of the loop of [importWords], for any element. Reading
    [entry.word] throws when the element is [null] and gives [undefined]
    when it is a primitive or an array; [getWord] throws for a word that
    has no [toLowerCase]. *)
Definition importElement (now : Z) (element : Element) (count : ImportCount)
  : Db ImportCount :=
  match element with
  | NullElement => throw TypeError
  | NotAnObject => mret count                (* [continue] *)
  | WordNotString => throw TypeError
  | Entry entry => importEntry now entry count
  end.

(** Import words from a JSON backup file. [parsed] is what [JSON.parse]
    makes of the text of the file, [None] when it throws. *)
Definition importWords (now : Z) (parsed : option BackupJson)
  : Db ImportCount :=
  data ← match parsed with
         | Some data => mret data
         | None => throw unparsable
         end;
  (* Support both wrapped format and raw array *)
  words ← match data with
          | RawArray ws => mret (WordsArray ws)
          | Wrapped _ _ _ (WordsOther true) => mret (WordsOther true)
          | Wrapped _ _ _ (WordsArray ws) => mret (WordsArray ws)
          | Wrapped _ _ _ _ => mret (WordsArray [])
          | Primitive => mret (WordsArray [])
          | Null => throw TypeError
          end;
  match words with
  | WordsArray (w :: ws) =>
      forEach (importElement now) (w :: ws) {| imported := 0; skipped := 0 |}
  | _ => throw noWords
  end.

(** *** Notions the properties of import and export are stated with *)

(** The records a backup holds: the elements of its array, when it has
    one. *)
Definition recordSet (data : BackupJson) : list Element :=
  match data with
  | RawArray ws => ws
  | Wrapped _ _ _ (WordsArray ws) => ws
  | _ => []
  end.

(** The word of an element, when it is a string that is not empty. *)
Definition wordOf (element : Element) : option jsstring :=
  match element with
  | Entry entry => whenTruthy (Backup.word entry)
  | _ => None
  end.

(** The loop throws at the element: it is [null], or its word is a value
    other than a string that is truthy. *)
Definition illTyped (element : Element) : Prop :=
  element = NullElement \/ element = WordNotString.

(** A backup record has a word. *)
Definition hasWord (entry : Backup.t) : Prop :=
  whenTruthy (Backup.word entry) <> None.

(** The key of a backup record: its word, lower-cased. *)
Definition keyOf (entry : Backup.t) : jsstring :=
  toLowerCase (orString (Backup.word entry) []).

(** The store has a record under the key of a backup record. *)
Definition overlaps (db : ObjectStore) (entry : Backup.t) : bool :=
  match db !! keyOf entry with Some _ => true | None => false end.

(** The stored record [e] holds what the backup record [entry] gives for
    the fields [importWords] reads; a timestamp given as 0 counts as not
    given. *)
Definition restored (entry : Backup.t) (e : WordEntry) : Prop :=
  word e = keyOf entry
  /\ (forall s, Backup.phonetic entry = Some s -> phonetic e = s)
  /\ (forall ms, Backup.meanings entry = Some ms -> meanings e = ms)
  /\ (forall s, Backup.translation entry = Some s -> translation e = s)
  /\ (forall t, Backup.addedAt entry = Some t -> t <> 0%Z -> addedAt e = t)
  /\ (forall t, Backup.nextReviewAt entry = Some t -> t <> 0%Z ->
                nextReviewAt e = Some t)
  /\ (forall n, Backup.reviewCount entry = Some n -> reviewCount e = n)
  /\ (forall n, Backup.level entry = Some n -> level e = n)
  /\ (forall t, Backup.lastReviewedAt entry = Some t -> t <> 0%Z ->
                lastReviewedAt e = Some t).


(** A record as [saveWord] and the review transitions of words at the
    levels 0 to 6 leave it: a non-empty lower-case word and timestamps
    that are numbers other than 0. *)
Definition wellFormed (e : WordEntry) : Prop :=
  word e <> []
  /\ toLowerCase (word e) = word e
  /\ addedAt e <> 0%Z
  /\ (exists t, nextReviewAt e = Some t /\ t <> 0%Z)
  /\ lastReviewedAt e <> Some 0%Z.

End Storage.

(** ** The Ebbinghaus module: review levels and intervals *)

Module Ebbinghaus.

Import Storage.

(** Review intervals in milliseconds. *)
Definition REVIEW_INTERVALS : list Z :=
  [ 1 * 24 * 60 * 60 * 1000;    (* 1 day *)
    2 * 24 * 60 * 60 * 1000;    (* 2 days *)
    4 * 24 * 60 * 60 * 1000;    (* 4 days *)
    7 * 24 * 60 * 60 * 1000;    (* 7 days *)
    15 * 24 * 60 * 60 * 1000;   (* 15 days *)
    30 * 24 * 60 * 60 * 1000 ]%Z. (* 30 days *)

(** [REVIEW_INTERVALS[level]]: [undefined] outside the table. *)
Definition intervalAt (level : Z) : option Z :=
  if (level <? 0)%Z then None else REVIEW_INTERVALS !! Z.to_nat level.

(** Calculate next review date based on current level: [None] is the
    [NaN] that [now + undefined] makes. *)
Definition getNextReviewDate (now : Z) (level : Z) : option Z :=
  if (Z.of_nat (length REVIEW_INTERVALS) <=? level)%Z
  then Some (now + 60 * 24 * 60 * 60 * 1000)%Z   (* Mastered *)
  else (fun i => now + i)%Z <$> intervalAt level.

(** Mark a word as reviewed. [now] is what [Date.now()] reads while the
    updates are built. *)
Definition markAsReviewed (now : Z) (w : jsstring) (remembered : bool)
  : Db (option WordEntry) :=
  allWords ← getAllWords;
  match find (fun e => eqb (word e) (toLowerCase w)) allWords with
  | None => mret None
  | Some entry =>
      let newLevel :=
        if remembered
        then Z.min (level entry + 1) (Z.of_nat (length REVIEW_INTERVALS))
        else 0%Z in    (* Reset to level 0 on failure *)
      let updates :=
        {| set_translation := None;
           set_nextReviewAt := Some (getNextReviewDate now newLevel);
           set_reviewCount := Some (reviewCount entry + 1)%Z;
           set_level := Some newLevel;
           set_lastReviewedAt := Some now;
           set_conjugationsData := None;
           set_synonymsData := None;
           set_antonymsData := None |} in
      updateWord w updates;;
      mret (Some (merge entry updates))
  end.

(** The interval the specification gives a level, in days. *)
Definition intervalDays (level : Z) : Z :=
  match level with
  | 0 => 1 | 1 => 2 | 2 => 4 | 3 => 7 | 4 => 15 | 5 => 30 | _ => 60
  end%Z.

End Ebbinghaus.

(** ** The states of the store

    The stores the public operations lead to from the empty one. *)

Module History.

Import Storage Ebbinghaus.

Inductive reachable : ObjectStore -> Prop :=
| reachable_empty : reachable ∅
| reachable_saveWord now wordData db :
    reachable db -> reachable (fst (saveWord now wordData db))
| reachable_markAsReviewed now w remembered db :
    reachable db -> reachable (fst (markAsReviewed now w remembered db))
| reachable_importWords now parsed db :
    reachable db -> reachable (fst (importWords now parsed db)).

(** Every record of the store is at one of the scheduler's levels. *)
Definition bounded (db : ObjectStore) : Prop :=
  forall k e, db !! k = Some e -> (0 <= level e <= 6)%Z.

(** Every level a backup gives is one of the scheduler's, 0 to 6. *)
Definition levelsInRange (parsed : option BackupJson) : Prop :=
  match parsed with
  | Some data =>
      Forall (fun element =>
                forall entry n,
                  element = Entry entry ->
                  Backup.level entry = Some n -> (0 <= n <= 6)%Z)
             (recordSet data)
  | None => True
  end.

(** The stores reached when every backup imported on the way has its
    levels in range. *)
Inductive reachableInRange : ObjectStore -> Prop :=
| inRange_empty : reachableInRange ∅
| inRange_saveWord now wordData db :
    reachableInRange db -> reachableInRange (fst (saveWord now wordData db))
| inRange_markAsReviewed now w remembered db :
    reachableInRange db ->
    reachableInRange (fst (markAsReviewed now w remembered db))
| inRange_importWords now parsed db :
    levelsInRange parsed ->
    reachableInRange db ->
    reachableInRange (fst (importWords now parsed db)).

End History.

(** ** Sample data *)

Module Sample.

Import Storage.

(** A backup record with every field [importWords] reads. *)
Definition backupOf (w : string) (lvl : Z) : Backup.t :=
  {| Backup.word := Some (u w);
     Backup.phonetic := Some [];
     Backup.audioUrl := None;
     Backup.meanings := Some [];
     Backup.translation := Some (u "...");
     Backup.addedAt := Some 1000%Z;
     Backup.nextReviewAt := Some 2000%Z;
     Backup.reviewCount := Some 3%Z;
     Backup.level := Some lvl;
     Backup.lastReviewedAt := Some 500%Z;
     Backup.conjugationsData := None;
     Backup.synonymsData := None;
     Backup.antonymsData := None |}.

Definition wordDataOf (w : string) : WordData.t :=
  {| WordData.word := u w;
     WordData.phonetic := None;
     WordData.audioUrl := Some (u "https://audio.example/a.mp3");
     WordData.meanings := None;
     WordData.translation := Some (u "...") |}.

(** A store that holds one word. *)
Definition oneWord : ObjectStore :=
  fst (saveWord 1000 (wordDataOf "Run") ∅).

(** A store that holds three words. *)
Definition threeWords : ObjectStore :=
  fst (saveWord 30 (wordDataOf "egg")
         (fst (saveWord 20 (wordDataOf "cat")
                 (fst (saveWord 10 (wordDataOf "apple") ∅))))).

(** A backup of ten words, three of them in [threeWords]. *)
Definition tenWords : BackupJson :=
  Wrapped (Some 1%Z) (Some 0%Z) (Some 10%Z)
    (WordsArray
       (map (fun w => Entry (backupOf w 2))
            ["apple"; "bird"; "cat"; "dog"; "egg"; "fish"; "goat"; "hat";
             "ink"; "jam"]%string)).

(** Networks. In [deadNetwork] every request fails and no key of a
    language model is set. [network] has Free Dictionary entries for
    [run] and [hello], translates the Chinese for hello into [Hello.] and
    every English text into one Chinese character; it has no Wiktionary
    page and no key either. *)
Import Dictionary.

Definition deadNetwork : Network :=
  {| freeDictionaryApi := fun _ => FetchFailed;
     wiktionaryApi := fun _ => Response 404 None;
     translationApi := fun _ _ => Response 500 None;
     deepseekApi := fun _ _ _ => FetchFailed;
     geminiApi := fun _ _ _ => FetchFailed;
     llm_provider := None;
     llm_api_key := None |}.

Definition nihao : jsstring := [0x4f60; 0x597d].

Definition entryOf (w definition : string) : ApiEntry :=
  {| api_word := Some (u w);
     api_phonetic := None;
     api_phonetics := None;
     api_meanings :=
       Some [{| api_partOfSpeech := Some (u "verb");
                api_definitions :=
                  Some [{| api_definition := u definition;
                           api_example := None |}];
                api_synonyms := None |}] |}.

Definition translated (text : jsstring) : FetchResult TranslationJson :=
  Response 200
    (Some {| responseStatus := Some 200%Z;
             responseData := Some {| translatedText := Some text |} |}).

Definition network : Network :=
  {| freeDictionaryApi :=
       fun w =>
         if eqb w (u "run")
         then Response 200 (Some (Entries [entryOf "run" "move fast"]))
         else if eqb w (u "hello")
         then Response 200 (Some (Entries [entryOf "hello" "a greeting"]))
         else Response 404 None;
     wiktionaryApi := fun _ => Response 404 None;
     translationApi :=
       fun text langPair =>
         if eqb langPair (u "zh-CN|en")
         then (if eqb text nihao then translated (u "Hello.")
               else Response 500 None)
         else translated [0x8dd1];
     deepseekApi := fun _ _ _ => FetchFailed;
     geminiApi := fun _ _ _ => FetchFailed;
     llm_provider := None;
     llm_api_key := None |}.

(** The documented character sets of Foundation: [whitespaces] is the
    general category Zs with U+0009, [whitespacesAndNewlines] adds U+000A to
    U+000D, U+0085, U+2028 and U+2029. The case mapping stands in for
    [lowercased()]. *)
Definition isSpace (c : N) : bool :=
  (c =? 0x09) || (c =? 0x20) || (c =? 0xA0) || (c =? 0x1680)
  || ((0x2000 <=? c) && (c <=? 0x200A))
  || (c =? 0x202F) || (c =? 0x205F) || (c =? 0x3000).

Definition isNewline (c : N) : bool :=
  ((0x0A <=? c) && (c <=? 0x0D)) || (c =? 0x85) || (c =? 0x2028)
  || (c =? 0x2029).

Definition foundation : Swift.Foundation :=
  {| Swift.lowercased := toLowerCase;
     Swift.whitespaces := isSpace;
     Swift.whitespacesAndNewlines := fun c => isSpace c || isNewline c;
     Swift.newlines := eq_refl |}.

(** A session in which the translation service turns the Chinese for
    hello into [Hello.] and the Free Dictionary has an entry for [hello]. *)
Definition session : Swift.Session :=
  {| Swift.freeDictionary :=
       fun key =>
         if eqb key (u "hello")
         then Response 200
                (Some [{| Swift.entry_word := u "hello";
                          Swift.phonetics := None;
                          Swift.api_meanings :=
                            Some [{| Swift.api_partOfSpeech :=
                                       Some (u "noun");
                                     Swift.api_definitions :=
                                       Some [{| Swift.api_definition :=
                                                  Some (u "a greeting");
                                                Swift.api_example := None;
                                                Swift.api_synonyms :=
                                                  None |}] |}] |}])
         else Response 404 None;
     Swift.wiktionary := fun _ => Response 404 None;
     Swift.translationService :=
       fun text langPair =>
         if eqb text nihao
         then Response 200
                (Some {| Swift.responseStatus := Some 200%Z;
                         Swift.responseData :=
                           Some {| Swift.translatedText :=
                                     Some (u "Hello.") |} |})
         else Response 500 None |}.

(** In [wikiNetwork] only Wiktionary answers, with a page for
    [ice cream]. *)
Definition iceCreamPage : WiktionaryJson :=
  [(u "en",
    WikiEntries
      [{| wiki_partOfSpeech := Some (u "Noun");
          wiki_definitions :=
            Some [{| wiki_definition := Some (u "A <b>frozen</b> dessert. ");
                     wiki_examples := Some [u "<i>Ice cream</i>, please."] |};
                  {| wiki_definition := Some (u "<br>");
                     wiki_examples := None |}] |}])].

Definition wikiNetwork : Network :=
  {| freeDictionaryApi := fun _ => Response 404 None;
     wiktionaryApi :=
       fun slug => if eqb slug (u "ice_cream")
                   then Response 200 (Some iceCreamPage)
                   else Response 404 None;
     translationApi := fun _ _ => Response 500 None;
     deepseekApi := fun _ _ _ => FetchFailed;
     geminiApi := fun _ _ _ => FetchFailed;
     llm_provider := None;
     llm_api_key := None |}.

End Sample.

(** ** The Ebbinghaus module: what is due, and when *)

Module Due.

Import Storage Ebbinghaus.

(** [x <= now] and [x > now] for a number [x] that may be [NaN]: both are
    false of [NaN]. *)
Definition notAfter (x : option Z) (now : Z) : bool :=
  match x with
  | Some t => (t <=? now)%Z
  | None => false
  end.

Definition after (x : option Z) (now : Z) : bool :=
  match x with
  | Some t => (now <? t)%Z
  | None => false
  end.

(** [w.level < REVIEW_INTERVALS.length] *)
Definition learning (w : WordEntry) : bool :=
  (level w <? Z.of_nat (length REVIEW_INTERVALS))%Z.

(** [w.level >= REVIEW_INTERVALS.length] *)
Definition isMastered (w : WordEntry) : bool :=
  (Z.of_nat (length REVIEW_INTERVALS) <=? level w)%Z.

(** Get all words that are due for review. *)
Definition getDueWords (now : Z) : Db (list WordEntry) :=
  allWords ← getAllWords;
  mret (List.filter (fun w => notAfter (nextReviewAt w) now && learning w)
                    allWords).

(** Get count of words due for review. *)
Definition getDueWordCount (now : Z) : Db Z :=
  dueWords ← getDueWords now;
  mret (Z.of_nat (length dueWords)).

(** [Math.min(x, ...xs)]: [NaN] as soon as one argument is. *)
Fixpoint mathMin (x : option Z) (xs : list (option Z)) : option Z :=
  match xs with
  | [] => x
  | y :: r =>
      mathMin match x, y with
              | Some a, Some b => Some (Z.min a b)
              | _, _ => None
              end r
  end.

(** Get the nearest next review time: [None] is [null], [Some None] would
    be [NaN]. *)
Definition getNextReviewTime (now : Z) : Db (option (option Z)) :=
  allWords ← getAllWords;
  let futureWords :=
    List.filter (fun w => after (nextReviewAt w) now && learning w) allWords in
  match map nextReviewAt futureWords with
  | [] => mret None
  | t :: ts => mret (Some (mathMin t ts))
  end.

Record ReviewStats := {
  total : Z;
  mastered : Z;
  due : Z;
  learningCount : Z      (* the field [learning] of the source *)
}.

(** Get review statistics. *)
Definition getReviewStats (now : Z) : Db ReviewStats :=
  allWords ← getAllWords;
  let total := Z.of_nat (length allWords) in
  let mastered :=
    Z.of_nat (length (List.filter (fun w => isMastered w) allWords)) in
  let due :=
    Z.of_nat (length (List.filter
                        (fun w => notAfter (nextReviewAt w) now && learning w)
                        allWords)) in
  mret {| total := total;
          mastered := mastered;
          due := due;
          learningCount := (total - mastered)%Z |}.

(** A run of reviews of the word [w], one at each of the times [times],
    all of them remembered or all of them forgotten. *)
Fixpoint reviews (times : list Z) (w : jsstring) (remembered : bool)
  : Db unit :=
  match times with
  | [] => mret tt
  | now :: later =>
      markAsReviewed now w remembered;;
      reviews later w remembered
  end.

(** Two update objects that set no field in common. *)
Definition separate (u1 u2 : Updates) : Prop :=
  (set_translation u1 = None \/ set_translation u2 = None)
  /\ (set_nextReviewAt u1 = None \/ set_nextReviewAt u2 = None)
  /\ (set_reviewCount u1 = None \/ set_reviewCount u2 = None)
  /\ (set_level u1 = None \/ set_level u2 = None)
  /\ (set_lastReviewedAt u1 = None \/ set_lastReviewedAt u2 = None)
  /\ (set_conjugationsData u1 = None \/ set_conjugationsData u2 = None)
  /\ (set_synonymsData u1 = None \/ set_synonymsData u2 = None)
  /\ (set_antonymsData u1 = None \/ set_antonymsData u2 = None).

(** The update objects of the callers of [updateWord]: a new translation,
    and the data of an extras panel. *)
(** What a field holds after two updates of which one at most sets it:
    the value that is set, else the value [d] it had. *)
Definition eitherSet {A} (a b : option A) (d : A) : A :=
  match a, b with
  | Some x, _ => x
  | None, Some x => x
  | None, None => d
  end.

Definition translationUpdate (t : jsstring) : Updates :=
  {| set_translation := Some t;
     set_nextReviewAt := None;
     set_reviewCount := None;
     set_level := None;
     set_lastReviewedAt := None;
     set_conjugationsData := None;
     set_synonymsData := None;
     set_antonymsData := None |}.

Definition synonymsUpdate (data : Json) : Updates :=
  {| set_translation := None;
     set_nextReviewAt := None;
     set_reviewCount := None;
     set_level := None;
     set_lastReviewedAt := None;
     set_conjugationsData := None;
     set_synonymsData := Some data;
     set_antonymsData := None |}.

(** The record of a word once it has been reviewed at the time [now]. *)
Definition reviewed (now : Z) (remembered : bool) (entry : WordEntry)
  : WordEntry :=
  let newLevel :=
    if remembered
    then Z.min (level entry + 1) (Z.of_nat (length REVIEW_INTERVALS))
    else 0%Z in
  merge entry
    {| set_translation := None;
       set_nextReviewAt := Some (getNextReviewDate now newLevel);
       set_reviewCount := Some (reviewCount entry + 1)%Z;
       set_level := Some newLevel;
       set_lastReviewedAt := Some now;
       set_conjugationsData := None;
       set_synonymsData := None;
       set_antonymsData := None |}.

(** All the records of a store, as [getAllWords] lists them. *)
Definition allWords (db : ObjectStore) : list WordEntry :=
  map snd (map_to_list db).

(** An element of a backup has a word, a string that is not empty. *)
Definition withWord (element : Element) : bool :=
  match wordOf element with
  | Some _ => true
  | None => false
  end.

(** The stores the operations of the storage and review modules make of
    the empty store. *)
Inductive evolved : ObjectStore -> Prop :=
| evolved_empty : evolved ∅
| evolved_saveWord now wordData db :
    evolved db -> evolved (fst (saveWord now wordData db))
| evolved_updateWord w updates db :
    evolved db -> evolved (fst (updateWord w updates db))
| evolved_deleteWord w db :
    evolved db -> evolved (fst (deleteWord w db))
| evolved_markAsReviewed now w remembered db :
    evolved db -> evolved (fst (markAsReviewed now w remembered db))
| evolved_importWords now parsed db :
    evolved db -> evolved (fst (importWords now parsed db)).

(** Every record is stored under its word, and the word is in lower
    case. *)
Definition lowerKeyed (db : ObjectStore) : Prop :=
  forall k e, db !! k = Some e -> word e = k /\ toLowerCase k = k.

End Due.

(** ** The main module: search, retranslation and the review session *)

Module Main.

Import Storage Ebbinghaus Due.

(** What the handlers of the page run on: the object store, the log of
    the requests sent, and [currentSaveKey], the key of the word on
    display. *)
Record World := {
  store : ObjectStore;
  requests : list Dictionary.Call;
  currentSaveKey : option jsstring
}.

Abbreviation App := (Async World).

(** A call of the storage module, and one of the dictionary module. *)
Definition onStore {A} (m : Db A) : App A :=
  fun w =>
    let (db, r) := m (store w) in
    ({| store := db;
        requests := requests w;
        currentSaveKey := currentSaveKey w |}, r).

Definition onNetwork {A} (m : Dictionary.Lookup A) : App A :=
  fun w =>
    let (log, r) := m (requests w) in
    ({| store := store w;
        requests := log;
        currentSaveKey := currentSaveKey w |}, r).

(** [currentSaveKey = key]; the key is [None] when it is [undefined] or
    not a string. *)
Definition setCurrentSaveKey (key : option jsstring) : App unit :=
  modify (fun w => {| store := store w;
                      requests := requests w;
                      currentSaveKey := key |}).

(** A call of [getWord] or [saveWord] with a word that may not be a
    string: the call of [toLowerCase] on it throws a [TypeError]. *)
Definition withString {A} (word : option jsstring) (call : jsstring -> App A)
  : App A :=
  match word with
  | Some w => call w
  | None => throw TypeError
  end.

(** [refreshStats()]: the two numbers of the header; an error is logged
    and nothing is shown. *)
Definition refreshStats (now : Z) : Db (option (Z * Z)) :=
  tryCatch
    (totalWords ← getWordCount;
     dueCount ← getDueWordCount now;
     mret (Some (totalWords, dueCount)))
    (fun _ => mret None).

(** What the dictionary page shows when a search is over. *)
Inductive SearchView :=
| NoSearch                      (* the input is empty: nothing happens *)
| FromCache (entry : WordEntry) (inputType : Dictionary.InputType)
| NotFound (inputType : Dictionary.InputType)
| Found (dictData : Dictionary.DictData) (translation : jsstring)
        (isSaved : bool) (inputType : Dictionary.InputType)
| SearchFailed.

(** [handleSearch()]; [input] is the value of the search field. *)
Definition handleSearch (net : Dictionary.Network) (now : Z)
  (input : jsstring) : App SearchView :=
  let text := trim input in
  if negb (truthy text) then mret NoSearch
  else
    tryCatch
      (let inputType := Dictionary.detectInputType text in
       (* Check DB cache first *)
       cached ← onStore (getWord text);
       match cached with
       | Some entry =>
           setCurrentSaveKey (Some (word entry));;  (* [renderFromCache] *)
           onStore (refreshStats now);;
           mret (FromCache entry inputType)
       | None =>
           (* No cached entry: full network lookup *)
           result ← onNetwork (Dictionary.lookupWord net text);
           match Dictionary.dictData result with
           | None => mret (NotFound (Dictionary.inputType result))
           | Some dictData =>
               let saveKey := Dictionary.word dictData in
               setCurrentSaveKey saveKey;;
               existing ← withString saveKey (fun k => onStore (getWord k));
               match existing with
               | Some _ => mret tt
               | None =>
                   (* Auto-save if not already saved *)
                   withString saveKey
                     (fun k =>
                        onStore
                          (saveWord now
                             {| WordData.word := k;
                                WordData.phonetic :=
                                  Some (Dictionary.phonetic dictData);
                                WordData.audioUrl :=
                                  Dictionary.whenTruthy
                                    (Dictionary.audioUrl dictData);
                                WordData.meanings :=
                                  Some (Dictionary.meanings dictData);
                                WordData.translation :=
                                  Some (Dictionary.translation result) |}))
               end;;
               onStore (refreshStats now);;
               mret (Found dictData (Dictionary.translation result)
                           (bool_decide (is_Some existing))
                           (Dictionary.inputType result))
           end
       end)
      (fun _ => mret SearchFailed).



(** The state of a review session. *)
Record Session := {
  reviewQueue : list WordEntry;
  reviewIndex : nat;
  reviewRemembered : nat;
  reviewForgot : nat
}.

(** [refreshReview()]; [shuffle] is what [shuffleArray] makes of the due
    words. An error is logged and the session stays as it is. *)
Definition refreshReview (now : Z)
  (shuffle : list WordEntry -> list WordEntry) (s : Session) : Db Session :=
  tryCatch
    (dueWords ← getDueWords now;
     match dueWords with
     | [] =>
         getNextReviewTime now;;
         mret s
     | _ =>
         mret {| reviewQueue := shuffle dueWords;
                 reviewIndex := 0;
                 reviewRemembered := 0;
                 reviewForgot := 0 |}
     end)
    (fun _ => mret s).

(** [handleReviewAction(remembered)] *)
Definition handleReviewAction (now : Z) (remembered : bool) (s : Session)
  : Db Session :=
  match reviewQueue s !! reviewIndex s with
  | None => mret s          (* [reviewIndex >= reviewQueue.length] *)
  | Some currentWord =>
      (* Update in database *)
      markAsReviewed now (word currentWord) remembered;;
      let s' :=
        {| reviewQueue := reviewQueue s;
           reviewIndex := S (reviewIndex s);
           reviewRemembered :=
             if remembered then S (reviewRemembered s)
             else reviewRemembered s;
           reviewForgot :=
             if remembered then reviewForgot s else S (reviewForgot s) |} in
      if (length (reviewQueue s') <=? reviewIndex s')%nat
      then refreshStats now;; mret s'     (* All done *)
      else mret s'                        (* Next card *)
  end.

(** The answers of a user to the cards of a session, one after another:
    the time of each answer, and whether the word was remembered. *)
Fixpoint answerAll (answers : list (Z * bool)) (s : Session) : Db Session :=
  match answers with
  | [] => mret s
  | (now, remembered) :: later =>
      s' ← handleReviewAction now remembered s;
      answerAll later s'
  end.


End Main.

(** * Properties *)

Import Dictionary.

(** ** Strings *)

Section Strings.

Lemma eqb_eq (a b : jsstring) : eqb a b = true <-> a = b.
Proof.
  revert b. induction a as [|x a IH]; intros [|y b]; simpl;
    try (split; [discriminate | congruence]); [tauto|].
  rewrite andb_true_iff, N.eqb_eq, IH. split.
  - intros [-> ->]. reflexivity.
  - intros [= -> ->]. auto.
Qed.

Lemma eqb_refl (a : jsstring) : eqb a a = true.
Proof. apply eqb_eq. reflexivity. Qed.

Lemma eqb_neq (a b : jsstring) : eqb a b = false <-> a <> b.
Proof.
  rewrite <- eqb_eq. destruct (eqb a b); split; congruence.
Qed.

Lemma existsb_dropWhile (q p : N -> bool) (s : jsstring) :
  (forall c, q c = true -> p c = false) ->
  existsb q (dropWhile p s) = existsb q s.
Proof.
  intros Hqp. induction s as [|c r IH]; simpl; [reflexivity|].
  destruct (p c) eqn:Hp; [|reflexivity].
  rewrite IH. destruct (q c) eqn:Hq; [|reflexivity].
  apply Hqp in Hq. congruence.
Qed.

Lemma existsb_rev (q : N -> bool) (s : jsstring) :
  existsb q (rev s) = existsb q s.
Proof.
  induction s as [|c r IH]; simpl; [reflexivity|].
  rewrite existsb_app, IH. simpl. rewrite orb_false_r. apply orb_comm.
Qed.

Lemma existsb_dropWhileEnd (q p : N -> bool) (s : jsstring) :
  (forall c, q c = true -> p c = false) ->
  existsb q (dropWhileEnd p s) = existsb q s.
Proof.
  intros Hqp. unfold dropWhileEnd.
  rewrite existsb_rev, existsb_dropWhile, existsb_rev by assumption.
  reflexivity.
Qed.

(** What [dropWhile] leaves is empty or starts with a unit it keeps. *)
Lemma dropWhile_head (p : N -> bool) (s : jsstring) :
  match dropWhile p s with
  | [] => True
  | c :: _ => p c = false
  end.
Proof.
  induction s as [|c r IH]; simpl; [exact I|].
  destruct (p c) eqn:Hp; [exact IH | exact Hp].
Qed.

(** A kept unit at the end stays at the end. *)
Lemma dropWhile_snoc (p : N -> bool) (s : jsstring) (c : N) :
  p c = false -> exists s', dropWhile p (s ++ [c]) = s' ++ [c].
Proof.
  intros Hc. induction s as [|x r IH]; simpl.
  - rewrite Hc. exists []. reflexivity.
  - destruct (p x); [exact IH|]. exists (x :: r). reflexivity.
Qed.

Lemma endsWithWhitespace_snoc (s : jsstring) (c : N) :
  endsWithWhitespace (s ++ [c]) = isWhitespace c.
Proof.
  induction s as [|x r IH]; simpl; [reflexivity|].
  destruct (r ++ [c]) eqn:E; [destruct r; discriminate | exact IH].
Qed.

Lemma endsWithWhitespace_rev (s : jsstring) :
  endsWithWhitespace (rev s)
  = match s with [] => false | c :: _ => isWhitespace c end.
Proof.
  destruct s as [|c r]; simpl; [reflexivity|].
  apply endsWithWhitespace_snoc.
Qed.

(** A trimmed string is empty, or starts and ends with units that are not
    white space. *)
Lemma trim_shape (s : jsstring) :
  trim s = [] \/
  exists c r, trim s = c :: r /\ isWhitespace c = false
              /\ endsWithWhitespace (c :: r) = false.
Proof.
  unfold trim, dropWhileEnd.
  pose proof (dropWhile_head isWhitespace s) as Hhead.
  destruct (dropWhile isWhitespace s) as [|c r]; [left; reflexivity|].
  right. simpl rev.
  pose proof (dropWhile_head isWhitespace (rev r ++ [c])) as Hkept.
  destruct (dropWhile_snoc isWhitespace (rev r) c Hhead) as [s' Hs'].
  exists c, (rev s'). split; [|split; [exact Hhead|]].
  - rewrite Hs', rev_app_distr. reflexivity.
  - replace (c :: rev s') with (rev (s' ++ [c]))
      by (rewrite rev_app_distr; reflexivity).
    rewrite endsWithWhitespace_rev. rewrite Hs' in Hkept.
    destruct (s' ++ [c]) eqn:E; [reflexivity | exact Hkept].
Qed.

(** A string without white space is one piece. *)
Lemma splitRuns_one_piece (s : jsstring) :
  forall inRun cur,
    hasWhitespace s = false -> length (splitRuns inRun cur s) = 1%nat.
Proof.
  induction s as [|c r IH]; intros inRun cur H; simpl; [reflexivity|].
  simpl in H. apply orb_false_iff in H as [Hc Hr].
  rewrite Hc. apply IH. exact Hr.
Qed.

(** The pieces of a string that does not end with white space are not
    empty, once a piece has begun; after a run, the same holds when the
    string goes on. *)
Lemma splitRuns_pieces (s : jsstring) :
  (forall cur, cur <> [] -> endsWithWhitespace s = false ->
               Forall (fun t => truthy t = true) (splitRuns false cur s))
  /\ (s <> [] -> endsWithWhitespace s = false ->
      Forall (fun t => truthy t = true) (splitRuns true [] s)).
Proof.
  assert (Hrev : forall cur : jsstring, cur <> [] -> truthy (rev cur) = true).
  { intros [|x cur] H; [congruence|]. simpl.
    destruct (rev cur ++ [x]) eqn:E; [destruct (rev cur); discriminate|].
    reflexivity. }
  assert (Htail : forall c r, isWhitespace c = true ->
            endsWithWhitespace (c :: r) = false ->
            r <> [] /\ endsWithWhitespace r = false).
  { intros c [|y r] Hc H; simpl in H; [congruence|].
    split; [discriminate | exact H]. }
  induction s as [|c r [IHtoken IHrun]]; split.
  - intros cur Hcur _. simpl. constructor; [auto | constructor].
  - congruence.
  - intros cur Hcur Hend. simpl. destruct (isWhitespace c) eqn:Hc.
    + destruct (Htail c r Hc Hend) as [Hr Hend'].
      constructor; [auto | apply IHrun; assumption].
    + apply IHtoken; [discriminate|].
      destruct r; [reflexivity | exact Hend].
  - intros _ Hend. simpl. destruct (isWhitespace c) eqn:Hc.
    + destruct (Htail c r Hc Hend) as [Hr Hend'].
      apply IHrun; assumption.
    + apply IHtoken; [discriminate|].
      destruct r; [reflexivity | exact Hend].
Qed.

Lemma filter_all (p : jsstring -> bool) (l : list jsstring) :
  Forall (fun t => p t = true) l -> List.filter p l = l.
Proof.
  induction 1 as [|t l Ht _ IH]; simpl; [reflexivity|].
  rewrite Ht, IH. reflexivity.
Qed.

(** Counting the pieces of a trimmed text or its tokens tells the same
    about there being more than one. *)
Lemma trim_pieces_tokens (s : jsstring) :
  (1 <? length (splitWhitespace (trim s)))%nat
  = (1 <? length (tokens (trim s)))%nat.
Proof.
  unfold tokens, splitWhitespace.
  destruct (trim_shape s) as [-> | (c & r & -> & Hc & Hend)];
    [reflexivity|].
  rewrite filter_all; [reflexivity|].
  simpl. rewrite Hc.
  apply (proj1 (splitRuns_pieces r)); [discriminate|].
  destruct r; [reflexivity | exact Hend].
Qed.

Lemma isCJK_not_whitespace c : isCJK c = true -> isWhitespace c = false.
Proof.
  intros H. apply not_true_is_false. intros W.
  unfold isCJK in H. unfold isWhitespace in W.
  repeat rewrite ?orb_true_iff, ?andb_true_iff, ?N.leb_le, ?N.eqb_eq in H.
  repeat rewrite ?orb_true_iff, ?andb_true_iff, ?N.leb_le, ?N.eqb_eq in W.
  lia.
Qed.

(** Trimming removes white space only: it keeps every CJK unit. *)
Lemma hasCJK_trim (s : jsstring) : hasCJK (trim s) = hasCJK s.
Proof.
  unfold hasCJK, trim.
  rewrite existsb_dropWhileEnd, existsb_dropWhile
    by exact isCJK_not_whitespace.
  reflexivity.
Qed.

End Strings.

(** ** Trimming *)

Section Trimming.

Variable p : N -> bool.

Lemma dropWhile_idempotent (s : jsstring) :
  dropWhile p (dropWhile p s) = dropWhile p s.
Proof.
  induction s as [|c r IH]; [reflexivity|]. simpl.
  destruct (p c) eqn:E; [exact IH|]. simpl. rewrite E. reflexivity.
Qed.

Lemma dropWhile_all (a b : jsstring) :
  forallb p a = true -> dropWhile p (a ++ b) = dropWhile p b.
Proof.
  induction a as [|c r IH]; [reflexivity|]. simpl.
  intros H. apply andb_true_iff in H as [-> H]. exact (IH H).
Qed.

Lemma dropWhile_app (a b : jsstring) :
  dropWhile p (a ++ b)
  = match dropWhile p a with
    | [] => dropWhile p b
    | _ => dropWhile p a ++ b
    end.
Proof.
  induction a as [|c r IH]; simpl.
  - destruct (dropWhile p b); reflexivity.
  - destruct (p c); [exact IH | reflexivity].
Qed.

(** What [dropWhile] leaves does not start with a code unit of the class. *)
Lemma dropWhile_starts (s : jsstring) (c : N) (r : jsstring) :
  dropWhile p s = c :: r -> p c = false.
Proof.
  intros D. pose proof (dropWhile_head p s) as H. rewrite D in H. exact H.
Qed.

Lemma dropWhileEnd_cons (c : N) (r : jsstring) :
  p c = false -> dropWhileEnd p (c :: r) = c :: dropWhileEnd p r.
Proof.
  intros E. unfold dropWhileEnd. simpl rev. rewrite dropWhile_app.
  destruct (dropWhile p (rev r)) as [|x l] eqn:D.
  - simpl. rewrite E. reflexivity.
  - rewrite rev_app_distr. reflexivity.
Qed.

Lemma dropWhileEnd_idempotent (s : jsstring) :
  dropWhileEnd p (dropWhileEnd p s) = dropWhileEnd p s.
Proof.
  unfold dropWhileEnd. rewrite rev_involutive, dropWhile_idempotent.
  reflexivity.
Qed.

Lemma dropWhileEnd_all (a b : jsstring) :
  forallb p b = true -> dropWhileEnd p (a ++ b) = dropWhileEnd p a.
Proof.
  intros H. unfold dropWhileEnd. rewrite rev_app_distr, dropWhile_all;
    [reflexivity|].
  rewrite forallb_forall in *. intros x Hx. apply H, in_rev. exact Hx.
Qed.

(** Both ends trimmed: trimming again changes nothing. *)
Lemma trimmed_idempotent (s : jsstring) :
  dropWhileEnd p (dropWhile p (dropWhileEnd p (dropWhile p s)))
  = dropWhileEnd p (dropWhile p s).
Proof.
  destruct (dropWhile p s) as [|c r] eqn:D; [reflexivity|].
  pose proof (dropWhile_starts s c r D) as E.
  rewrite (dropWhileEnd_cons c r E). simpl. rewrite E.
  rewrite <- (dropWhileEnd_cons c r E). apply dropWhileEnd_idempotent.
Qed.

(** Code units of the class around a string are trimmed away with its
    own. *)
Lemma trimmed_padding (pre s post : jsstring) :
  forallb p pre = true -> forallb p post = true ->
  dropWhileEnd p (dropWhile p (pre ++ s ++ post))
  = dropWhileEnd p (dropWhile p s).
Proof.
  intros Hpre Hpost. rewrite (dropWhile_all pre _ Hpre), dropWhile_app.
  destruct (dropWhile p s) as [|c r] eqn:D.
  - rewrite <- (app_nil_r post), dropWhile_all by exact Hpost. reflexivity.
  - apply dropWhileEnd_all. exact Hpost.
Qed.

End Trimming.

Lemma trim_idempotent (s : jsstring) : trim (trim s) = trim s.
Proof. apply trimmed_idempotent. Qed.

Lemma trim_padding (pre s post : jsstring) :
  forallb isWhitespace pre = true -> forallb isWhitespace post = true ->
  trim (pre ++ s ++ post) = trim s.
Proof. apply trimmed_padding. Qed.

(** ** Classification of the input *)

(** The class by the tokens of the trimmed text. *)
Lemma detectInputType_tokens (text : jsstring) :
  detectInputType text
  = if hasCJK text then Chinese
    else if (1 <? length (tokens (trim text)))%nat then Phrase
    else Word.
Proof.
  unfold detectInputType. rewrite hasCJK_trim.
  destruct (hasCJK text); [reflexivity|].
  rewrite <- trim_pieces_tokens.
  destruct (hasWhitespace (trim text)) eqn:Hws; [reflexivity|].
  unfold splitWhitespace. rewrite splitRuns_one_piece by exact Hws.
  reflexivity.
Qed.

Lemma dropWhile_split (p : N -> bool) (s : jsstring) :
  exists run, s = run ++ dropWhile p s /\ forallb p run = true.
Proof.
  induction s as [|c r (run & Hr & Hrun)]; [exists []; split; reflexivity|].
  simpl. destruct (p c) eqn:E.
  - exists (c :: run). simpl. rewrite E, Hrun, <- Hr. split; reflexivity.
  - exists []. split; reflexivity.
Qed.

Section Pieces.

Variable set : N -> bool.

Let has (s : list N) : bool := existsb (fun c => negb (set c)) s.

Let count (cur s : list N) : nat :=
  length (List.filter truthy (Swift.components set cur s)).

Lemma truthy_rev (cur : list N) : truthy (rev cur) = truthy cur.
Proof.
  destruct cur as [|c r]; [reflexivity|]. simpl.
  destruct (rev r); reflexivity.
Qed.

Lemma count_nil (cur : list N) :
  count cur [] = if truthy cur then 1%nat else 0%nat.
Proof.
  unfold count. simpl. rewrite truthy_rev. destruct (truthy cur); reflexivity.
Qed.

Lemma count_separator (cur : list N) (c : N) (r : list N) :
  set c = true ->
  count cur (c :: r) = ((if truthy cur then 1 else 0) + count [] r)%nat.
Proof.
  intros Hc. unfold count. simpl. rewrite Hc. simpl. rewrite truthy_rev.
  destruct (truthy cur); reflexivity.
Qed.

Lemma count_other (cur : list N) (c : N) (r : list N) :
  set c = false -> count cur (c :: r) = count (c :: cur) r.
Proof. intros Hc. unfold count. simpl. rewrite Hc. reflexivity. Qed.

Lemma count_positive (s : list N) :
  forall cur, (1 <= count cur s)%nat <-> truthy cur = true \/ has s = true.
Proof.
  induction s as [|c r IH]; intros cur.
  - rewrite count_nil. unfold has. simpl.
    destruct (truthy cur); split; intros H;
      [left; reflexivity | lia | lia | destruct H as [H|H]; discriminate H].
  - destruct (set c) eqn:Hc.
    + rewrite (count_separator cur c r Hc). unfold has. simpl. rewrite Hc.
      simpl. fold (has r). specialize (IH []). simpl in IH.
      destruct (truthy cur); split; intros H.
      * left. reflexivity.
      * lia.
      * right. assert (H1 : (1 <= count [] r)%nat) by lia.
        apply IH in H1 as [H1|H1]; [discriminate H1 | exact H1].
      * destruct H as [H|H]; [discriminate H|].
        assert (1 <= count [] r)%nat by (apply IH; right; exact H). lia.
    + rewrite (count_other cur c r Hc). unfold has. simpl. rewrite Hc.
      simpl. split; [auto|]. intros _. apply IH. left. reflexivity.
Qed.

Lemma count_several (s : list N) :
  forall cur,
    (2 <= count cur s)%nat
    <-> exists a x b,
          s = a ++ x :: b /\ set x = true
          /\ (truthy cur = true \/ has a = true) /\ has b = true.
Proof.
  induction s as [|c r IH]; intros cur.
  - rewrite count_nil. split.
    + destruct (truthy cur); lia.
    + intros (a & x & b & H & _). destruct a; discriminate H.
  - destruct (set c) eqn:Hc.
    + rewrite (count_separator cur c r Hc). split.
      * intros H.
        destruct (le_lt_dec 2 (count [] r)) as [H2|H2].
        -- apply IH in H2 as (a & x & b & -> & Hx & [Ha|Ha] & Hb);
             [discriminate Ha|].
           exists (c :: a), x, b. split; [reflexivity|].
           split; [exact Hx|]. split; [|exact Hb].
           right. unfold has. simpl. rewrite Hc. exact Ha.
        -- destruct (truthy cur) eqn:Hcur; [|lia].
           assert (H1 : (1 <= count [] r)%nat) by lia.
           apply count_positive in H1 as [H1|H1]; [discriminate H1|].
           exists [], c, r. split; [reflexivity|].
           split; [exact Hc|]. split; [left; reflexivity | exact H1].
      * intros (a & x & b & H & Hx & Ha & Hb).
        destruct a as [|c' a]; simpl in H; injection H as <- ->.
        -- destruct Ha as [Ha|Ha]; [|discriminate Ha]. rewrite Ha.
           assert (1 <= count [] b)%nat
             by (apply count_positive; right; exact Hb). lia.
        -- unfold has in Ha. simpl in Ha. rewrite Hc in Ha. simpl in Ha.
           destruct Ha as [Ha|Ha].
           ++ rewrite Ha.
              assert (1 <= count [] (a ++ x :: b))%nat; [|lia].
              apply count_positive. right. unfold has.
              rewrite existsb_app. simpl.
              fold (has b). rewrite Hb.
              rewrite !orb_true_r. reflexivity.
           ++ assert (2 <= count [] (a ++ x :: b))%nat; [|lia].
              apply IH. exists a, x, b. auto.
    + rewrite (count_other cur c r Hc), IH. split.
      * intros (a & x & b & -> & Hx & _ & Hb).
        exists (c :: a), x, b. split; [reflexivity|].
        split; [exact Hx|]. split; [|exact Hb].
        right. unfold has. simpl. rewrite Hc. reflexivity.
      * intros (a & x & b & H & Hx & Ha & Hb).
        destruct a as [|c' a]; simpl in H; injection H as <- ->;
          [congruence|].
        exists a, x, b. split; [reflexivity|]. split; [exact Hx|].
        split; [left; reflexivity | exact Hb].
Qed.

(** More than one piece that is not empty. *)
Lemma components_several (s : list N) :
  (1 <? length (List.filter truthy (Swift.components set [] s)))%nat = true
  <-> Classes.severalTokens (fun c => set c = true) s.
Proof.
  rewrite Nat.ltb_lt. fold (count [] s).
  change (1 < count [] s)%nat with (2 <= count [] s)%nat.
  rewrite count_several. unfold Classes.severalTokens. split.
  - intros (a & x & b & -> & Hx & [Ha|Ha] & Hb); [discriminate Ha|].
    exists a, x, b. split; [reflexivity|]. split; [exact Hx|].
    unfold has in Ha, Hb. apply existsb_exists in Ha as (ca & Hca & Hsa).
    apply existsb_exists in Hb as (cb & Hcb & Hsb).
    split; [exists ca | exists cb]; (split; [assumption|]);
      intros E; rewrite E in *; discriminate.
  - intros (a & x & b & -> & Hx & (ca & Hca & Hsa) & (cb & Hcb & Hsb)).
    cbv beta in Hsa, Hsb.
    exists a, x, b. split; [reflexivity|]. split; [exact Hx|].
    split; [right|]; unfold has; apply existsb_exists;
      [exists ca | exists cb]; (split; [assumption|]); cbv beta.
    + destruct (set ca); [destruct Hsa|]; reflexivity.
    + destruct (set cb); [destruct Hsb|]; reflexivity.
Qed.

End Pieces.

Section WebTokens.

(** The pieces of [split(/\s+/)] that are not empty are those between
    single white space. *)
Lemma splitRuns_components (s : jsstring) :
  forall (inRun : bool) (cur : jsstring),
    (inRun = true -> cur = []) ->
    List.filter truthy (splitRuns inRun cur s)
    = List.filter truthy (Swift.components isWhitespace cur s).
Proof.
  induction s as [|c r IH]; intros inRun cur Hrun; [reflexivity|].
  simpl. destruct (isWhitespace c).
  - destruct inRun.
    + rewrite (Hrun eq_refl). simpl. apply IH. reflexivity.
    + simpl. rewrite (IH true []) by reflexivity. reflexivity.
  - apply IH. discriminate.
Qed.

Lemma cjk_spec (c : N) : Dictionary.isCJK c = true <-> Classes.cjk c.
Proof.
  unfold Dictionary.isCJK, Classes.cjk.
  rewrite !orb_true_iff, !andb_true_iff, !N.leb_le. tauto.
Qed.

Lemma cjkOfService_spec (c : N) :
  Swift.isCJK c = true <-> Classes.cjkOfService c.
Proof.
  unfold Swift.isCJK, Classes.cjkOfService.
  rewrite !orb_true_iff, !andb_true_iff, !N.leb_le. tauto.
Qed.

Lemma space_spec (c : N) : isWhitespace c = true <-> Classes.space c.
Proof.
  unfold isWhitespace, Classes.space. simpl In.
  rewrite !orb_true_iff, !andb_true_iff, !N.leb_le, !N.eqb_eq. lia.
Qed.

End WebTokens.

Section Cores.

Variable set : N -> bool.

Lemma dropWhileEnd_split (s : jsstring) :
  exists run, s = dropWhileEnd set s ++ run /\ forallb set run = true.
Proof.
  unfold dropWhileEnd.
  destruct (dropWhile_split set (rev s)) as (run & Hs & Hrun).
  exists (rev run). split.
  - rewrite <- rev_app_distr, <- Hs, rev_involutive. reflexivity.
  - rewrite forallb_forall in *. intros x Hx. apply Hrun, in_rev, Hx.
Qed.

Lemma dropWhileEnd_last (s k : jsstring) (c : N) :
  dropWhileEnd set s = k ++ [c] -> set c = false.
Proof.
  unfold dropWhileEnd. intros H.
  pose proof (dropWhile_head set (rev s)) as Hhead.
  assert (E : dropWhile set (rev s) = c :: rev k).
  { rewrite <- (rev_involutive (dropWhile _ _)), H, rev_app_distr.
    reflexivity. }
  rewrite E in Hhead. exact Hhead.
Qed.

Lemma dropWhileEnd_first (s : jsstring) (c : N) (r : jsstring) :
  dropWhileEnd set s = c :: r -> exists r', s = c :: r'.
Proof.
  intros H. destruct (dropWhileEnd_split s) as (run & Hs & _).
  rewrite H in Hs. eauto.
Qed.

(** What trimming the two ends leaves. *)
Lemma trimmingCharacters_trimmed (s : jsstring) :
  Classes.trimmed (fun c => set c = true) s (Swift.trimmingCharacters set s).
Proof.
  unfold Classes.trimmed, Swift.trimmingCharacters.
  destruct (dropWhile_split set s) as (pre & Hpre & Hpre').
  destruct (dropWhileEnd_split (dropWhile set s)) as (post & Hpost & Hpost').
  exists pre, post. split; [|split; [|split; [|split]]].
  - rewrite <- Hpost. exact Hpre.
  - apply Forall_forall. intros c Hc. rewrite forallb_forall in Hpre'.
    apply Hpre', list_elem_of_In, Hc.
  - apply Forall_forall. intros c Hc. rewrite forallb_forall in Hpost'.
    apply Hpost', list_elem_of_In, Hc.
  - intros c r H. destruct (dropWhileEnd_first _ c r H) as [r' Hr'].
    pose proof (dropWhile_head set s) as Hhead. rewrite Hr' in Hhead.
    congruence.
  - intros k c H. rewrite (dropWhileEnd_last _ k c H). discriminate.
Qed.

Lemma count_padding (pre s post : jsstring) :
  forallb set pre = true -> forallb set post = true ->
  List.filter truthy (Swift.components set [] (pre ++ s ++ post))
  = List.filter truthy (Swift.components set [] s).
Proof.
  intros Hpre Hpost.
  induction pre as [|c pre IH].
  - simpl. clear Hpre. generalize (@nil N) as cur.
    induction s as [|c r IH]; intros cur.
    + simpl. induction post as [|c post IH]; [reflexivity|].
      simpl in *. apply andb_true_iff in Hpost as [Hc Hpost].
      rewrite Hc. simpl. destruct (rev cur) eqn:E; simpl.
      * clear IH. induction post as [|c' post IH]; [reflexivity|].
        simpl in *. apply andb_true_iff in Hpost as [Hc' Hpost].
        rewrite Hc'. simpl. exact (IH Hpost).
      * f_equal. clear IH E. induction post as [|c' post IH]; [reflexivity|].
        simpl in *. apply andb_true_iff in Hpost as [Hc' Hpost].
        rewrite Hc'. simpl. exact (IH Hpost).
    + simpl. destruct (set c).
      * simpl. rewrite (IH []). reflexivity.
      * apply IH.
  - simpl in *. apply andb_true_iff in Hpre as [Hc Hpre]. rewrite Hc.
    simpl. exact (IH Hpre).
Qed.

End Cores.

Section Classification.

Lemma trimmingCharacters_padding (set : N -> bool) (s : jsstring) :
  exists pre post,
    s = pre ++ Swift.trimmingCharacters set s ++ post
    /\ forallb set pre = true /\ forallb set post = true.
Proof.
  unfold Swift.trimmingCharacters.
  destruct (dropWhile_split set s) as (pre & Hpre & Hpre').
  destruct (dropWhileEnd_split set (dropWhile set s))
    as (post & Hpost & Hpost').
  exists pre, post. rewrite <- Hpost. auto.
Qed.

Lemma severalTokens_impl (P Q : N -> Prop) (s : list N) :
  (forall c, P c <-> Q c) ->
  Classes.severalTokens P s -> Classes.severalTokens Q s.
Proof.
  intros H (a & x & b & Hs & Hx & (ca & Hca & Hna) & (cb & Hcb & Hnb)).
  exists a, x, b. split; [exact Hs|]. split; [apply H; exact Hx|].
  split; [exists ca | exists cb]; (split; [assumption|]);
    intros HQ; [apply Hna | apply Hnb]; apply H; exact HQ.
Qed.

Lemma severalTokens_ext (P Q : N -> Prop) (s : list N) :
  (forall c, P c <-> Q c) ->
  Classes.severalTokens P s <-> Classes.severalTokens Q s.
Proof.
  intros H. split; apply severalTokens_impl; [exact H|].
  intros c. symmetry. apply H.
Qed.

(** The class of the web page, by the pieces of the text between single
    white space. *)
Lemma detectInputType_pieces (text : jsstring) :
  Dictionary.detectInputType text
  = if Dictionary.hasCJK text then Dictionary.Chinese
    else if (1 <? length (List.filter truthy
                            (Swift.components isWhitespace [] text)))%nat
         then Dictionary.Phrase
         else Dictionary.Word.
Proof.
  rewrite detectInputType_tokens. unfold Dictionary.tokens, splitWhitespace.
  rewrite splitRuns_components by discriminate.
  destruct (trimmingCharacters_padding isWhitespace text)
    as (pre & post & Htext & Hpre & Hpost).
  change (Swift.trimmingCharacters isWhitespace text) with (trim text)
    in Htext.
  rewrite <- (count_padding isWhitespace pre (trim text) post Hpre Hpost).
  rewrite <- Htext. reflexivity.
Qed.

End Classification.

(** C9. The classes, stated by the code units of the text alone. On the
    web page a text is Chinese exactly when one of its code units is in
    4e00-9fff, 3400-4dbf or f900-faff, whatever its tokens are; otherwise
    it is a phrase exactly when a white space stands between two code
    units that are not white space, that is when its trimmed form has
    more than one token, and a word in every other case. The iOS service
    classifies what is left of the text once the characters of
    [whitespacesAndNewlines] are trimmed from its ends: Chinese when a
    scalar is in 4E00-9FFF or 3400-4DBF, else a phrase when a character
    of [whitespaces] stands between two that are not. The two
    realisations of the one rule differ: on [a], a line feed, [b] the web
    page answers phrase and the service word, and on U+F900 the web page
    answers Chinese and the service word. *)
Theorem detectInputType_classifies :
  (forall text : jsstring,
     (Dictionary.detectInputType text = Dictionary.Chinese
      <-> exists c, In c text /\ Classes.cjk c)
     /\ (Dictionary.detectInputType text = Dictionary.Phrase
         <-> (forall c, In c text -> ~ Classes.cjk c)
             /\ Classes.severalTokens Classes.space text)
     /\ (Dictionary.detectInputType text = Dictionary.Word
         <-> (forall c, In c text -> ~ Classes.cjk c)
             /\ ~ Classes.severalTokens Classes.space text))
  /\ (forall (F : Swift.Foundation) (text : Swift.Text),
        exists core,
          Classes.trimmed (fun c => Swift.whitespacesAndNewlines F c = true)
                          text core
          /\ (Swift.detectInputType F text = Dictionary.Chinese
              <-> exists c, In c core /\ Classes.cjkOfService c)
          /\ (Swift.detectInputType F text = Dictionary.Phrase
              <-> (forall c, In c core -> ~ Classes.cjkOfService c)
                  /\ Classes.severalTokens
                       (fun c => Swift.whitespaces F c = true) core)
          /\ (Swift.detectInputType F text = Dictionary.Word
              <-> (forall c, In c core -> ~ Classes.cjkOfService c)
                  /\ ~ Classes.severalTokens
                         (fun c => Swift.whitespaces F c = true) core))
  /\ Dictionary.detectInputType [0x61; 0x0A; 0x62] = Dictionary.Phrase
  /\ Swift.detectInputType Sample.foundation [0x61; 0x0A; 0x62]
     = Dictionary.Word
  /\ Dictionary.detectInputType [0xF900] = Dictionary.Chinese
  /\ Swift.detectInputType Sample.foundation [0xF900] = Dictionary.Word.
Proof.
  split; [|split].
  - intros text. rewrite detectInputType_pieces.
    assert (Hcjk : Dictionary.hasCJK text = true
                   <-> exists c, In c text /\ Classes.cjk c).
    { unfold Dictionary.hasCJK. rewrite existsb_exists.
      split; intros (c & Hc & H); exists c; (split; [exact Hc|]);
        apply cjk_spec; exact H. }
    assert (Hnone : Dictionary.hasCJK text = false
                    <-> forall c, In c text -> ~ Classes.cjk c).
    { split.
      - intros E c Hc H.
        assert (Dictionary.hasCJK text = true) by (apply Hcjk; eauto).
        congruence.
      - intros H. apply not_true_is_false. intros E.
        apply Hcjk in E as (c & Hc & Hc'). exact (H c Hc Hc'). }
    pose proof (components_several isWhitespace text) as Hseveral.
    rewrite (severalTokens_ext _ Classes.space text space_spec)
      in Hseveral.
    destruct (Dictionary.hasCJK text).
    + split; [|split].
      * split; [intros _; apply Hcjk; reflexivity | reflexivity].
      * split; [discriminate|]. intros [H _]. apply Hnone in H.
        discriminate H.
      * split; [discriminate|]. intros [H _]. apply Hnone in H.
        discriminate H.
    + destruct (1 <? _)%nat.
      * split; [|split].
        -- split; [discriminate|]. intros H. apply Hcjk in H.
           discriminate H.
        -- split; [|reflexivity]. intros _.
           split; [apply Hnone; reflexivity | apply Hseveral; reflexivity].
        -- split; [discriminate|]. intros [_ H]. destruct H.
           apply Hseveral. reflexivity.
      * split; [|split].
        -- split; [discriminate|]. intros H. apply Hcjk in H.
           discriminate H.
        -- split; [discriminate|]. intros [_ H]. apply Hseveral in H.
           discriminate H.
        -- split; [|reflexivity]. intros _.
           split; [apply Hnone; reflexivity|]. intros H.
           apply Hseveral in H. discriminate H.
  - intros F text.
    exists (Swift.trimmingCharacters (Swift.whitespacesAndNewlines F) text).
    split; [apply trimmingCharacters_trimmed|].
    unfold Swift.detectInputType.
    set (core := Swift.trimmingCharacters (Swift.whitespacesAndNewlines F)
                   text).
    assert (Hcjk : existsb Swift.isCJK core = true
                   <-> exists c, In c core /\ Classes.cjkOfService c).
    { rewrite existsb_exists.
      split; intros (c & Hc & H); exists c; (split; [exact Hc|]);
        apply cjkOfService_spec; exact H. }
    assert (Hnone : existsb Swift.isCJK core = false
                    <-> forall c, In c core -> ~ Classes.cjkOfService c).
    { split.
      - intros E c Hc H.
        assert (existsb Swift.isCJK core = true) by (apply Hcjk; eauto).
        congruence.
      - intros H. apply not_true_is_false. intros E.
        apply Hcjk in E as (c & Hc & Hc'). exact (H c Hc Hc'). }
    pose proof (components_several (Swift.whitespaces F) core) as Hseveral.
    destruct (existsb Swift.isCJK core).
    + split; [|split].
      * split; [intros _; apply Hcjk; reflexivity | reflexivity].
      * split; [discriminate|]. intros [H _]. apply Hnone in H.
        discriminate H.
      * split; [discriminate|]. intros [H _]. apply Hnone in H.
        discriminate H.
    + destruct (1 <? _)%nat.
      * split; [|split].
        -- split; [discriminate|]. intros H. apply Hcjk in H.
           discriminate H.
        -- split; [|reflexivity]. intros _.
           split; [apply Hnone; reflexivity | apply Hseveral; reflexivity].
        -- split; [discriminate|]. intros [_ H]. destruct H.
           apply Hseveral. reflexivity.
      * split; [|split].
        -- split; [discriminate|]. intros H. apply Hcjk in H.
           discriminate H.
        -- split; [discriminate|]. intros [_ H]. apply Hseveral in H.
           discriminate H.
        -- split; [|reflexivity]. intros _.
           split; [apply Hnone; reflexivity|]. intros H.
           apply Hseveral in H. discriminate H.
  - repeat split.
Qed.

(** ** The object store *)

Section Store.

Import Storage.

Lemma keyed_empty : keyed ∅.
Proof. intros k e H. rewrite lookup_empty in H. discriminate. Qed.

Lemma keyed_insert (db : ObjectStore) (e : WordEntry) :
  keyed db -> keyed (<[word e := e]> db).
Proof.
  intros Hdb k e' H. apply lookup_insert_Some in H as [[<- <-] | [_ H]].
  - reflexivity.
  - exact (Hdb _ _ H).
Qed.

Lemma keyed_delete (db : ObjectStore) (k : jsstring) :
  keyed db -> keyed (delete k db).
Proof.
  intros Hdb k' e H. apply lookup_delete_Some in H as [_ H].
  exact (Hdb _ _ H).
Qed.

(** In a keyed store, searching all the records for a word is reading the
    store at that key. *)
Lemma find_keyed (db : ObjectStore) (k : jsstring) :
  keyed db ->
  find (fun e => eqb (word e) k) (map snd (map_to_list db)) = db !! k.
Proof.
  intros Hdb.
  destruct (find _ _) as [e|] eqn:F.
  - apply find_some in F as [Hin Heq]. apply eqb_eq in Heq.
    apply in_map_iff in Hin as [[k' e'] [He Hin]]. simpl in He. subst e'.
    apply list_elem_of_In, elem_of_map_to_list in Hin.
    rewrite <- Heq, (Hdb _ _ Hin). symmetry. exact Hin.
  - destruct (db !! k) as [e|] eqn:L; [|reflexivity]. exfalso.
    assert (Hin : In e (map snd (map_to_list db))).
    { apply in_map_iff. exists (k, e). split; [reflexivity|].
      apply list_elem_of_In, elem_of_map_to_list. exact L. }
    pose proof (find_none _ _ F _ Hin) as Hne. simpl in Hne.
    rewrite (Hdb _ _ L), eqb_refl in Hne. discriminate.
Qed.

End Store.

(** ** Saving a word *)

(** C10. Whatever the store holds, [saveWord] puts under the lower-cased
    word a record at level 0 with no review counted, added at the time of
    the call and due one day later: a record that was there under that key
    is replaced and its review progress is lost. *)
Theorem saveWord_resets_progress
  (now : Z) (wordData : Storage.WordData.t) (db : Storage.ObjectStore) :
  exists entry,
    Storage.saveWord now wordData db
    = (<[toLowerCase (Storage.WordData.word wordData) := entry]> db,
       Resolved tt)
    /\ fst (Storage.saveWord now wordData db)
         !! toLowerCase (Storage.WordData.word wordData) = Some entry
    /\ Storage.level entry = 0%Z
    /\ Storage.reviewCount entry = 0%Z
    /\ Storage.addedAt entry = now
    /\ Storage.nextReviewAt entry = Some (now + 24 * 60 * 60 * 1000)%Z.
Proof.
  eexists. split; [reflexivity|]. split; [|repeat split].
  unfold Storage.saveWord, Storage.put, modify. simpl.
  apply lookup_insert_eq.
Qed.

(** ** The review transition *)

Section Review.

Import Storage Ebbinghaus.

Lemma getNextReviewDate_days (now level : Z) :
  (0 <= level <= 6)%Z ->
  getNextReviewDate now level = Some (now + intervalDays level * DAY)%Z.
Proof.
  intros H.
  assert (level = 0 \/ level = 1 \/ level = 2 \/ level = 3 \/ level = 4
          \/ level = 5 \/ level = 6)%Z as Hl by lia.
  destruct Hl as [->|[->|[->|[->|[->|[->| ->]]]]]]; reflexivity.
Qed.

Lemma intervalDays_positive (level : Z) : (0 < intervalDays level * DAY)%Z.
Proof.
  unfold DAY, intervalDays.
  destruct level as [|p|p]; try lia.
  do 3 (destruct p; try lia).
Qed.

End Review.

(** C4. A review of a stored word at a level from 0 to 6 moves it to
    [min (level + 1) 6] when it was remembered and to 0 when it was not,
    counts one more review, records the time of the transition as the last
    review and sets the next review one interval of the new level later: 1,
    2, 4, 7, 15 or 30 days for the levels 0 to 5 and 60 days for level 6,
    hence strictly after the transition. *)
Theorem markAsReviewed_transition
  (now : Z) (w : jsstring) (remembered : bool)
  (db : Storage.ObjectStore) (entry : Storage.WordEntry) :
  Storage.keyed db ->
  db !! toLowerCase w = Some entry ->
  (0 <= Storage.level entry <= 6)%Z ->
  exists entry',
    Ebbinghaus.markAsReviewed now w remembered db
    = (<[toLowerCase w := entry']> db, Resolved (Some entry'))
    /\ Storage.level entry'
       = (if remembered then Z.min (Storage.level entry + 1) 6 else 0)%Z
    /\ Storage.reviewCount entry' = (Storage.reviewCount entry + 1)%Z
    /\ Storage.lastReviewedAt entry' = Some now
    /\ Storage.nextReviewAt entry'
       = Some (now + Ebbinghaus.intervalDays (Storage.level entry')
                     * Storage.DAY)%Z
    /\ (now < now + Ebbinghaus.intervalDays (Storage.level entry')
                    * Storage.DAY)%Z.
Proof.
  intros Hkeyed Hentry Hlevel.
  unfold Ebbinghaus.markAsReviewed, Storage.getAllWords, Storage.getAll.
  unfold mbind, async_bind, bind, gets.
  rewrite (find_keyed db _ Hkeyed), Hentry.
  unfold Storage.updateWord, Storage.get, Storage.put, mbind, async_bind,
    bind, gets, modify. rewrite Hentry.
  eexists. split.
  { unfold mret, async_ret, ret. rewrite <- (Hkeyed _ _ Hentry) at 1.
    reflexivity. }
  simpl. split; [reflexivity|]. split; [reflexivity|].
  split; [reflexivity|].
  assert (0 <= (if remembered
                then Z.min (Storage.level entry + 1) 6 else 0) <= 6)%Z
    as Hnew by (destruct remembered; lia).
  change (Z.of_nat 6) with 6%Z.
  split.
  - apply getNextReviewDate_days. exact Hnew.
  - pose proof (intervalDays_positive
                  (if remembered
                   then Z.min (Storage.level entry + 1) 6 else 0)%Z).
    lia.
Qed.

(** ** Import *)

Section ImportLoop.

Import Storage.

(** What holds of the store before a loop and is kept by its body, on
    the elements the loop meets, holds after it, however the loop ends. *)
Lemma forEach_preserves {A B : Type} (P : ObjectStore -> Prop)
  (Q : A -> Prop) (body : A -> B -> Db B) :
  (forall x acc db, Q x -> P db -> P (fst (body x acc db))) ->
  forall xs acc db, Forall Q xs -> P db -> P (fst (forEach body xs acc db)).
Proof.
  intros Hbody. induction xs as [|x r IH]; intros acc db Hxs Hdb; simpl.
  - exact Hdb.
  - apply Forall_cons in Hxs as [Hx Hr].
    unfold bind. pose proof (Hbody x acc db Hx Hdb) as H1.
    destruct (body x acc db) as [db1 [a|e]]; simpl in *.
    + apply IH; assumption.
    + exact H1.
Qed.

Lemma keyOf_word (entry : Backup.t) (w : jsstring) :
  whenTruthy (Backup.word entry) = Some w -> keyOf entry = toLowerCase w.
Proof.
  unfold keyOf, whenTruthy, orString.
  destruct (Backup.word entry) as [s|]; [|discriminate].
  destruct (truthy s); [|discriminate]. intros [= ->]. reflexivity.
Qed.

Lemma hasWord_word (entry : Backup.t) :
  hasWord entry -> exists w, whenTruthy (Backup.word entry) = Some w.
Proof.
  unfold hasWord. destruct (whenTruthy _) as [w|]; [eauto | congruence].
Qed.

Lemma importEntry_existing (now : Z) (entry : Backup.t)
  (count : ImportCount) (db : ObjectStore) (w : jsstring)
  (existing : WordEntry) :
  whenTruthy (Backup.word entry) = Some w ->
  db !! toLowerCase w = Some existing ->
  importEntry now entry count db
  = (db, Resolved {| imported := imported count;
                     skipped := skipped count + 1 |}).
Proof.
  intros Hw Hdb. unfold importEntry. rewrite Hw.
  unfold getWord, get, mbind, async_bind, bind, gets. rewrite Hdb.
  reflexivity.
Qed.

Lemma importEntry_new (now : Z) (entry : Backup.t) (count : ImportCount)
  (db : ObjectStore) (w : jsstring) :
  whenTruthy (Backup.word entry) = Some w ->
  db !! toLowerCase w = None ->
  importEntry now entry count db
  = (<[toLowerCase w := backupRecord now w entry]> db,
     Resolved {| imported := imported count + 1;
                 skipped := skipped count |}).
Proof.
  intros Hw Hdb. unfold importEntry. rewrite Hw.
  unfold getWord, get, mbind, async_bind, bind, gets. rewrite Hdb.
  reflexivity.
Qed.

Lemma importEntry_without_word (now : Z) (entry : Backup.t)
  (count : ImportCount) (db : ObjectStore) :
  whenTruthy (Backup.word entry) = None ->
  importEntry now entry count db = (db, Resolved count).
Proof. intros Hw. unfold importEntry. rewrite Hw. reflexivity. Qed.

(** On objects whose words are strings or falsy the loop runs the body
    for such an object on each. *)
Lemma forEach_entries (now : Z) (ws : list Backup.t) :
  forall (count : ImportCount) (db : ObjectStore),
    forEach (importElement now) (map Entry ws) count db
    = forEach (importEntry now) ws count db.
Proof.
  induction ws as [|x r IH]; intros count db; [reflexivity|].
  simpl. unfold bind.
  destruct (importEntry now x count db) as [db1 [c|e]];
    [apply IH | reflexivity].
Qed.

(** The record put for a backup record holds what the backup gives. *)
Lemma backupRecord_restored (now : Z) (entry : Backup.t) (w : jsstring) :
  whenTruthy (Backup.word entry) = Some w ->
  restored entry (backupRecord now w entry).
Proof.
  intros Hw. unfold restored, backupRecord. simpl.
  split; [symmetry; apply keyOf_word; exact Hw|].
  repeat split; intros x Hx; rewrite Hx; simpl.
  - unfold orString. destruct x; reflexivity.
  - reflexivity.
  - unfold orString. destruct x; reflexivity.
  - intros Hne. unfold orNumber.
    destruct (Z.eqb_spec x 0); [contradiction | reflexivity].
  - intros Hne. unfold orNumber.
    destruct (Z.eqb_spec x 0); [contradiction | reflexivity].
  - unfold orNumber. destruct (Z.eqb_spec x 0); congruence.
  - unfold orNumber. destruct (Z.eqb_spec x 0); congruence.
  - intros Hne. destruct (Z.eqb_spec x 0); [contradiction | reflexivity].
Qed.

Lemma overlaps_insert_ne (db : ObjectStore) (k : jsstring) (e : WordEntry)
  (entry : Backup.t) :
  keyOf entry <> k -> overlaps (<[k := e]> db) entry = overlaps db entry.
Proof.
  intros Hne. unfold overlaps. rewrite lookup_insert_ne by congruence.
  reflexivity.
Qed.

(** The loop of [importWords] on records with words and distinct keys. *)
Lemma forEach_importEntry (now : Z) (ws : list Backup.t) :
  forall (db : ObjectStore) (count : ImportCount),
    Forall hasWord ws ->
    NoDup (map keyOf ws) ->
    exists db',
      forEach (importEntry now) ws count db
      = (db',
         Resolved
           {| imported :=
                imported count + Z.of_nat (length ws)
                - Z.of_nat (length (List.filter (overlaps db) ws));
              skipped :=
                skipped count
                + Z.of_nat (length (List.filter (overlaps db) ws)) |})
      /\ (forall k e, db !! k = Some e -> db' !! k = Some e)
      /\ (forall entry, In entry ws -> overlaps db entry = false ->
            exists w, whenTruthy (Backup.word entry) = Some w
                      /\ db' !! keyOf entry
                         = Some (backupRecord now w entry))
      /\ (forall k, is_Some (db' !! k) ->
            is_Some (db !! k) \/ In k (map keyOf ws)).
Proof.
  induction ws as [|x r IH]; intros db count Hwords Hkeys.
  - exists db. simpl. unfold ret. split.
    + destruct count. simpl. f_equal. f_equal. f_equal; lia.
    + split; [auto|]. split; [intros ? []|]. auto.
  - apply Forall_cons in Hwords as [Hx Hr].
    simpl in Hkeys. apply NoDup_cons in Hkeys as [Hfresh Hkeys].
    destruct (hasWord_word x Hx) as [w Hw].
    pose proof (keyOf_word x w Hw) as Hkey.
    assert (Hother : forall y, In y r -> keyOf y <> keyOf x).
    { intros y Hy Heq. apply Hfresh. rewrite <- Heq.
      apply list_elem_of_In, in_map. exact Hy. }
    simpl forEach. unfold bind at 1.
    destruct (db !! toLowerCase w) as [existing|] eqn:Hdb.
    + rewrite (importEntry_existing now x count db w existing Hw Hdb).
      destruct (IH db {| imported := imported count;
                         skipped := skipped count + 1 |} Hr Hkeys)
        as (db' & Hrun & Hkept & Hnew & Hdom).
      exists db'. simpl List.filter.
      assert (overlaps db x = true) as Hov
          by (unfold overlaps; rewrite Hkey, Hdb; reflexivity).
      rewrite Hov. split.
      { rewrite Hrun. simpl. f_equal. f_equal. f_equal; lia. }
      split; [exact Hkept|]. split.
      * intros entry [<-|Hin] Hno; [congruence|]. apply Hnew; assumption.
      * intros k Hk. destruct (Hdom k Hk); [left|right; right]; assumption.
    + rewrite (importEntry_new now x count db w Hw Hdb).
      set (db1 := <[toLowerCase w := backupRecord now w x]> db).
      destruct (IH db1 {| imported := imported count + 1;
                          skipped := skipped count |} Hr Hkeys)
        as (db' & Hrun & Hkept & Hnew & Hdom).
      assert (Hsame : List.filter (overlaps db1) r
                      = List.filter (overlaps db) r).
      { apply filter_ext_in. intros y Hy. unfold db1.
        apply overlaps_insert_ne. rewrite <- Hkey. apply Hother. exact Hy. }
      exists db'. simpl List.filter.
      assert (overlaps db x = false) as Hov
          by (unfold overlaps; rewrite Hkey, Hdb; reflexivity).
      rewrite Hov. split.
      { rewrite Hrun, Hsame. simpl. f_equal. f_equal. f_equal; lia. }
      split.
      { intros k e Hk. apply Hkept. unfold db1.
        rewrite lookup_insert_ne; [exact Hk | congruence]. }
      split.
      * intros entry [<-|Hin] Hno.
        -- exists w. split; [exact Hw|]. apply Hkept. rewrite Hkey.
           unfold db1. apply lookup_insert_eq.
        -- apply Hnew; [exact Hin|]. unfold db1.
           rewrite overlaps_insert_ne; [exact Hno|].
           rewrite <- Hkey. apply Hother. exact Hin.
      * intros k Hk. destruct (Hdom k Hk) as [H1|H1].
        -- unfold db1 in H1. rewrite lookup_insert_is_Some in H1.
           destruct H1 as [<-|[_ H1]];
             [right; left; exact Hkey | left; exact H1].
        -- right; right; exact H1.
Qed.

(** A backup that holds records gets to the loop. *)
Lemma importWords_loop (now : Z) (data : BackupJson) (db : ObjectStore) :
  recordSet data <> [] ->
  importWords now (Some data) db
  = forEach (importElement now) (recordSet data)
            {| imported := 0; skipped := 0 |} db.
Proof.
  intros Hne. unfold importWords.
  destruct data as [ws|v e c [ws|b|]| |]; simpl in Hne; try congruence;
    destruct ws as [|x r]; try congruence; reflexivity.
Qed.

(** A backup of objects whose words are strings or falsy. *)
Lemma importWords_entries (now : Z) (data : BackupJson)
  (ws : list Backup.t) (db : ObjectStore) :
  recordSet data = map Entry ws ->
  ws <> [] ->
  importWords now (Some data) db
  = forEach (importEntry now) ws {| imported := 0; skipped := 0 |} db.
Proof.
  intros Hset Hne. rewrite importWords_loop.
  - rewrite Hset. apply forEach_entries.
  - rewrite Hset. destruct ws; [congruence | discriminate].
Qed.

End ImportLoop.

(** Without a record to import, [importWords] throws before it reads or
    writes the store. *)
Lemma importWords_without_records
  (now : Z) (parsed : option Storage.BackupJson) (db : Storage.ObjectStore) :
  match parsed with
  | Some data => Storage.recordSet data = []
  | None => True
  end ->
  exists e, Storage.importWords now parsed db = (db, Rejected e).
Proof.
  intros Hinvalid. unfold Storage.importWords.
  destruct parsed as [data|]; [|eexists; reflexivity].
  destruct data as [ws|v t c [ws|[|]|]| |]; simpl in Hinvalid;
    try subst ws; eexists; reflexivity.
Qed.



(** The record [importWords] stores has no [audioUrl] and none of the three
caches, whatever the backup record holds there. *)
Lemma backupRecord_leaves_out (now : Z) (w : jsstring)
  (entry : Storage.Backup.t) :
  Storage.audioUrl (Storage.backupRecord now w entry) = None
  /\ Storage.conjugationsData (Storage.backupRecord now w entry) = None
  /\ Storage.synonymsData (Storage.backupRecord now w entry) = None
  /\ Storage.antonymsData (Storage.backupRecord now w entry) = None.
Proof. repeat split. Qed.

(** C5, as the specification states it, fails: a backup record whose word
    is new to the store is not stored as it is given. The record with the
    word [Hello] is stored under [hello], so no stored record serialises
    back to it. *)
Lemma importWords_not_verbatim :
  ~ exists k e,
      fst (Storage.importWords 5000
             (Some (Storage.RawArray
                      [Storage.Entry (Sample.backupOf "Hello" 2)])) ∅)
        !! k = Some e
      /\ Storage.toBackup e = Sample.backupOf "Hello" 2.
Proof.
  intros (k & e & H & Hsame).
  change (fst _) with
    (<[u "hello" := Storage.backupRecord 5000 (u "Hello")
                      (Sample.backupOf "Hello" 2)]>
       (∅ : Storage.ObjectStore)) in H.
  apply lookup_insert_Some in H as [[_ <-] | [_ H]].
  - discriminate Hsame.
  - rewrite lookup_empty in H. discriminate.
Qed.

(** C5, amended. [importWords] takes the records of a backup one by one. A
    record whose lower-cased word the store already has is skipped: the
    store stays as it is and [skipped] grows by one. A record whose
    lower-cased word is new is stored under it, with the phonetic, meanings,
    translation, addedAt, nextReviewAt, reviewCount, level and
    lastReviewedAt the backup gives, and [imported] grows by one. Of a
    backup of records with words and distinct keys, the import returns the
    number of records whose key the store had as [skipped] and the number
    of the others as [imported], every record of the store being left as it
    was. *)
Theorem importWords_conflict_policy (now : Z) (db : Storage.ObjectStore) :
  (forall entry w count existing,
     Dictionary.whenTruthy (Storage.Backup.word entry) = Some w ->
     db !! toLowerCase w = Some existing ->
     Storage.importEntry now entry count db
     = (db, Resolved {| Storage.imported := Storage.imported count;
                        Storage.skipped := Storage.skipped count + 1 |}))
  /\ (forall entry w count,
        Dictionary.whenTruthy (Storage.Backup.word entry) = Some w ->
        db !! toLowerCase w = None ->
        exists e,
          Storage.importEntry now entry count db
          = (<[toLowerCase w := e]> db,
             Resolved {| Storage.imported := Storage.imported count + 1;
                         Storage.skipped := Storage.skipped count |})
          /\ Storage.restored entry e)
  /\ (forall data records,
        Storage.recordSet data = map Storage.Entry records ->
        records <> [] ->
        Forall Storage.hasWord records ->
        NoDup (map Storage.keyOf records) ->
        exists db',
          Storage.importWords now (Some data) db
          = (db',
             Resolved
               {| Storage.imported :=
                    Z.of_nat (length records)
                    - Z.of_nat (length (List.filter (Storage.overlaps db)
                                                    records));
                  Storage.skipped :=
                    Z.of_nat (length (List.filter (Storage.overlaps db)
                                                  records))
               |})
          /\ (forall k e, db !! k = Some e -> db' !! k = Some e)
          /\ (forall entry,
                In entry records ->
                Storage.overlaps db entry = false ->
                exists e, db' !! Storage.keyOf entry = Some e
                          /\ Storage.restored entry e)).
Proof.
  split; [|split].
  - intros entry w count existing Hw Hdb.
    exact (importEntry_existing now entry count db w existing Hw Hdb).
  - intros entry w count Hw Hdb. eexists. split.
    + exact (importEntry_new now entry count db w Hw Hdb).
    + apply backupRecord_restored. exact Hw.
  - intros data records Hset Hne Hwords Hkeys.
    rewrite (importWords_entries now data records db Hset Hne).
    destruct (forEach_importEntry now records db
                {| Storage.imported := 0; Storage.skipped := 0 |}
                Hwords Hkeys) as (db' & Hrun & Hkept & Hnew & _).
    exists db'. split; [exact Hrun|]. split; [exact Hkept|].
    intros entry Hin Hno.
    destruct (Hnew entry Hin Hno) as (w & Hw & Hstored).
    eexists. split; [exact Hstored|].
    apply backupRecord_restored. exact Hw.
Qed.

(** Ten records imported into a store that has three of their words:
    seven imported, three skipped. *)
Lemma importWords_conflict_policy_witness :
  exists db',
    Storage.importWords 5000 (Some Sample.tenWords) Sample.threeWords
    = (db', Resolved {| Storage.imported := 7; Storage.skipped := 3 |}).
Proof.
  destruct (proj2 (proj2 (importWords_conflict_policy 5000
                            Sample.threeWords)) Sample.tenWords
              (map (fun w => Sample.backupOf w 2)
                   ["apple"; "bird"; "cat"; "dog"; "egg"; "fish"; "goat";
                    "hat"; "ink"; "jam"]%string))
    as (db' & Hrun & _).
  - reflexivity.
  - discriminate.
  - repeat constructor; discriminate.
  - apply (bool_decide_unpack _). vm_compute. exact I.
  - exists db'. rewrite Hrun. vm_compute. reflexivity.
Defined.

(** ** Export and import, one after the other *)

Section RoundTrip.

Import Storage.






End RoundTrip.



Section SampleStores.

Import Storage.

Lemma oneWord_keyed : keyed Sample.oneWord.
Proof.
  unfold Sample.oneWord, saveWord, put, modify. simpl fst.
  match goal with |- keyed (<[_ := ?e]> _) => apply (keyed_insert ∅ e) end.
  exact keyed_empty.
Qed.

Lemma oneWord_lookup (k : jsstring) (e : WordEntry) :
  Sample.oneWord !! k = Some e ->
  k = u "run" /\ Sample.oneWord !! u "run" = Some e.
Proof.
  intros H. pose proof H as H'.
  unfold Sample.oneWord, saveWord, put, modify in H'. simpl fst in H'.
  apply lookup_insert_Some in H' as [[<- _] | [_ H']].
  - split; [reflexivity | exact H].
  - rewrite lookup_empty in H'. discriminate.
Qed.

Lemma oneWord_entry :
  exists e, Sample.oneWord !! u "run" = Some e
            /\ level e = 0%Z /\ wellFormed e.
Proof.
  eexists. split; [|split].
  - unfold Sample.oneWord, saveWord, put, modify. simpl fst.
    apply lookup_insert_eq.
  - reflexivity.
  - unfold wellFormed. simpl. repeat split; try discriminate.
    eexists. split; [reflexivity | discriminate].
Qed.


Lemma oneWord_not_empty : Sample.oneWord <> ∅.
Proof.
  unfold Sample.oneWord, saveWord, put, modify. simpl fst.
  apply insert_non_empty.
Qed.

End SampleStores.


Lemma markAsReviewed_transition_witness :
  exists entry',
    Ebbinghaus.markAsReviewed 5000 (u "Run") true Sample.oneWord
    = (<[toLowerCase (u "Run") := entry']> Sample.oneWord,
       Resolved (Some entry'))
    /\ Storage.level entry' = 1%Z
    /\ Storage.reviewCount entry' = 1%Z
    /\ Storage.lastReviewedAt entry' = Some 5000%Z
    /\ Storage.nextReviewAt entry' = Some (5000 + 2 * Storage.DAY)%Z.
Proof.
  destruct oneWord_entry as (e & He & Hlevel & _).
  destruct (markAsReviewed_transition 5000 (u "Run") true Sample.oneWord e)
    as (entry' & Hrun & Hl & Hcount & Hlast & Hnext & _).
  - exact oneWord_keyed.
  - exact He.
  - rewrite Hlevel. lia.
  - exists entry'. rewrite Hlevel in Hl. simpl in Hl.
    split; [exact Hrun|]. split; [exact Hl|].
    split.
    { rewrite Hcount.
      assert (Some e = Some e) as _ by reflexivity.
      pose proof He as He'.
      unfold Sample.oneWord, Storage.saveWord, Storage.put, modify in He'.
      simpl fst in He'. rewrite lookup_insert_eq in He'.
      injection He' as <-. reflexivity. }
    split; [exact Hlast|].
    rewrite Hnext, Hl. reflexivity.
Defined.

(** ** The levels of the store *)

Section Levels.

Import Storage Ebbinghaus History.

Lemma bounded_insert (db : ObjectStore) (k : jsstring) (e : WordEntry) :
  bounded db -> (0 <= level e <= 6)%Z -> bounded (<[k := e]> db).
Proof.
  intros Hdb He k' e' H. apply lookup_insert_Some in H as [[_ <-] | [_ H]].
  - exact He.
  - exact (Hdb _ _ H).
Qed.

Lemma saveWord_invariant (now : Z) (wordData : WordData.t)
  (db : ObjectStore) :
  keyed db /\ bounded db ->
  keyed (fst (saveWord now wordData db))
  /\ bounded (fst (saveWord now wordData db)).
Proof.
  intros [Hk Hb]. unfold saveWord, put, modify. simpl fst. split.
  - match goal with |- keyed (<[_ := ?e]> _) => apply (keyed_insert db e) end.
    exact Hk.
  - apply bounded_insert; [exact Hb | simpl; lia].
Qed.

Lemma markAsReviewed_invariant (now : Z) (w : jsstring)
  (remembered : bool) (db : ObjectStore) :
  keyed db /\ bounded db ->
  keyed (fst (markAsReviewed now w remembered db))
  /\ bounded (fst (markAsReviewed now w remembered db)).
Proof.
  intros [Hk Hb].
  unfold markAsReviewed, getAllWords, getAll, mbind, async_bind, bind, gets.
  rewrite (find_keyed db _ Hk).
  destruct (db !! toLowerCase w) as [entry|] eqn:Hentry;
    [|split; assumption].
  unfold updateWord, get, put, mbind, async_bind, bind, gets, modify.
  rewrite Hentry. simpl fst.
  pose proof (Hb _ _ Hentry) as Hlevel. split.
  - match goal with
    | |- keyed (<[_ := ?e]> _) => apply (keyed_insert db e)
    end. exact Hk.
  - apply bounded_insert; [exact Hb|]. simpl.
    destruct remembered; lia.
Qed.

Lemma importEntry_invariant (now : Z) (entry : Backup.t)
  (count : ImportCount) (db : ObjectStore) :
  (forall n, Backup.level entry = Some n -> (0 <= n <= 6)%Z) ->
  keyed db /\ bounded db ->
  keyed (fst (importEntry now entry count db))
  /\ bounded (fst (importEntry now entry count db)).
Proof.
  intros Hlevel [Hk Hb]. unfold importEntry.
  destruct (whenTruthy (Backup.word entry)) as [w|]; [|split; assumption].
  unfold getWord, get, put, mbind, async_bind, bind, gets, modify.
  destruct (db !! toLowerCase w); [split; assumption|].
  simpl fst. split.
  - apply (keyed_insert db (backupRecord now w entry)). exact Hk.
  - apply bounded_insert; [exact Hb|]. simpl. unfold orNumber.
    destruct (Backup.level entry) as [n|]; [|lia].
    specialize (Hlevel n eq_refl). destruct (n =? 0)%Z; lia.
Qed.

Lemma importElement_invariant (now : Z) (element : Element)
  (count : ImportCount) (db : ObjectStore) :
  (forall entry n, element = Entry entry ->
                   Backup.level entry = Some n -> (0 <= n <= 6)%Z) ->
  keyed db /\ bounded db ->
  keyed (fst (importElement now element count db))
  /\ bounded (fst (importElement now element count db)).
Proof.
  intros Hlevel Hdb. destruct element as [entry| | |]; try exact Hdb.
  apply importEntry_invariant; [|exact Hdb].
  intros n. apply Hlevel. reflexivity.
Qed.

Lemma importWords_invariant (now : Z) (parsed : option BackupJson)
  (db : ObjectStore) :
  levelsInRange parsed ->
  keyed db /\ bounded db ->
  keyed (fst (importWords now parsed db))
  /\ bounded (fst (importWords now parsed db)).
Proof.
  intros Hrange Hdb.
  destruct parsed as [data|].
  - destruct (recordSet data) as [|x r] eqn:Hset.
    + destruct (importWords_without_records now (Some data) db Hset)
        as [e ->]. exact Hdb.
    + rewrite (importWords_loop now data db) by (rewrite Hset; discriminate).
      apply (forEach_preserves (fun db => keyed db /\ bounded db)
               (fun element =>
                  forall entry n,
                    element = Entry entry ->
                    Backup.level entry = Some n -> (0 <= n <= 6)%Z)).
      * intros element acc db0. apply importElement_invariant.
      * exact Hrange.
      * exact Hdb.
  - destruct (importWords_without_records now None db I) as [e ->].
    exact Hdb.
Qed.

End Levels.

(** C8, as the specification states it, fails: [importWords] stores the
    level a backup gives without a check, so importing a record at level 7
    into the empty store leads to a store with a record above level 6. *)
Lemma import_breaks_level_bound :
  exists db k e,
    History.reachable db /\ db !! k = Some e
    /\ ~ (0 <= Storage.level e <= 6)%Z.
Proof.
  exists (fst (Storage.importWords 5000
                 (Some (Storage.RawArray
                          [Storage.Entry (Sample.backupOf "late" 7)])) ∅)),
    (u "late"),
    (Storage.backupRecord 5000 (u "late") (Sample.backupOf "late" 7)).
  split; [apply History.reachable_importWords, History.reachable_empty|].
  split.
  - change (fst _) with
      (<[u "late" := Storage.backupRecord 5000 (u "late")
                        (Sample.backupOf "late" 7)]>
         (∅ : Storage.ObjectStore)).
    apply lookup_insert_eq.
  - simpl. lia.
Qed.

(** C8, amended. In every store that [saveWord], the review transitions
    and the imports of backups whose levels are from 0 to 6 lead to from the
    empty store, every record is at a level from 0 to 6. *)
Theorem reachable_levels_bounded (db : Storage.ObjectStore) :
  History.reachableInRange db ->
  forall k e, db !! k = Some e -> (0 <= Storage.level e <= 6)%Z.
Proof.
  intros Hreach.
  enough (Storage.keyed db /\ History.bounded db) as [_ Hb] by exact Hb.
  induction Hreach as [|now wordData db _ IH|now w remembered db _ IH
                       |now parsed db Hrange _ IH].
  - split; [exact keyed_empty|].
    intros k e H. rewrite lookup_empty in H. discriminate.
  - apply saveWord_invariant. exact IH.
  - apply markAsReviewed_invariant. exact IH.
  - apply importWords_invariant; assumption.
Qed.

Lemma reachable_levels_bounded_witness :
  History.reachableInRange
    (fst (Ebbinghaus.markAsReviewed 5000 (u "Run") true Sample.oneWord))
  /\ forall k e,
       fst (Ebbinghaus.markAsReviewed 5000 (u "Run") true Sample.oneWord)
         !! k = Some e ->
       (0 <= Storage.level e <= 6)%Z.
Proof.
  assert (History.reachableInRange
            (fst (Ebbinghaus.markAsReviewed 5000 (u "Run") true
                    Sample.oneWord))) as H.
  { apply History.inRange_markAsReviewed.
    apply History.inRange_saveWord. exact History.inRange_empty. }
  split; [exact H|].
  exact (reachable_levels_bounded _ H).
Defined.

(** ** The lookups, one request at a time *)

Section Runs.

Import Dictionary.

Context (net : Network).

(** A computation that resolves hands its value to what follows. *)
Lemma bind_run {S A B} (m : Async S A) (k : A -> Async S B)
  (s s' : S) (a : A) :
  m s = (s', Resolved a) -> (m ≫= k) s = k a s'.
Proof. intros H. unfold mbind, async_bind, bind. rewrite H. reflexivity. Qed.

(** Case analysis on the conditions and on the parts of the answer that
    the goal branches on. *)
Ltac cases :=
  repeat (simpl;
          match goal with
          | |- context [if ?b then _ else _] => destruct b eqn:?
          | |- context [match ?x with _ => _ end] => is_var x; destruct x
          | |- context [match ?f ?x with _ => _ end] =>
              is_var x; destruct (f x) eqn:?
          end);
  simpl; try reflexivity.

Lemma lookupFreeDictionary_run (w : jsstring) (log : list Call) :
  lookupFreeDictionary net w log
  = (log ++ freeDictionaryCalls w, Resolved (freeDictionaryAnswer net w)).
Proof.
  unfold freeDictionaryAnswer, freeDictionaryCalls, answerOf,
    lookupFreeDictionary, encodeURIComponent, tryCatch,
    mbind, async_bind, bind, fetch, json, ok, mret, async_ret, ret, throw.
  destruct (isWellFormed (toLowerCase (trim w)));
    [|rewrite app_nil_r; reflexivity].
  destruct (freeDictionaryApi net (toLowerCase (trim w)))
    as [|st [data|]]; cases.
Qed.

Lemma lookupWiktionary_run (text : jsstring) (log : list Call) :
  lookupWiktionary net text log
  = (log ++ wiktionaryCalls text, Resolved (wiktionaryAnswer net text)).
Proof.
  unfold wiktionaryAnswer, wiktionaryCalls, answerOf, lookupWiktionary,
    encodeURIComponent, tryCatch,
    mbind, async_bind, bind, fetch, json, ok, mret, async_ret, ret, throw.
  destruct (isWellFormed _); [|rewrite app_nil_r; reflexivity].
  destruct (wiktionaryApi net _) as [|st [data|]]; cases.
Qed.

Lemma translateText_run (text langPair : jsstring) (log : list Call) :
  translateText net text langPair log
  = (log ++ translationCalls text langPair,
     Resolved (translationAnswer net text langPair)).
Proof.
  unfold translationAnswer, translationCalls, answerOf, translateText,
    encodeURIComponent, tryCatch,
    mbind, async_bind, bind, fetch, json, ok, mret, async_ret, ret, throw.
  destruct (isWellFormed text); [|rewrite app_nil_r; reflexivity].
  destruct (isWellFormed langPair); [|rewrite app_nil_r; reflexivity].
  destruct (translationApi net text langPair) as [|st [data|]]; cases.
Qed.

Lemma translateWithDeepSeek_run (text : jsstring) (log : list Call) :
  translateWithDeepSeek net text log
  = (log ++ llmCalls net text, Resolved (llmAnswer net text)).
Proof.
  unfold llmCalls, llmAnswer, answerOf, translateWithDeepSeek, tryCatch,
    callGeminiApi, callOpenAICompatibleApi,
    mbind, async_bind, bind, fetch, json, ok, mret, async_ret, ret, throw.
  destruct (whenTruthy (llm_api_key net)) as [apiKey|];
    [|simpl; rewrite app_nil_r; reflexivity].
  destruct (eqb _ _).
  - destruct (geminiApi net _ _ _) as [|st [data|]]; cases.
  - destruct (deepseekApi net _ _ _) as [|st [data|]]; cases.
Qed.

(** A translation that [translateText] resolves to is a string that is
    not empty. *)
Lemma translationAnswer_truthy (text langPair : jsstring) :
  whenTruthy (translationAnswer net text langPair)
  = translationAnswer net text langPair.
Proof.
  unfold translationAnswer, answerOf, translateText, encodeURIComponent,
    tryCatch,
    mbind, async_bind, bind, fetch, json, ok, mret, async_ret, ret, throw.
  destruct (isWellFormed text); [|reflexivity].
  destruct (isWellFormed langPair); [|reflexivity].
  destruct (translationApi net text langPair) as [|st [data|]]; cases.
  all: discriminate.
Qed.

(** So is a translation of the language model. *)
Lemma llmAnswer_truthy (text : jsstring) :
  whenTruthy (llmAnswer net text) = llmAnswer net text.
Proof.
  assert (Hchat : forall data,
            whenTruthy (chatText data) = chatText data).
  { intros data. unfold chatText. destruct (chat_content data); simpl;
      [|reflexivity].
    destruct (truthy (trim l)) eqn:E; simpl; [rewrite E|]; reflexivity. }
  unfold llmAnswer, answerOf, translateWithDeepSeek, tryCatch,
    callGeminiApi, callOpenAICompatibleApi,
    mbind, async_bind, bind, fetch, json, ok, mret, async_ret, ret, throw.
  destruct (whenTruthy (llm_api_key net)) as [apiKey|]; [|reflexivity].
  destruct (eqb _ _).
  - destruct (geminiApi net _ _ _) as [|st [data|]]; cases; apply Hchat.
  - destruct (deepseekApi net _ _ _) as [|st [data|]]; cases; apply Hchat.
Qed.

Lemma translateWord_run (text : jsstring) (log : list Call) :
  translateWord net text log
  = (log ++ translationCalls text (u "en|zh-CN"),
     Resolved (fetchedTranslation net text)).
Proof.
  unfold translateWord.
  rewrite (bind_run _ _ _ _ _ (translateText_run _ _ log)). reflexivity.
Qed.

(** [mapAsync] of a function that always resolves. *)
Lemma mapAsync_run {A B} (f : A -> Lookup B) (calls : A -> list Call)
  (g : A -> B) :
  (forall x log, f x log = (log ++ calls x, Resolved (g x))) ->
  forall xs log,
    mapAsync f xs log = (log ++ flat_map calls xs, Resolved (map g xs)).
Proof.
  intros Hf. induction xs as [|x r IH]; intros log; simpl.
  - unfold ret. rewrite app_nil_r. reflexivity.
  - unfold bind. rewrite Hf, IH. unfold ret. rewrite app_assoc.
    reflexivity.
Qed.

Lemma translateDefinitions_run (meanings : list Meaning) (log : list Call) :
  translateDefinitions net meanings log
  = (log ++ definitionCalls meanings,
     Resolved (map (translatedMeaning net) meanings)).
Proof.
  unfold translateDefinitions, definitionCalls.
  apply mapAsync_run. clear log. intros m log.
  unfold translateMeaning.
  erewrite bind_run; [reflexivity|].
  apply (mapAsync_run (translateDefinition net)
           (fun d => translationCalls (definition d) (u "en|zh-CN"))
           (translatedDefinition net)).
  intros d log'. unfold translateDefinition.
  rewrite (bind_run _ _ _ _ _ (translateText_run _ _ log')). reflexivity.
Qed.

End Runs.

(** ** The waterfall *)

Section Tiers.

Import Dictionary Waterfall.

Context (net : Network).

(** One step of a lookup: the computation at the head, which [H] tells
    the run of, hands its value on. *)
Ltac run H := rewrite (bind_run _ _ _ _ _ H).

Lemma handleWordLookup_run (q : jsstring) (log : list Call) :
  handleWordLookup net q log
  = (log ++ requests net q
              (fst (waterfall net q (fetchedTranslation net q) wordTiers))
              (snd (waterfall net q (fetchedTranslation net q) wordTiers)),
     Resolved
       (resultOf net Word (fetchedTranslation net q)
          (snd (waterfall net q (fetchedTranslation net q) wordTiers)))).
Proof.
  unfold handleWordLookup, requests, resultOf.
  run (lookupFreeDictionary_run net q log).
  run (translateWord_run net q (log ++ tierCalls net q PrimaryDictionary)).
  unfold wordTiers, waterfall, tierAnswer.
  destruct (freeDictionaryAnswer net q) as [d|]; simpl.
  { run (translateDefinitions_run net (meanings d)
           ((log ++ tierCalls net q PrimaryDictionary)
              ++ translationCalls q (u "en|zh-CN"))).
    rewrite <- !app_assoc; simpl; rewrite ?app_nil_r; reflexivity. }
  run (lookupWiktionary_run net q
         ((log ++ tierCalls net q PrimaryDictionary)
            ++ translationCalls q (u "en|zh-CN"))).
  destruct (wiktionaryAnswer net q) as [d|]; simpl.
  { run (translateDefinitions_run net (meanings d)
           (((log ++ tierCalls net q PrimaryDictionary)
               ++ translationCalls q (u "en|zh-CN"))
              ++ tierCalls net q SecondaryDictionary)).
    rewrite <- !app_assoc; simpl; rewrite ?app_nil_r; reflexivity. }
  destruct (isTranslation (fetchedTranslation net q)); simpl.
  { rewrite <- !app_assoc; simpl; rewrite ?app_nil_r; reflexivity. }
  run (translateWithDeepSeek_run net q
         (((log ++ tierCalls net q PrimaryDictionary)
             ++ translationCalls q (u "en|zh-CN"))
            ++ tierCalls net q SecondaryDictionary)).
  destruct (whenTruthy (llmAnswer net q)) as [r|]; simpl;
    rewrite <- !app_assoc; simpl; rewrite ?app_nil_r; reflexivity.
Qed.

Lemma handlePhraseLookup_run (q : jsstring) (log : list Call) :
  handlePhraseLookup net q log
  = (log ++ requests net q
              (fst (waterfall net q (fetchedTranslation net q) phraseTiers))
              (snd (waterfall net q (fetchedTranslation net q) phraseTiers)),
     Resolved
       (resultOf net Phrase (fetchedTranslation net q)
          (snd (waterfall net q (fetchedTranslation net q) phraseTiers)))).
Proof.
  unfold handlePhraseLookup, requests, resultOf.
  run (lookupWiktionary_run net q log).
  run (translateWord_run net q (log ++ tierCalls net q SecondaryDictionary)).
  unfold phraseTiers, waterfall, tierAnswer.
  destruct (wiktionaryAnswer net q) as [d|]; simpl.
  { run (translateDefinitions_run net (meanings d)
           ((log ++ tierCalls net q SecondaryDictionary)
              ++ translationCalls q (u "en|zh-CN"))).
    rewrite <- !app_assoc; simpl; rewrite ?app_nil_r; reflexivity. }
  run (lookupFreeDictionary_run net q
         ((log ++ tierCalls net q SecondaryDictionary)
            ++ translationCalls q (u "en|zh-CN"))).
  destruct (freeDictionaryAnswer net q) as [d|]; simpl.
  { run (translateDefinitions_run net (meanings d)
           (((log ++ tierCalls net q SecondaryDictionary)
               ++ translationCalls q (u "en|zh-CN"))
              ++ tierCalls net q PrimaryDictionary)).
    rewrite <- !app_assoc; simpl; rewrite ?app_nil_r; reflexivity. }
  destruct (isTranslation (fetchedTranslation net q)); simpl.
  { rewrite <- !app_assoc; simpl; rewrite ?app_nil_r; reflexivity. }
  run (translateWithDeepSeek_run net q
         (((log ++ tierCalls net q SecondaryDictionary)
             ++ translationCalls q (u "en|zh-CN"))
            ++ tierCalls net q PrimaryDictionary)).
  destruct (whenTruthy (llmAnswer net q)) as [r|]; simpl;
    rewrite <- !app_assoc; simpl; rewrite ?app_nil_r; reflexivity.
Qed.

End Tiers.

Section ChineseLookup.

Import Dictionary.

Context (net : Network).

Lemma whenTruthy_Some (x : option jsstring) (e : jsstring) :
  whenTruthy x = Some e -> whenTruthy (Some e) = Some e.
Proof.
  destruct x as [s|]; simpl; [|discriminate].
  destruct (truthy s) eqn:E; [|discriminate].
  intros [= <-]. rewrite E. reflexivity.
Qed.

Lemma handleChineseLookup_run (chineseText : jsstring) (log : list Call) :
  handleChineseLookup net chineseText log
  = (log ++ chineseRequests net chineseText,
     Resolved (chineseResult net chineseText)).
Proof.
  unfold handleChineseLookup, translateChineseToEnglish, chineseRequests,
    chineseResult, chineseTranslation, chineseTranslationCalls.
  rewrite (bind_run _ _ _ _ _ (translateText_run net _ _ log)).
  assert (Hlookup : forall english log',
    (fromFreeDictionary ← lookupFreeDictionary net (englishWordOf english);
     dictData ← match fromFreeDictionary with
                | Some d => mret (Some d)
                | None => lookupWiktionary net (englishWordOf english)
                end;
     mret {| dictData :=
               Some match dictData with
                    | Some d => withChineseWord d chineseText
                    | None => createTranslationOnlyResult chineseText
                    end;
             translation := english;
             inputType := Chinese |}) log'
    = (log' ++ dictionaryCalls net (englishWordOf english),
       Resolved
         {| dictData :=
              Some match dictionaryAnswer net (englishWordOf english) with
                   | Some d => withChineseWord d chineseText
                   | None => createTranslationOnlyResult chineseText
                   end;
            translation := english;
            inputType := Chinese |})).
  { intros english log'. unfold dictionaryCalls, dictionaryAnswer.
    rewrite (bind_run _ _ _ _ _ (lookupFreeDictionary_run net _ log')).
    destruct (freeDictionaryAnswer net (englishWordOf english)) as [d|].
    - rewrite app_nil_r. reflexivity.
    - rewrite (bind_run _ _ _ _ _ (lookupWiktionary_run net _ _)).
      unfold mret, async_ret, ret. rewrite <- app_assoc. reflexivity. }
  destruct (whenTruthy (translationAnswer net chineseText (u "zh-CN|en")))
    as [e|] eqn:Hfirst.
  - unfold mbind at 1, async_bind, bind, mret at 1, async_ret, ret.
    rewrite (whenTruthy_Some _ _ Hfirst), Hlookup, <- app_assoc.
    rewrite app_nil_r. reflexivity.
  - rewrite (bind_run _ _ _ _ _ (translateWithDeepSeek_run net _ _)).
    destruct (whenTruthy (llmAnswer net chineseText)) as [e|].
    + rewrite Hlookup, <- !app_assoc. reflexivity.
    + unfold mret, async_ret, ret. rewrite <- !app_assoc, app_nil_r.
      reflexivity.
Qed.

End ChineseLookup.

(** ** The resolver *)

Section Resolver.

Import Dictionary Waterfall.

Lemma lookupWord_dispatch (net : Network) (text : jsstring) :
  lookupWord net text
  = match detectInputType text with
    | Chinese => handleChineseLookup net (trim text)
    | Phrase => handlePhraseLookup net (trim text)
    | Word => handleWordLookup net (trim text)
    end.
Proof. reflexivity. Qed.

(** Filling in the translations of the definitions changes nothing
    else. *)
Lemma annotated_only_translationZh (net : Network) (d : DictData) :
  withoutTranslationZh (annotated net d) = withoutTranslationZh d.
Proof.
  unfold withoutTranslationZh, annotated, withMeanings. simpl. f_equal.
  rewrite map_map. apply map_ext. intros m. simpl. f_equal.
  rewrite map_map. reflexivity.
Qed.

(** The lookup of a word or a phrase is the waterfall over the tiers of
    its class. *)
Lemma lookupWord_run (net : Network) (text : jsstring) (log : list Call) :
  detectInputType text <> Chinese ->
  lookupWord net text log
  = (log ++ requests net (trim text)
              (fst (waterfall net (trim text)
                      (fetchedTranslation net (trim text))
                      (tiersOf (detectInputType text))))
              (snd (waterfall net (trim text)
                      (fetchedTranslation net (trim text))
                      (tiersOf (detectInputType text)))),
     Resolved
       (resultOf net (detectInputType text)
          (fetchedTranslation net (trim text))
          (snd (waterfall net (trim text)
                  (fetchedTranslation net (trim text))
                  (tiersOf (detectInputType text)))))).
Proof.
  intros Hclass. rewrite lookupWord_dispatch.
  destruct (detectInputType text); [| |congruence].
  - apply handleWordLookup_run.
  - apply handlePhraseLookup_run.
Qed.

(** When the third tier misses, the translation fetched with the first
    tier is the literal that stands for a missing one. *)
Lemma fetched_unavailable (net : Network) (q : jsstring) :
  isTranslation (fetchedTranslation net q) = false ->
  fetchedTranslation net q = translationUnavailable.
Proof.
  unfold fetchedTranslation, isTranslation, orString.
  pose proof (translationAnswer_truthy net q (u "en|zh-CN")) as Htruthy.
  destruct (translationAnswer net q (u "en|zh-CN")) as [t|];
    [|reflexivity].
  simpl in Htruthy. destruct (truthy t) eqn:Ht; [|discriminate].
  rewrite Ht. simpl. intros H. apply negb_false_iff, eqb_eq in H. exact H.
Qed.

(** A waterfall without an answer: every tier of the list missed. *)
Lemma waterfall_exhausted (net : Network) (q : jsstring)
  (t : InputType) :
  snd (waterfall net q (fetchedTranslation net q) (tiersOf t)) = None ->
  fetchedTranslation net q = translationUnavailable.
Proof.
  intros H. apply fetched_unavailable.
  destruct (isTranslation (fetchedTranslation net q)) eqn:E;
    [|reflexivity].
  exfalso. revert H.
  destruct t; unfold tiersOf, wordTiers, phraseTiers, waterfall,
    tierAnswer; rewrite E;
    destruct (freeDictionaryAnswer net q), (wiktionaryAnswer net q);
    simpl; discriminate.
Qed.

End Resolver.

(** C1, as the specification states it, fails: the record of the tier that
    wins is not returned as the tier gave it. The Free Dictionary answers
    the word [run] with a record whose definition has no translation; the
    record of the result has that definition with a translation filled
    in. *)
Lemma lookupWord_modifies_record :
  exists d r,
    snd (Dictionary.lookupFreeDictionary Sample.network (u "run") [])
    = Resolved (Some d)
    /\ snd (Dictionary.lookupWord Sample.network (u "run") []) = Resolved r
    /\ Dictionary.dictData r <> Some d.
Proof.
  eexists. eexists. split; [vm_compute; reflexivity|].
  split; [vm_compute; reflexivity|].
  simpl. discriminate.
Qed.

(** C1, amended. A word is looked up in the tiers PrimaryDictionary,
    SecondaryDictionary, TranslationOnly, LLMFallback and a phrase in
    SecondaryDictionary, PrimaryDictionary, TranslationOnly, LLMFallback: a
    tier is tried only when every tier before it has missed, and the first
    record a tier gives is the record of the result, changed in nothing but
    the translations that are filled into its definitions. The requests go
    out in that order, but for the translation of the query, which is asked
    for right after the first tier's request and stands for the third
    tier. *)
Theorem lookupWord_waterfall (net : Dictionary.Network) (text : jsstring) :
  Dictionary.detectInputType text <> Dictionary.Chinese ->
  Waterfall.tiersOf Dictionary.Word
  = [Waterfall.PrimaryDictionary; Waterfall.SecondaryDictionary;
     Waterfall.TranslationOnly; Waterfall.LLMFallback]
  /\ Waterfall.tiersOf Dictionary.Phrase
     = [Waterfall.SecondaryDictionary; Waterfall.PrimaryDictionary;
        Waterfall.TranslationOnly; Waterfall.LLMFallback]
  /\ (exists tried answer,
        Waterfall.waterfall net (trim text)
          (Dictionary.fetchedTranslation net (trim text))
          (Waterfall.tiersOf (Dictionary.detectInputType text))
        = (tried, answer)
        /\ Dictionary.lookupWord net text []
           = (Waterfall.requests net (trim text) tried answer,
              Resolved
                (Waterfall.resultOf net (Dictionary.detectInputType text)
                   (Dictionary.fetchedTranslation net (trim text)) answer)))
  /\ (forall d,
        Dictionary.withoutTranslationZh (Dictionary.annotated net d)
        = Dictionary.withoutTranslationZh d).
Proof.
  intros Hclass. split; [reflexivity|]. split; [reflexivity|]. split.
  - destruct (Waterfall.waterfall net (trim text)
                (Dictionary.fetchedTranslation net (trim text))
                (Waterfall.tiersOf (Dictionary.detectInputType text)))
      as [tried answer] eqn:Hw.
    exists tried, answer. split; [reflexivity|].
    rewrite (lookupWord_run net text [] Hclass), Hw. reflexivity.
  - apply annotated_only_translationZh.
Qed.

Lemma lookupWord_waterfall_witness :
  Dictionary.detectInputType (u "run") <> Dictionary.Chinese
  /\ exists tried answer,
       Waterfall.waterfall Sample.network (trim (u "run"))
         (Dictionary.fetchedTranslation Sample.network (trim (u "run")))
         (Waterfall.tiersOf (Dictionary.detectInputType (u "run")))
       = (tried, answer)
       /\ Dictionary.lookupWord Sample.network (u "run") []
          = (Waterfall.requests Sample.network (trim (u "run")) tried answer,
             Resolved
               (Waterfall.resultOf Sample.network
                  (Dictionary.detectInputType (u "run"))
                  (Dictionary.fetchedTranslation Sample.network
                     (trim (u "run")))
                  answer)).
Proof.
  assert (Dictionary.detectInputType (u "run") <> Dictionary.Chinese) as H
      by (vm_compute; discriminate).
  split; [exact H|].
  exact (proj1 (proj2 (proj2
           (lookupWord_waterfall Sample.network (u "run") H)))).
Defined.

(** ** The bridge from a Chinese text to an English key *)

Section Bridge.





Section Swift.

Context (F : Swift.Foundation) (net : Swift.Session) (now : Z).





End Swift.

End Bridge.

(** C2, as the specification states it, fails: the key of the record is not
    the English lemma, and the lemma is not looked up in the tier list of a
    word. After the search of the Chinese for hello, whose translation is
    [Hello.], the record is saved under the Chinese text and nothing is
    saved under [hello]; the record has its definition as the dictionary
    gave it, and the translation of [hello], which the lookup of the word
    [hello] asks for, is never asked for. On iOS too the word of the record
    is the Chinese text. *)
Lemma chinese_record_under_chinese_text :
  (exists w' d,
     Main.handleSearch Sample.network 1000 Sample.nihao
       {| Main.store := ∅;
          Main.requests := [];
          Main.currentSaveKey := None |}
     = (w', Resolved (Main.Found d (u "Hello.") false Dictionary.Chinese))
     /\ Dictionary.word d = Some Sample.nihao
     /\ Dictionary.originalWord d = Some (u "hello")
     /\ is_Some (Main.store w' !! Sample.nihao)
     /\ Main.store w' !! u "hello" = None)
  /\ In (Dictionary.GetTranslation (u "hello") (u "en|zh-CN"))
        (fst (Dictionary.lookupWord Sample.network (u "hello") []))
  /\ ~ In (Dictionary.GetTranslation (u "hello") (u "en|zh-CN"))
          (fst (Dictionary.lookupWord Sample.network Sample.nihao []))
  /\ (exists r entry,
        Swift.handleChineseLookup Sample.foundation Sample.session 0
          Sample.nihao []
        = ([Dictionary.GetTranslation Sample.nihao (u "zh|en");
            Dictionary.GetFreeDictionary (u "hello")], Resolved r)
        /\ Swift.dictData r = Some entry
        /\ Swift.word entry = Sample.nihao).
Proof.
  split; [|split; [|split]].
  - eexists. eexists. split; [vm_compute; reflexivity|].
    split; [reflexivity|]. split; [reflexivity|].
    split; [vm_compute; eauto | vm_compute; reflexivity].
  - vm_compute. tauto.
  - vm_compute. intros [H|[H|[]]]; discriminate H.
  - eexists. eexists. split; [vm_compute; reflexivity|].
    split; reflexivity.
Qed.



(** C3, as the specification states it, fails for Chinese inputs: when no
    request succeeds, the lookup of a Chinese text returns a
    translation-only record, not [null]. *)
Lemma lookupWord_chinese_placeholder :
  Waterfall.exhausted Sample.deadNetwork Sample.nihao
  /\ exists r,
       snd (Dictionary.lookupWord Sample.deadNetwork Sample.nihao [])
       = Resolved r
       /\ Dictionary.dictData r <> None
       /\ Waterfall.sourceOf r = Some (u "translation-only").
Proof.
  split; [vm_compute; reflexivity|].
  eexists. split; [vm_compute; reflexivity|].
  split; [discriminate | reflexivity].
Qed.

(** C3, amended. A lookup never rejects. When every tier misses, the lookup
    of a word or a phrase returns no record, hence no source, with the
    literal that stands for a missing translation as its translation; the
    lookup of a Chinese text for which no English translation is got
    returns the translation-only record of the text, with the text itself
    as its translation. *)
Theorem lookupWord_exhausted (net : Dictionary.Network) (text : jsstring) :
  exists log r,
    Dictionary.lookupWord net text [] = (log, Resolved r)
    /\ (Waterfall.exhausted net text ->
        match Dictionary.detectInputType text with
        | Dictionary.Chinese =>
            Dictionary.dictData r
            = Some (Dictionary.createTranslationOnlyResult (trim text))
            /\ Dictionary.translation r = trim text
        | _ =>
            Dictionary.dictData r = None
            /\ Waterfall.sourceOf r = None
            /\ Dictionary.translation r = Dictionary.translationUnavailable
        end).
Proof.
  destruct (Dictionary.detectInputType text) eqn:Hclass.
  - eexists. eexists. split.
    + apply lookupWord_run. rewrite Hclass. discriminate.
    + unfold Waterfall.exhausted. rewrite Hclass. intros H.
      rewrite H. simpl. split; [reflexivity|]. split; [reflexivity|].
      exact (waterfall_exhausted net (trim text) Dictionary.Word H).
  - eexists. eexists. split.
    + apply lookupWord_run. rewrite Hclass. discriminate.
    + unfold Waterfall.exhausted. rewrite Hclass. intros H.
      rewrite H. simpl. split; [reflexivity|]. split; [reflexivity|].
      exact (waterfall_exhausted net (trim text) Dictionary.Phrase H).
  - eexists. eexists. split.
    + rewrite lookupWord_dispatch, Hclass. apply handleChineseLookup_run.
    + unfold Waterfall.exhausted. rewrite Hclass. intros H.
      unfold Dictionary.chineseResult. rewrite H. split; reflexivity.
Qed.

Lemma lookupWord_exhausted_witness :
  Waterfall.exhausted Sample.deadNetwork (u "run")
  /\ exists log r,
       Dictionary.lookupWord Sample.deadNetwork (u "run") []
       = (log, Resolved r)
       /\ Dictionary.dictData r = None
       /\ Waterfall.sourceOf r = None
       /\ Dictionary.translation r = Dictionary.translationUnavailable.
Proof.
  assert (Waterfall.exhausted Sample.deadNetwork (u "run")) as H
      by (vm_compute; reflexivity).
  split; [exact H|].
  destruct (lookupWord_exhausted Sample.deadNetwork (u "run"))
    as (log & r & Hrun & Hmiss).
  exists log, r. split; [exact Hrun|]. exact (Hmiss H).
Defined.

(** * More of the code *)

(** ** The store, one operation after another *)

Section StoreOperations.

Import Storage.

Lemma lowerUnit_idempotent (c : N) : lowerUnit (lowerUnit c) = lowerUnit c.
Proof.
  unfold lowerUnit.
  destruct ((0x41 <=? c) && (c <=? 0x5A)) eqn:E; [|rewrite E; reflexivity].
  apply andb_true_iff in E as [H1 H2].
  apply N.leb_le in H1, H2.
  destruct ((0x41 <=? c + 32) && (c + 32 <=? 0x5A)) eqn:E'; [|reflexivity].
  apply andb_true_iff in E' as [_ H3]. apply N.leb_le in H3. lia.
Qed.

Lemma toLowerCase_idempotent (s : jsstring) :
  toLowerCase (toLowerCase s) = toLowerCase s.
Proof.
  unfold toLowerCase. rewrite map_map. apply map_ext.
  exact lowerUnit_idempotent.
Qed.


Lemma lookup_delete_eqb (db : ObjectStore) (k k' : jsstring) :
  delete k db !! k' = if eqb k' k then None else db !! k'.
Proof.
  destruct (eqb k' k) eqn:E.
  - apply eqb_eq in E as ->. apply lookup_delete_eq.
  - apply eqb_neq in E. apply lookup_delete_ne. congruence.
Qed.

End StoreOperations.


(** X2. After [deleteWord], [getWord] finds nothing under any spelling of
    the deleted word and finds under every other word what it found
    before; deleting a word the store does not have changes nothing. *)
Theorem deleteWord_then_getWord (w : jsstring) (db : Storage.ObjectStore) :
  (forall w',
     snd (Storage.getWord w' (fst (Storage.deleteWord w db)))
     = Resolved (if eqb (toLowerCase w') (toLowerCase w) then None
                 else db !! toLowerCase w'))
  /\ snd (Storage.getWordCount (fst (Storage.deleteWord w db)))
     = Resolved
         (Z.of_nat (size db)
          - match db !! toLowerCase w with Some _ => 1 | None => 0 end)%Z
  /\ (db !! toLowerCase w = None ->
      Storage.deleteWord w db = (db, Resolved tt)).
Proof.
  split; [|split].
  - intros w'. unfold Storage.getWord, Storage.get, gets,
      Storage.deleteWord, modify. simpl.
    rewrite lookup_delete_eqb. reflexivity.
  - unfold Storage.getWordCount, gets, Storage.deleteWord, modify. simpl.
    f_equal. destruct (db !! toLowerCase w) eqn:E.
    + rewrite map_size_delete_Some by eauto.
      assert (size db <> 0%nat).
      { intros H0. apply map_size_empty_iff in H0. subst db.
        rewrite lookup_empty in E. discriminate. }
      lia.
    + rewrite map_size_delete_None by exact E. lia.
  - intros E. unfold Storage.deleteWord, modify.
    rewrite delete_id by exact E. reflexivity.
Qed.

Section Updates.

Import Storage Due.

Lemma merge_separate (e : WordEntry) (u1 u2 : Updates) :
  separate u1 u2 -> merge (merge e u1) u2 = merge (merge e u2) u1.
Proof.
  intros (Ht & Hn & Hc & Hl & Hr & Hj & Hs & Ha).
  unfold merge. simpl.
  destruct Ht as [-> | ->], Hn as [-> | ->], Hc as [-> | ->],
    Hl as [-> | ->], Hr as [-> | ->], Hj as [-> | ->], Hs as [-> | ->],
    Ha as [-> | ->]; simpl;
    repeat match goal with
           | |- context [match ?x with _ => _ end] => destruct x
           end; reflexivity.
Qed.

Lemma eitherSet_default {A} (a b : option A) (d : A) :
  a = None \/ b = None -> default (default d a) b = eitherSet a b d.
Proof. intros [-> | ->]; [destruct b | destruct a]; reflexivity. Qed.

Lemma eitherSet_given {A} (a b : option A) (d : option A) :
  a = None \/ b = None ->
  match b with
  | Some x => Some x
  | None => match a with Some x => Some x | None => d end
  end
  = eitherSet (Some <$> a) (Some <$> b) d.
Proof. intros [-> | ->]; [destruct b | destruct a]; reflexivity. Qed.

(** [updateWord] on a keyed store: nothing for a word the store lacks, the
    merged record under the same key otherwise. *)
Lemma updateWord_run (w : jsstring) (updates : Updates) (db : ObjectStore) :
  keyed db ->
  updateWord w updates db
  = (match db !! toLowerCase w with
     | Some existing => <[toLowerCase w := merge existing updates]> db
     | None => db
     end, Resolved tt).
Proof.
  intros Hkeyed. unfold updateWord, get, put, mbind, async_bind, bind, gets,
    modify.
  destruct (db !! toLowerCase w) as [existing|] eqn:E; [|reflexivity].
  simpl. rewrite (Hkeyed _ _ E). reflexivity.
Qed.

End Updates.

(** X3. Two updates of one word that set no field in common can be made in
    either order: the store ends up the same. When the word is not stored
    nothing changes. When it is, only its record changes: each of the
    eight fields an update can set holds the value that one of the two
    updates sets, or its old value when neither sets it, and the word,
    phonetic, audioUrl, meanings and addedAt stay; neither update is
    lost. *)
Theorem updateWord_separate_commute
  (w : jsstring) (u1 u2 : Storage.Updates) (db : Storage.ObjectStore) :
  Storage.keyed db ->
  Due.separate u1 u2 ->
  fst (Storage.updateWord w u2 (fst (Storage.updateWord w u1 db)))
  = fst (Storage.updateWord w u1 (fst (Storage.updateWord w u2 db)))
  /\ (db !! toLowerCase w = None ->
      fst (Storage.updateWord w u2 (fst (Storage.updateWord w u1 db))) = db)
  /\ forall existing,
       db !! toLowerCase w = Some existing ->
       exists e,
         fst (Storage.updateWord w u2 (fst (Storage.updateWord w u1 db)))
         = <[toLowerCase w := e]> db
         /\ Storage.word e = Storage.word existing
         /\ Storage.phonetic e = Storage.phonetic existing
         /\ Storage.audioUrl e = Storage.audioUrl existing
         /\ Storage.meanings e = Storage.meanings existing
         /\ Storage.addedAt e = Storage.addedAt existing
         /\ Storage.translation e
            = Due.eitherSet (Storage.set_translation u1)
                            (Storage.set_translation u2)
                            (Storage.translation existing)
         /\ Storage.nextReviewAt e
            = Due.eitherSet (Storage.set_nextReviewAt u1)
                            (Storage.set_nextReviewAt u2)
                            (Storage.nextReviewAt existing)
         /\ Storage.reviewCount e
            = Due.eitherSet (Storage.set_reviewCount u1)
                            (Storage.set_reviewCount u2)
                            (Storage.reviewCount existing)
         /\ Storage.level e
            = Due.eitherSet (Storage.set_level u1) (Storage.set_level u2)
                            (Storage.level existing)
         /\ Storage.lastReviewedAt e
            = Due.eitherSet (Some <$> Storage.set_lastReviewedAt u1)
                            (Some <$> Storage.set_lastReviewedAt u2)
                            (Storage.lastReviewedAt existing)
         /\ Storage.conjugationsData e
            = Due.eitherSet (Some <$> Storage.set_conjugationsData u1)
                            (Some <$> Storage.set_conjugationsData u2)
                            (Storage.conjugationsData existing)
         /\ Storage.synonymsData e
            = Due.eitherSet (Some <$> Storage.set_synonymsData u1)
                            (Some <$> Storage.set_synonymsData u2)
                            (Storage.synonymsData existing)
         /\ Storage.antonymsData e
            = Due.eitherSet (Some <$> Storage.set_antonymsData u1)
                            (Some <$> Storage.set_antonymsData u2)
                            (Storage.antonymsData existing).
Proof.
  intros Hkeyed Hsep.
  assert (Hstep : forall u u',
    fst (Storage.updateWord w u' (fst (Storage.updateWord w u db)))
    = match db !! toLowerCase w with
      | Some existing =>
          <[toLowerCase w := Storage.merge (Storage.merge existing u) u']> db
      | None => db
      end).
  { intros u u'. rewrite (updateWord_run w u db Hkeyed). simpl fst.
    destruct (db !! toLowerCase w) as [existing|] eqn:E.
    - rewrite updateWord_run.
      + simpl fst. rewrite lookup_insert_eq, insert_insert_eq. reflexivity.
      + intros k e H. apply lookup_insert_Some in H as [[<- <-] | [_ H]].
        * exact (Hkeyed _ _ E).
        * exact (Hkeyed _ _ H).
    - rewrite (updateWord_run w u' db Hkeyed), E. reflexivity. }
  split; [|split].
  - rewrite !Hstep. destruct (db !! toLowerCase w) as [existing|];
      [|reflexivity].
    rewrite (merge_separate existing u1 u2 Hsep). reflexivity.
  - intros E. rewrite Hstep, E. reflexivity.
  - intros existing E. rewrite Hstep, E. eexists. split; [reflexivity|].
    destruct Hsep as (Ht & Hn & Hc & Hl & Hr & Hj & Hs & Ha).
    cbn [Storage.merge Storage.word Storage.phonetic Storage.audioUrl
         Storage.meanings Storage.addedAt Storage.translation
         Storage.nextReviewAt Storage.reviewCount Storage.level
         Storage.lastReviewedAt Storage.conjugationsData
         Storage.synonymsData Storage.antonymsData].
    repeat (split; [reflexivity|]).
    split; [exact (eitherSet_default _ _ _ Ht)|].
    split; [exact (eitherSet_default _ _ _ Hn)|].
    split; [exact (eitherSet_default _ _ _ Hc)|].
    split; [exact (eitherSet_default _ _ _ Hl)|].
    split; [exact (eitherSet_given _ _ _ Hr)|].
    split; [exact (eitherSet_given _ _ _ Hj)|].
    split; [exact (eitherSet_given _ _ _ Hs)|].
    exact (eitherSet_given _ _ _ Ha).
Qed.

(** The translation and the synonyms of the stored word, updated one after
    the other: the record holds both, at the level it had. *)
Lemma updateWord_separate_commute_witness :
  Storage.keyed Sample.oneWord
  /\ Due.separate (Due.translationUpdate (u "to run"))
                  (Due.synonymsUpdate (Storage.JArray []))
  /\ exists e,
       fst (Storage.updateWord (u "Run")
              (Due.synonymsUpdate (Storage.JArray []))
              (fst (Storage.updateWord (u "Run")
                      (Due.translationUpdate (u "to run"))
                      Sample.oneWord)))
       = <[u "run" := e]> Sample.oneWord
       /\ fst (Storage.updateWord (u "Run")
                 (Due.translationUpdate (u "to run"))
                 (fst (Storage.updateWord (u "Run")
                         (Due.synonymsUpdate (Storage.JArray []))
                         Sample.oneWord)))
          = <[u "run" := e]> Sample.oneWord
       /\ Storage.translation e = u "to run"
       /\ Storage.synonymsData e = Some (Storage.JArray [])
       /\ Storage.level e = 0%Z
       /\ Storage.word e = u "run".
Proof.
  assert (Hsep : Due.separate (Due.translationUpdate (u "to run"))
                              (Due.synonymsUpdate (Storage.JArray [])))
    by (unfold Due.separate; simpl; tauto).
  split; [exact oneWord_keyed|]. split; [exact Hsep|].
  destruct (updateWord_separate_commute (u "Run")
              (Due.translationUpdate (u "to run"))
              (Due.synonymsUpdate (Storage.JArray []))
              Sample.oneWord oneWord_keyed Hsep)
    as (Hcommute & _ & Hfields).
  destruct oneWord_entry as (existing & Hexisting & Hlevel & _).
  destruct (Hfields existing Hexisting)
    as (e & He & Hword & _ & _ & _ & _ & Htr & _ & _ & Hlvl & _ & _ & Hsyn
        & _).
  exists e. split; [exact He|]. split; [rewrite <- Hcommute; exact He|].
  split; [exact Htr|]. split; [exact Hsyn|].
  split; [rewrite Hlvl; exact Hlevel|].
  rewrite Hword. unfold Sample.oneWord, Storage.saveWord, Storage.put,
    modify in Hexisting. simpl fst in Hexisting.
  rewrite lookup_insert_eq in Hexisting. injection Hexisting as <-.
  reflexivity.
Defined.

(** ** Reviews and the due list *)

Section Reviews.

Import Storage Ebbinghaus Due.

Lemma markAsReviewed_run (now : Z) (w : jsstring) (remembered : bool)
  (db : ObjectStore) :
  keyed db ->
  markAsReviewed now w remembered db
  = match db !! toLowerCase w with
    | Some entry =>
        (<[toLowerCase w := reviewed now remembered entry]> db,
         Resolved (Some (reviewed now remembered entry)))
    | None => (db, Resolved None)
    end.
Proof.
  intros Hkeyed.
  unfold markAsReviewed, getAllWords, getAll, mbind, async_bind, bind, gets.
  rewrite (find_keyed db _ Hkeyed).
  destruct (db !! toLowerCase w) as [entry|] eqn:E; [|reflexivity].
  unfold updateWord, get, put, mbind, async_bind, bind, gets, modify.
  rewrite E. unfold mret, async_ret, ret, reviewed. simpl.
  rewrite (Hkeyed _ _ E). reflexivity.
Qed.

Lemma keyed_reviewed (now : Z) (remembered : bool) (db : ObjectStore)
  (k : jsstring) (entry : WordEntry) :
  keyed db -> db !! k = Some entry ->
  keyed (<[k := reviewed now remembered entry]> db).
Proof.
  intros Hkeyed E k' e H. apply lookup_insert_Some in H as [[<- <-] | [_ H]].
  - exact (Hkeyed _ _ E).
  - exact (Hkeyed _ _ H).
Qed.

(** A record of the store is in the list of all its records. *)
Lemma allWords_lookup (db : ObjectStore) (e : WordEntry) :
  In e (allWords db) <-> exists k, db !! k = Some e.
Proof.
  unfold allWords. rewrite in_map_iff. split.
  - intros [[k e'] [<- H]]. exists k.
    apply elem_of_map_to_list, list_elem_of_In. exact H.
  - intros [k H]. exists (k, e). split; [reflexivity|].
    apply list_elem_of_In, elem_of_map_to_list. exact H.
Qed.

End Reviews.

(** X4. [markAsReviewed] answers [null] for a word the store does not have
    and leaves the store as it is. For a word it has, it changes the record
    of that word only, and of that record only the level, the review count
    and the two review times: the word, phonetic, audio, meanings,
    translation, date of adding and cached extras stay. *)
Theorem markAsReviewed_frame
  (now : Z) (w : jsstring) (remembered : bool) (db : Storage.ObjectStore) :
  Storage.keyed db ->
  match db !! toLowerCase w with
  | None => Ebbinghaus.markAsReviewed now w remembered db = (db, Resolved None)
  | Some entry =>
      exists e',
        Ebbinghaus.markAsReviewed now w remembered db
        = (<[toLowerCase w := e']> db, Resolved (Some e'))
        /\ (forall k, k <> toLowerCase w ->
              fst (Ebbinghaus.markAsReviewed now w remembered db) !! k
              = db !! k)
        /\ Storage.word e' = Storage.word entry
        /\ Storage.phonetic e' = Storage.phonetic entry
        /\ Storage.audioUrl e' = Storage.audioUrl entry
        /\ Storage.meanings e' = Storage.meanings entry
        /\ Storage.translation e' = Storage.translation entry
        /\ Storage.addedAt e' = Storage.addedAt entry
        /\ Storage.conjugationsData e' = Storage.conjugationsData entry
        /\ Storage.synonymsData e' = Storage.synonymsData entry
        /\ Storage.antonymsData e' = Storage.antonymsData entry
  end.
Proof.
  intros Hkeyed. rewrite (markAsReviewed_run now w remembered db Hkeyed).
  destruct (db !! toLowerCase w) as [entry|]; [|reflexivity].
  eexists. split; [reflexivity|]. split; [|repeat split].
  intros k Hk. simpl. apply lookup_insert_ne. congruence.
Qed.

Lemma markAsReviewed_frame_witness :
  Ebbinghaus.markAsReviewed 5000 (u "walk") true Sample.oneWord
  = (Sample.oneWord, Resolved None).
Proof.
  exact (markAsReviewed_frame 5000 (u "walk") true Sample.oneWord
           oneWord_keyed).
Defined.

(** X5. A run of remembered reviews of a stored word raises its level by
    one each time up to 6, where it stays; a run of forgotten reviews puts
    it at 0; either way each review counts one. *)
Theorem reviews_level
  (times : list Z) (w : jsstring) (remembered : bool)
  (db : Storage.ObjectStore) (entry : Storage.WordEntry) :
  Storage.keyed db ->
  db !! toLowerCase w = Some entry ->
  exists e',
    fst (Due.reviews times w remembered db) !! toLowerCase w = Some e'
    /\ Storage.reviewCount e'
       = (Storage.reviewCount entry + Z.of_nat (length times))%Z
    /\ Storage.level e'
       = match times with
         | [] => Storage.level entry
         | _ =>
             if remembered
             then Z.min (Storage.level entry + Z.of_nat (length times)) 6
             else 0%Z
         end.
Proof.
  revert db entry.
  induction times as [|now later IH]; intros db entry Hkeyed Hentry.
  - exists entry. simpl. split; [exact Hentry|]. split; [lia | reflexivity].
  - simpl Due.reviews. unfold mbind, async_bind, bind.
    rewrite (markAsReviewed_run now w remembered db Hkeyed), Hentry.
    destruct (IH (<[toLowerCase w := Due.reviewed now remembered entry]> db)
                 (Due.reviewed now remembered entry))
      as (e' & Hlookup & Hcount & Hlevel).
    + apply keyed_reviewed; assumption.
    + apply lookup_insert_eq.
    + exists e'. split; [exact Hlookup|]. split.
      * rewrite Hcount. simpl. lia.
      * rewrite Hlevel. simpl Storage.level.
        change (Z.of_nat (length Ebbinghaus.REVIEW_INTERVALS)) with 6%Z.
        destruct later as [|now' later']; destruct remembered;
          simpl length; lia.
Qed.

Lemma reviews_level_witness :
  exists e',
    fst (Due.reviews [10; 20; 30; 40; 50; 60; 70]%Z (u "Run") true
           Sample.oneWord) !! toLowerCase (u "Run") = Some e'
    /\ Storage.reviewCount e' = 7%Z
    /\ Storage.level e' = 6%Z.
Proof.
  destruct oneWord_entry as (e & He & Hlevel & _).
  destruct (reviews_level [10; 20; 30; 40; 50; 60; 70]%Z (u "Run") true
              Sample.oneWord e oneWord_keyed He)
    as (e' & Hlookup & Hcount & Hl).
  exists e'. split; [exact Hlookup|].
  assert (Storage.reviewCount e = 0%Z) as Hzero.
  { pose proof He as He'.
    unfold Sample.oneWord, Storage.saveWord, Storage.put, modify in He'.
    simpl fst in He'. rewrite lookup_insert_eq in He'.
    injection He' as <-. reflexivity. }
  split.
  - rewrite Hcount, Hzero. reflexivity.
  - rewrite Hl, Hlevel. reflexivity.
Defined.

Section DueList.

Import Storage Ebbinghaus Due.

Lemma getDueWords_run (now : Z) (db : ObjectStore) :
  getDueWords now db
  = (db, Resolved
           (List.filter
              (fun w => notAfter (nextReviewAt w) now && learning w)
              (allWords db))).
Proof. reflexivity. Qed.

(** A record of the store is due when its next review is not after the
    time asked for and its level is below the last. *)
Lemma due_stored (now : Z) (db : ObjectStore) (k : jsstring) (e : WordEntry) :
  db !! k = Some e ->
  In e (List.filter (fun w => notAfter (nextReviewAt w) now && learning w)
                    (allWords db))
  <-> notAfter (nextReviewAt e) now = true /\ learning e = true.
Proof.
  intros Hk. rewrite filter_In, andb_true_iff, allWords_lookup.
  split; [tauto | intros H; split; [eauto | exact H]].
Qed.

Lemma filter_length_split {A} (p : A -> bool) (l : list A) :
  (length (List.filter p l)
   + length (List.filter (fun x => negb (p x)) l) = length l)%nat.
Proof.
  induction l as [|x r IH]; simpl; [reflexivity|].
  destruct (p x); simpl; lia.
Qed.

Lemma filter_length_le {A} (p q : A -> bool) (l : list A) :
  (forall x, p x = true -> q x = true) ->
  (length (List.filter p l) <= length (List.filter q l))%nat.
Proof.
  intros Hpq. induction l as [|x r IH]; simpl; [lia|].
  destruct (p x) eqn:Hp.
  - rewrite (Hpq x Hp). simpl. lia.
  - destruct (q x); simpl; lia.
Qed.

Lemma isMastered_learning (w : WordEntry) : isMastered w = negb (learning w).
Proof.
  unfold isMastered, learning.
  destruct (Z.leb_spec (Z.of_nat (length REVIEW_INTERVALS)) (level w));
    destruct (Z.ltb_spec (level w) (Z.of_nat (length REVIEW_INTERVALS)));
    simpl; try reflexivity; lia.
Qed.

(** [Math.min] of numbers that are all after [now]. *)
Lemma mathMin_least (now : Z) (ts : list (option Z)) :
  forall a,
    (now < a)%Z ->
    Forall (fun t => after t now = true) ts ->
    exists m,
      mathMin (Some a) ts = Some m
      /\ (now < m)%Z
      /\ (m <= a)%Z
      /\ (m = a \/ In (Some m) ts)
      /\ (forall b, In (Some b) ts -> (m <= b)%Z).
Proof.
  induction ts as [|t r IH]; intros a Ha Hts.
  - exists a. simpl. repeat split; [exact Ha | lia | auto | intros b []].
  - apply Forall_cons in Hts as [Ht Hr].
    destruct t as [b|]; [|discriminate]. simpl in Ht.
    apply Z.ltb_lt in Ht. simpl mathMin.
    destruct (IH (Z.min a b)) as (m & Hm & Hnow & Hle & Hin & Hleast);
      [lia | exact Hr |].
    exists m. split; [exact Hm|]. split; [exact Hnow|]. split; [lia|].
    split.
    + destruct Hin as [-> | Hin]; [|right; right; exact Hin].
      destruct (Z.min_spec a b) as [[_ ->] | [_ ->]];
        [left; reflexivity | right; left; reflexivity].
    + intros c [[= <-] | Hc]; [lia | exact (Hleast c Hc)].
Qed.

End DueList.

(** X6. Once a stored word at a level from 0 to 6 has been reviewed, it is
    on the due list at a time [t] exactly when its new level is below 6 and
    [t] is not before its next review: it is not due right after the
    review, and a word that has reached level 6 is never due again. *)
Theorem reviewed_word_due
  (now t : Z) (w : jsstring) (remembered : bool)
  (db : Storage.ObjectStore) (entry : Storage.WordEntry) :
  Storage.keyed db ->
  db !! toLowerCase w = Some entry ->
  (0 <= Storage.level entry <= 6)%Z ->
  exists e' due,
    Ebbinghaus.markAsReviewed now w remembered db
    = (<[toLowerCase w := e']> db, Resolved (Some e'))
    /\ snd (Due.getDueWords t (<[toLowerCase w := e']> db)) = Resolved due
    /\ (In e' due
        <-> (Storage.level e' < 6)%Z
            /\ (now + Ebbinghaus.intervalDays (Storage.level e')
                      * Storage.DAY <= t)%Z).
Proof.
  intros Hkeyed Hentry Hlevel.
  rewrite (markAsReviewed_run now w remembered db Hkeyed), Hentry.
  eexists. eexists. split; [reflexivity|].
  rewrite getDueWords_run. split; [reflexivity|].
  rewrite (due_stored t _ (toLowerCase w)) by apply lookup_insert_eq.
  unfold Due.learning. simpl Storage.level. simpl Storage.nextReviewAt.
  change (Z.of_nat (length Ebbinghaus.REVIEW_INTERVALS)) with 6%Z.
  change (Z.of_nat 6) with 6%Z.
  set (newLevel := if remembered
                   then Z.min (Storage.level entry + 1) 6 else 0%Z).
  rewrite (getNextReviewDate_days now newLevel)
    by (unfold newLevel; destruct remembered; lia).
  simpl. rewrite Z.leb_le, Z.ltb_lt. tauto.
Qed.

Lemma reviewed_word_due_witness :
  exists e' due,
    Ebbinghaus.markAsReviewed 5000 (u "Run") true Sample.oneWord
    = (<[toLowerCase (u "Run") := e']> Sample.oneWord, Resolved (Some e'))
    /\ snd (Due.getDueWords 5000
              (<[toLowerCase (u "Run") := e']> Sample.oneWord))
       = Resolved due
    /\ (In e' due
        <-> (Storage.level e' < 6)%Z
            /\ (5000 + Ebbinghaus.intervalDays (Storage.level e')
                       * Storage.DAY <= 5000)%Z).
Proof.
  destruct oneWord_entry as (e & He & Hlevel & _).
  apply (reviewed_word_due 5000 5000 (u "Run") true Sample.oneWord e
           oneWord_keyed He).
  rewrite Hlevel. lia.
Defined.

(** X7. A word just saved is on the due list at a time [t] exactly when [t]
    is a day or more after it was saved. *)
Theorem saved_word_due
  (now t : Z) (wordData : Storage.WordData.t) (db : Storage.ObjectStore) :
  exists e due,
    fst (Storage.saveWord now wordData db)
      !! toLowerCase (Storage.WordData.word wordData) = Some e
    /\ snd (Due.getDueWords t (fst (Storage.saveWord now wordData db)))
       = Resolved due
    /\ (In e due <-> (now + 24 * 60 * 60 * 1000 <= t)%Z).
Proof.
  eexists. eexists. split; [|split].
  - unfold Storage.saveWord, Storage.put, modify. simpl fst.
    apply lookup_insert_eq.
  - rewrite getDueWords_run. reflexivity.
  - unfold Storage.saveWord, Storage.put, modify. simpl fst.
    rewrite (due_stored t _ (toLowerCase (Storage.WordData.word wordData)))
      by apply lookup_insert_eq.
    simpl. rewrite Z.leb_le. unfold Storage.DAY. tauto.
Qed.

(** X8. The review statistics add up: the words are the mastered ones and
    the ones still being learnt, the due ones are among those being learnt,
    the total is the number of records of the store and the number due is
    what [getDueWordCount] answers. Taking them changes nothing. *)
Theorem getReviewStats_adds_up (now : Z) (db : Storage.ObjectStore) :
  exists stats,
    Due.getReviewStats now db = (db, Resolved stats)
    /\ Due.total stats = (Due.mastered stats + Due.learningCount stats)%Z
    /\ (0 <= Due.mastered stats)%Z
    /\ (0 <= Due.due stats <= Due.learningCount stats)%Z
    /\ Storage.getWordCount db = (db, Resolved (Due.total stats))
    /\ Due.getDueWordCount now db = (db, Resolved (Due.due stats)).
Proof.
  unfold Due.getReviewStats, Due.getDueWordCount, Due.getDueWords,
    Storage.getAllWords, Storage.getAll, mbind, async_bind, bind, gets,
    mret, async_ret, ret.
  eexists. split; [reflexivity|]. simpl.
  fold (Due.allWords db).
  pose proof (filter_length_split Due.learning (Due.allWords db)) as Hsplit.
  pose proof (filter_length_le
                (fun w => Due.notAfter (Storage.nextReviewAt w) now
                          && Due.learning w)
                Due.learning (Due.allWords db)) as Hdue.
  assert (List.filter (fun w => Due.isMastered w) (Due.allWords db)
          = List.filter (fun w => negb (Due.learning w)) (Due.allWords db))
    as -> by (apply filter_ext; exact isMastered_learning).
  split; [lia|]. split; [lia|]. split.
  - split; [lia|].
    assert (length (List.filter
                      (fun w => Due.notAfter (Storage.nextReviewAt w) now
                                && Due.learning w) (Due.allWords db))
            <= length (List.filter Due.learning (Due.allWords db)))%nat
      by (apply Hdue; intros x Hx; apply andb_true_iff in Hx; tauto).
    lia.
  - split; [|reflexivity].
    unfold Storage.getWordCount, gets. f_equal. f_equal. f_equal.
    unfold Due.allWords. rewrite length_map, length_map_to_list.
    reflexivity.
Qed.

(** X9. [getNextReviewTime] answers [null] exactly when no word below the
    last level has its next review after [now]. Otherwise it answers a
    number, never [NaN]: the earliest of the next reviews after [now] of
    the words below the last level; and at that time a word is due. *)
Theorem getNextReviewTime_nearest (now : Z) (db : Storage.ObjectStore) :
  exists r,
    Due.getNextReviewTime now db = (db, Resolved r)
    /\ match r with
       | None =>
           forall k e,
             db !! k = Some e ->
             Due.after (Storage.nextReviewAt e) now && Due.learning e = false
       | Some None => False
       | Some (Some t) =>
           (now < t)%Z
           /\ (exists k e due,
                 db !! k = Some e
                 /\ Due.learning e = true
                 /\ Storage.nextReviewAt e = Some t
                 /\ snd (Due.getDueWords t db) = Resolved due
                 /\ In e due)
           /\ (forall k e t',
                 db !! k = Some e ->
                 Due.learning e = true ->
                 Storage.nextReviewAt e = Some t' ->
                 (now < t')%Z ->
                 (t <= t')%Z)
       end.
Proof.
  unfold Due.getNextReviewTime, Storage.getAllWords, Storage.getAll,
    mbind, async_bind, bind, gets.
  fold (Due.allWords db).
  set (future := fun w => Due.after (Storage.nextReviewAt w) now
                          && Due.learning w).
  assert (Hfuture : forall e,
            In e (List.filter future (Due.allWords db))
            <-> (exists k, db !! k = Some e) /\ future e = true)
    by (intros e; rewrite filter_In, allWords_lookup; reflexivity).
  destruct (List.filter future (Due.allWords db)) as [|w0 ws] eqn:Hlist.
  - exists None. split; [reflexivity|]. intros k e Hk.
    destruct (future e) eqn:Hf; [|exact Hf].
    exfalso. apply (proj2 (Hfuture e)). eauto.
  - change (map Storage.nextReviewAt (w0 :: ws))
      with (Storage.nextReviewAt w0 :: map Storage.nextReviewAt ws).
    assert (Hw0 : future w0 = true) by (apply (Hfuture w0); left; reflexivity).
    pose proof Hw0 as Hw0'. unfold future in Hw0'.
    apply andb_true_iff in Hw0' as [Hafter0 Hlearn0].
    destruct (Storage.nextReviewAt w0) as [a|] eqn:Hnext0; [|discriminate].
    simpl in Hafter0. apply Z.ltb_lt in Hafter0.
    destruct (mathMin_least now (map Storage.nextReviewAt ws) a Hafter0)
      as (m & Hm & Hnow & Hle & Hin & Hleast).
    { apply Forall_forall. intros x Hx.
      apply list_elem_of_In, in_map_iff in Hx as [w [<- Hw]].
      assert (future w = true) as Hfw by (apply (Hfuture w); right; exact Hw).
      unfold future in Hfw. apply andb_true_iff in Hfw. tauto. }
    exists (Some (Some m)). cbn beta iota.
    unfold mret, async_ret, ret. rewrite Hm.
    split; [reflexivity|]. split; [exact Hnow|]. split.
    + assert (exists e, In e (w0 :: ws) /\ Storage.nextReviewAt e = Some m)
        as (e & He & Hnext).
      { destruct Hin as [-> | Hin].
        - exists w0. split; [left; reflexivity | exact Hnext0].
        - apply in_map_iff in Hin as [e [Hnext He]].
          exists e. split; [right; exact He | exact Hnext]. }
      apply Hfuture in He as [[k Hk] Hf].
      unfold future in Hf. apply andb_true_iff in Hf as [_ Hlearn].
      exists k, e. eexists. split; [exact Hk|]. split; [exact Hlearn|].
      split; [exact Hnext|]. rewrite getDueWords_run.
      split; [reflexivity|].
      apply (due_stored m db k e Hk). rewrite Hnext. simpl.
      split; [apply Z.leb_le; lia | exact Hlearn].
    + intros k e t' Hk Hlearn Hnext Hlt.
      assert (In e (w0 :: ws)) as He.
      { apply Hfuture. split; [eauto|]. unfold future.
        rewrite Hnext, Hlearn. simpl. rewrite andb_true_r.
        apply Z.ltb_lt. exact Hlt. }
      destruct He as [<- | He].
      * rewrite Hnext0 in Hnext. injection Hnext as <-. exact Hle.
      * apply Hleast. rewrite <- Hnext. apply in_map. exact He.
Qed.

(** ** Imports, whatever the backup *)

Section Imports.

Import Storage Due.




(** The loop on elements it takes whose words the store all has: every
    element with a word is skipped and the store stays as it is. *)
Lemma forEach_import_present (now : Z) (ws : list Element)
  (db : ObjectStore) :
  Forall (fun element => ~ illTyped element) ws ->
  (forall element w, In element ws -> wordOf element = Some w ->
                     is_Some (db !! toLowerCase w)) ->
  forall count : ImportCount,
    forEach (importElement now) ws count db
    = (db, Resolved
             {| imported := imported count;
                skipped := skipped count
                           + Z.of_nat (length (List.filter withWord ws)) |}).
Proof.
  induction ws as [|x r IH]; intros Hok Hall count.
  - simpl. unfold ret. destruct count. simpl. f_equal. f_equal. f_equal. lia.
  - apply Forall_cons in Hok as [Hx Hr].
    simpl forEach. unfold bind at 1.
    change (List.filter withWord (x :: r))
      with (if withWord x then x :: List.filter withWord r
            else List.filter withWord r).
    pose proof (Hall x) as Hpresent.
    assert (Hwx : withWord x
                  = match wordOf x with
                    | Some _ => true
                    | None => false
                    end) by reflexivity.
    assert (Hskip : wordOf x = None ->
                    importElement now x count db = (db, Resolved count)).
    { destruct x as [entry| | |]; intros Hw.
      - apply importEntry_without_word. exact Hw.
      - destruct Hx. right. reflexivity.
      - reflexivity.
      - destruct Hx. left. reflexivity. }
    destruct (wordOf x) as [w|] eqn:Hw; rewrite Hwx; clear Hwx.
    + destruct (Hpresent w (or_introl eq_refl) eq_refl) as [existing Hdb].
      destruct x as [entry| | |]; try discriminate Hw.
      cbn [wordOf] in Hw. cbn [importElement].
      rewrite (importEntry_existing now entry count db w existing Hw Hdb).
      rewrite (IH Hr)
        by (intros element w' Hin; apply Hall; right; exact Hin).
      change (length (Entry entry :: List.filter withWord r))
        with (S (length (List.filter withWord r))).
      rewrite Nat2Z.inj_succ.
      cbn [imported skipped]. f_equal. f_equal. f_equal. lia.
    + rewrite (Hskip eq_refl).
      apply (IH Hr). intros element w' Hin. apply Hall. right. exact Hin.
Qed.


End Imports.





Section Restore.

Import Storage Due.

Lemma filter_withWord_all (ws : list Element) :
  (forall entry, In entry ws -> withWord entry = true) ->
  List.filter withWord ws = ws.
Proof.
  induction ws as [|x r IH]; intros Hall; [reflexivity|].
  simpl. rewrite (Hall x (or_introl eq_refl)). f_equal.
  apply IH. intros entry Hin. apply Hall. right. exact Hin.
Qed.

Lemma exportAllWords_run (now : Z) (db : ObjectStore) :
  db <> ∅ ->
  exportAllWords now db
  = (db, Resolved (Wrapped (Some 1%Z) (Some now) (Some (Z.of_nat (size db)))
                           (WordsArray
                              (map Entry (map toBackup (allWords db)))),
                   Z.of_nat (size db))).
Proof.
  intros Hne.
  assert (Hlen : length (allWords db) = size db).
  { unfold allWords. rewrite length_map. apply length_map_to_list. }
  unfold exportAllWords, getAllWords, getAll, mbind, async_bind, bind, gets.
  fold (allWords db).
  destruct (allWords db) as [|x r] eqn:E.
  - exfalso. apply Hne, map_to_list_empty_iff. unfold allWords in E.
    destruct (map_to_list db); [reflexivity | discriminate E].
  - rewrite <- Hlen. reflexivity.
Qed.

End Restore.

(** X12. A backup exported from a store of non-empty lower-case words
    changes nothing when it is imported into a store that still has all
    those words, whatever has happened to their records since: nothing is
    imported and every record of the backup is skipped. *)
Theorem importWords_keeps_later_store
  (now now' : Z) (db later : Storage.ObjectStore) :
  db <> ∅ ->
  Storage.keyed db ->
  (forall k e, db !! k = Some e -> k <> [] /\ Js.toLowerCase k = k) ->
  (forall k, is_Some (db !! k) -> is_Some (later !! k)) ->
  exists payload,
    Storage.exportAllWords now db
    = (db, Resolved (payload, Z.of_nat (size db)))
    /\ Storage.importWords now' (Some payload) later
       = (later, Resolved {| Storage.imported := 0;
                             Storage.skipped := Z.of_nat (size db) |}).
Proof.
  intros Hne Hkeyed Hkeys Hlater.
  eexists. split; [apply (exportAllWords_run now db Hne)|].
  assert (Hlen : length (Due.allWords db) = size db).
  { unfold Due.allWords. rewrite length_map. apply length_map_to_list. }
  assert (Hword : forall element,
             In element (map Storage.Entry
                           (map Storage.toBackup (Due.allWords db))) ->
             ~ Storage.illTyped element
             /\ exists k, Storage.wordOf element = Some k
                          /\ is_Some (db !! Js.toLowerCase k)).
  { intros element Hin. apply in_map_iff in Hin as [entry [<- Hin]].
    apply in_map_iff in Hin as [e [<- He]].
    apply allWords_lookup in He as [k Hk].
    destruct (Hkeys k e Hk) as [Hk0 Hlow].
    pose proof (Hkeyed k e Hk) as Hw.
    split; [intros [H|H]; discriminate H|].
    exists k. cbn [Storage.wordOf].
    change (Storage.Backup.word (Storage.toBackup e))
      with (Some (Storage.word e)).
    rewrite Hw. unfold Dictionary.whenTruthy.
    assert (Ht : Js.truthy k = true) by (destruct k; [congruence|reflexivity]).
    rewrite Ht, Hlow, Hk. eauto. }
  rewrite importWords_loop.
  - simpl Storage.recordSet. rewrite forEach_import_present.
    + rewrite filter_withWord_all.
      * rewrite !length_map, Hlen. reflexivity.
      * intros element Hin.
        destruct (Hword element Hin) as (_ & k & Hk & _).
        unfold Due.withWord. rewrite Hk. reflexivity.
    + apply Forall_forall. intros element Hin.
      apply (Hword element), list_elem_of_In, Hin.
    + intros element w Hin Hw.
      destruct (Hword element Hin) as (_ & k & Hk & Hdb).
      rewrite Hw in Hk. injection Hk as <-. apply Hlater, Hdb.
  - simpl. intros E. apply map_eq_nil, map_eq_nil in E.
    apply Hne, map_to_list_empty_iff. unfold Due.allWords in E.
    destruct (map_to_list db); [reflexivity | discriminate E].
Qed.

Lemma importWords_keeps_later_store_witness :
  exists payload,
    Storage.exportAllWords 2000 Sample.oneWord
    = (Sample.oneWord, Resolved (payload, Z.of_nat (size Sample.oneWord)))
    /\ Storage.importWords 9000 (Some payload)
         (fst (Ebbinghaus.markAsReviewed 5000 (u "run") true Sample.oneWord))
       = (fst (Ebbinghaus.markAsReviewed 5000 (u "run") true Sample.oneWord),
          Resolved {| Storage.imported := 0;
                      Storage.skipped := Z.of_nat (size Sample.oneWord) |}).
Proof.
  apply (importWords_keeps_later_store 2000 9000 Sample.oneWord).
  - exact oneWord_not_empty.
  - exact oneWord_keyed.
  - intros k e H. apply oneWord_lookup in H as [-> _].
    split; [discriminate | reflexivity].
  - intros k [e H]. apply oneWord_lookup in H as [-> _].
    vm_compute. eauto.
Defined.

(** ** What every store keeps *)

Section Keys.

Import Storage Ebbinghaus Due.

Lemma lowerKeyed_keyed (db : ObjectStore) : lowerKeyed db -> keyed db.
Proof. intros H k e Hk. apply (H k e Hk). Qed.

Lemma lowerKeyed_insert (db : ObjectStore) (k : jsstring) (e : WordEntry) :
  word e = k -> toLowerCase k = k ->
  lowerKeyed db -> lowerKeyed (<[k := e]> db).
Proof.
  intros Hword Hlow Hdb k' e' H.
  apply lookup_insert_Some in H as [[<- <-] | [_ H]].
  - split; assumption.
  - exact (Hdb _ _ H).
Qed.

Lemma importEntry_lowerKeyed (now : Z) (entry : Backup.t)
  (count : ImportCount) (db : ObjectStore) :
  lowerKeyed db -> lowerKeyed (fst (importEntry now entry count db)).
Proof.
  intros Hdb.
  destruct (Dictionary.whenTruthy (Backup.word entry)) as [w|] eqn:Hw.
  - destruct (db !! toLowerCase w) as [existing|] eqn:E.
    + rewrite (importEntry_existing now entry count db w existing Hw E).
      exact Hdb.
    + rewrite (importEntry_new now entry count db w Hw E). simpl fst.
      apply lowerKeyed_insert;
        [reflexivity | apply toLowerCase_idempotent | exact Hdb].
  - rewrite (importEntry_without_word now entry count db Hw). exact Hdb.
Qed.

Lemma importElement_lowerKeyed (now : Z) (element : Element)
  (count : ImportCount) (db : ObjectStore) :
  lowerKeyed db -> lowerKeyed (fst (importElement now element count db)).
Proof.
  intros Hdb. destruct element as [entry| | |]; try exact Hdb.
  apply importEntry_lowerKeyed. exact Hdb.
Qed.

Lemma evolved_lowerKeyed (db : ObjectStore) : evolved db -> lowerKeyed db.
Proof.
  induction 1 as [|now wordData db _ IH|w updates db _ IH|w db _ IH
                  |now w remembered db _ IH|now parsed db _ IH].
  - intros k e H. rewrite lookup_empty in H. discriminate.
  - unfold saveWord, put, modify. simpl fst.
    apply lowerKeyed_insert;
      [reflexivity | apply toLowerCase_idempotent | exact IH].
  - rewrite (updateWord_run w updates db (lowerKeyed_keyed db IH)).
    simpl fst. destruct (db !! toLowerCase w) as [existing|] eqn:E;
      [|exact IH].
    apply lowerKeyed_insert; [|apply toLowerCase_idempotent | exact IH].
    exact (proj1 (IH _ _ E)).
  - unfold deleteWord, modify. simpl fst. intros k e H.
    apply lookup_delete_Some in H as [_ H]. exact (IH _ _ H).
  - rewrite (markAsReviewed_run now w remembered db (lowerKeyed_keyed db IH)).
    destruct (db !! toLowerCase w) as [entry|] eqn:E; [|exact IH].
    simpl fst.
    apply lowerKeyed_insert; [|apply toLowerCase_idempotent | exact IH].
    exact (proj1 (IH _ _ E)).
  - destruct parsed as [data|].
    + destruct (recordSet data) as [|x r] eqn:Hset.
      * destruct (importWords_without_records now (Some data) db Hset)
          as [e ->]. exact IH.
      * rewrite (importWords_loop now data db)
          by (rewrite Hset; discriminate).
        apply (forEach_preserves lowerKeyed (fun _ => True)).
        -- intros element acc db0 _. apply importElement_lowerKeyed.
        -- apply Forall_forall. intros; exact I.
        -- exact IH.
    + destruct (importWords_without_records now None db I) as [e ->].
      exact IH.
Qed.

End Keys.

(** X13. Whatever sequence of [saveWord], [updateWord], [deleteWord],
    [markAsReviewed] and [importWords] has made a store, every record is
    stored under its own word, that word is in lower case, and [getWord]
    of the word of a record finds that record. *)
Theorem evolved_store_keys
  (db : Storage.ObjectStore) (k : jsstring) (e : Storage.WordEntry) :
  Due.evolved db ->
  db !! k = Some e ->
  Storage.word e = k
  /\ Js.toLowerCase k = k
  /\ Storage.getWord (Storage.word e) db = (db, Resolved (Some e)).
Proof.
  intros Hdb Hk. destruct (evolved_lowerKeyed db Hdb k e Hk) as [Hword Hlow].
  split; [exact Hword|]. split; [exact Hlow|].
  unfold Storage.getWord, Storage.get, gets. rewrite Hword, Hlow, Hk.
  reflexivity.
Qed.

Lemma evolved_store_keys_witness :
  exists e,
    Storage.word e = u "run"
    /\ Js.toLowerCase (u "run") = u "run"
    /\ Storage.getWord (Storage.word e) Sample.oneWord
       = (Sample.oneWord, Resolved (Some e)).
Proof.
  destruct oneWord_entry as (e & He & _).
  exists e. apply (evolved_store_keys Sample.oneWord (u "run") e).
  - apply Due.evolved_saveWord, Due.evolved_empty.
  - exact He.
Defined.

(** ** White space around a query *)

(** X14. White space before and after a query does not matter: the query
    is classified the same and [lookupWord] sends the same requests and
    resolves to the same result as without it. *)
Theorem lookupWord_ignores_padding
  (net : Dictionary.Network) (pre text post : jsstring) :
  forallb isWhitespace pre = true ->
  forallb isWhitespace post = true ->
  Dictionary.detectInputType (pre ++ text ++ post)
  = Dictionary.detectInputType text
  /\ Dictionary.lookupWord net (pre ++ text ++ post)
     = Dictionary.lookupWord net text.
Proof.
  intros Hpre Hpost.
  unfold Dictionary.lookupWord, Dictionary.detectInputType.
  rewrite (trim_padding pre text post Hpre Hpost).
  split; reflexivity.
Qed.

Lemma lookupWord_ignores_padding_witness :
  Dictionary.detectInputType (u "  " ++ u "ice cream" ++ u " ")
  = Dictionary.detectInputType (u "ice cream")
  /\ Dictionary.lookupWord Sample.network (u "  " ++ u "ice cream" ++ u " ")
     = Dictionary.lookupWord Sample.network (u "ice cream").
Proof.
  apply (lookupWord_ignores_padding Sample.network (u "  ") (u "ice cream")
           (u " ")); reflexivity.
Defined.

(** ** The translation services *)

Section Translations.

Import Dictionary.

Context (net : Network).


Lemma llmCalls_provider (text : jsstring) :
  llmCalls net text
  = match whenTruthy (llm_api_key net) with
    | None => []
    | Some apiKey =>
        if eqb (orString (llm_provider net) (u "deepseek")) (u "gemini")
        then [PostGemini apiKey TRANSLATION_PROMPT text]
        else [PostDeepSeek apiKey TRANSLATION_PROMPT text]
    end.
Proof.
  unfold llmCalls, translateWithDeepSeek, tryCatch,
    callGeminiApi, callOpenAICompatibleApi,
    mbind, async_bind, bind, fetch, json, ok, mret, async_ret, ret, throw.
  destruct (whenTruthy (llm_api_key net)) as [apiKey|]; [|reflexivity].
  destruct (eqb _ _).
  - destruct (geminiApi net _ _ _) as [|st [data|]]; simpl;
      try reflexivity;
      destruct ((200 <=? st)%Z && (st <=? 299)%Z); reflexivity.
  - destruct (deepseekApi net _ _ _) as [|st [data|]]; simpl;
      try reflexivity;
      destruct ((200 <=? st)%Z && (st <=? 299)%Z); reflexivity.
Qed.

Lemma chatText_trimmed (data : ChatJson) (t : jsstring) :
  chatText data = Some t -> t <> [] /\ trim t = t.
Proof.
  unfold chatText, whenTruthy. destruct (chat_content data) as [c|];
    [|discriminate].
  destruct (truthy (trim c)) eqn:E; [|discriminate].
  intros [= <-]. split.
  - destruct (trim c); [discriminate | congruence].
  - apply trim_idempotent.
Qed.

Lemma llmAnswer_trimmed (text t : jsstring) :
  llmAnswer net text = Some t ->
  t <> [] /\ trim t = t /\ whenTruthy (llm_api_key net) <> None.
Proof.
  unfold llmAnswer, answerOf, translateWithDeepSeek, tryCatch,
    callGeminiApi, callOpenAICompatibleApi,
    mbind, async_bind, bind, fetch, json, ok, mret, async_ret, ret, throw.
  destruct (whenTruthy (llm_api_key net)) as [apiKey|]; [|discriminate].
  intros H.
  assert (Hchat : exists data, chatText data = Some t).
  { revert H. destruct (eqb _ _).
    - destruct (geminiApi net _ _ _) as [|st [data|]]; simpl;
        try discriminate;
        destruct ((200 <=? st)%Z && (st <=? 299)%Z); simpl;
        try discriminate.
      intros H. exists data. exact H.
    - destruct (deepseekApi net _ _ _) as [|st [data|]]; simpl;
        try discriminate;
        destruct ((200 <=? st)%Z && (st <=? 299)%Z); simpl;
        try discriminate.
      intros H. exists data. exact H. }
  destruct Hchat as [data Hdata].
  destruct (chatText_trimmed data t Hdata) as [H1 H2].
  split; [exact H1|]. split; [exact H2 | discriminate].
Qed.

End Translations.


(** X16. [translateWithDeepSeek] never rejects. Without an API key in the
    settings it sends no request and resolves to [null]; with a key it
    sends one request with the translation prompt, to Gemini when the
    provider of the settings is [gemini] and to DeepSeek otherwise, also
    when no provider is set. A translation it resolves to is trimmed
    and not empty. *)
Theorem translateWithDeepSeek_requests
  (net : Dictionary.Network) (text : jsstring) (log : list Dictionary.Call) :
  exists r,
    Dictionary.translateWithDeepSeek net text log
    = (log
       ++ match Dictionary.whenTruthy (Dictionary.llm_api_key net) with
          | None => []
          | Some apiKey =>
              if eqb (orString (Dictionary.llm_provider net) (u "deepseek"))
                     (u "gemini")
              then [Dictionary.PostGemini apiKey
                      Dictionary.TRANSLATION_PROMPT text]
              else [Dictionary.PostDeepSeek apiKey
                      Dictionary.TRANSLATION_PROMPT text]
          end,
       Resolved r)
    /\ (Dictionary.whenTruthy (Dictionary.llm_api_key net) = None ->
        r = None)
    /\ (forall t, r = Some t -> t <> [] /\ trim t = t).
Proof.
  exists (Dictionary.llmAnswer net text).
  rewrite translateWithDeepSeek_run, llmCalls_provider.
  split; [reflexivity|]. split.
  - intros Hkey.
    destruct (Dictionary.llmAnswer net text) as [t|] eqn:E; [|reflexivity].
    destruct (llmAnswer_trimmed net text t E) as (_ & _ & H). congruence.
  - intros t Ht. destruct (llmAnswer_trimmed net text t Ht) as (H1 & H2 & _).
    split; assumption.
Qed.

(** ** The records of the two dictionaries *)

Section Records.

Import Dictionary.

Lemma orString_truthy (x : option jsstring) (d : jsstring) :
  d <> [] -> orString x d <> [].
Proof.
  intros Hd. unfold orString. destruct x as [s|]; [|exact Hd].
  destruct s; [exact Hd | discriminate].
Qed.

Lemma stripHtml_trimmed (html : jsstring) :
  trim (stripHtml html) = stripHtml html.
Proof.
  unfold stripHtml. destruct (truthy html); [|reflexivity].
  apply trim_idempotent.
Qed.

(** The record [parseWiktionaryEntries] makes. *)
Lemma parseWiktionaryEntries_record (text : jsstring)
  (entries : list WikiEntry) (d : DictData) :
  parseWiktionaryEntries text entries = Some d ->
  word d = Some (toLowerCase (trim text))
  /\ phonetic d = []
  /\ audioUrl d = None
  /\ source d = u "wiktionary"
  /\ meanings d <> []
  /\ Forall (fun m =>
               partOfSpeech m <> []
               /\ synonyms m = []
               /\ definitions m <> []
               /\ Forall (fun def =>
                            definition def <> []
                            /\ trim (definition def) = definition def
                            /\ (length (examples def) <= 3)%nat
                            /\ translationZh def = None)
                         (definitions m))
            (meanings d).
Proof.
  unfold parseWiktionaryEntries.
  match goal with
  | |- match ?ms with _ => _ end = _ -> _ =>
      set (found := ms); destruct found as [|m0 ms0] eqn:Hfound
  end; [discriminate|].
  intros [= <-]. simpl.
  repeat (split; [reflexivity|]). split; [discriminate|].
  rewrite <- Hfound. subst found. clear Hfound.
  apply Forall_forall. intros m Hm.
  apply list_elem_of_In, in_flat_map in Hm as (entry & _ & Hm).
  destruct (wiki_definitions entry) as [[|d0 ds]|]; try contradiction.
  match type of Hm with
  | In _ match ?defs with _ => _ end =>
      set (kept := defs) in Hm;
      assert (Hkept : forall def, In def kept ->
                definition def <> []
                /\ trim (definition def) = definition def
                /\ (length (examples def) <= 3)%nat
                /\ translationZh def = None)
  end.
  { intros def Hdef. subst kept.
    apply filter_In in Hdef as [Hdef Htruthy].
    apply in_map_iff in Hdef as (wd & <- & _). simpl in *.
    split; [intros E; rewrite E in Htruthy; discriminate Htruthy|].
    split; [apply stripHtml_trimmed|].
    split; [|reflexivity].
    rewrite length_map, length_take. lia. }
  destruct kept as [|k ks]; [contradiction|].
  destruct Hm as [<- | []]. simpl.
  split; [apply orString_truthy; discriminate|].
  split; [reflexivity|]. split; [discriminate|].
  apply Forall_forall. intros def Hdef. apply Hkept, list_elem_of_In, Hdef.
Qed.

Lemma parseWiktionaryResult_entries (text : jsstring)
  (data : WiktionaryJson) (d : DictData) :
  parseWiktionaryResult text data = Some d ->
  exists entries, parseWiktionaryEntries text entries = Some d.
Proof.
  unfold parseWiktionaryResult.
  destruct (truthyProperty data (u "en")) as [[[|e r]|b]|];
    try destruct (truthyProperty data (u "English")) as [[[|e' r']|b']|];
    try (intros H; eexists; exact H);
    destruct (find _ _) as [firstLang|]; try discriminate;
    destruct (truthy firstLang); try discriminate;
    destruct (property data firstLang) as [[es|b'']|]; try discriminate;
    intros H; eexists; exact H.
Qed.

Lemma wiktionaryAnswer_entries (net : Network) (text : jsstring)
  (d : DictData) :
  wiktionaryAnswer net text = Some d ->
  exists entries, parseWiktionaryEntries text entries = Some d.
Proof.
  unfold wiktionaryAnswer, answerOf, lookupWiktionary, encodeURIComponent,
    tryCatch,
    mbind, async_bind, bind, fetch, json, ok, mret, async_ret, ret, throw.
  destruct (isWellFormed _); [|discriminate].
  destruct (wiktionaryApi net _) as [|st [data|]]; simpl; try discriminate.
  - destruct ((200 <=? st)%Z && (st <=? 299)%Z); simpl.
    + apply parseWiktionaryResult_entries.
    + destruct (st =? 404)%Z; discriminate.
  - destruct ((200 <=? st)%Z && (st <=? 299)%Z); simpl;
      [|destruct (st =? 404)%Z]; discriminate.
Qed.

Lemma freeDictionaryAnswer_entry (net : Network) (w : jsstring)
  (d : DictData) :
  freeDictionaryAnswer net w = Some d ->
  exists st entry rest,
    freeDictionaryApi net (toLowerCase (trim w))
    = Response st (Some (Entries (entry :: rest)))
    /\ (200 <= st <= 299)%Z
    /\ d = {| word := api_word entry;
              phonetic := extractPhonetic entry;
              audioUrl := extractAudioUrl entry;
              meanings := extractMeanings entry;
              source := u "free-dictionary";
              originalWord := None |}.
Proof.
  unfold freeDictionaryAnswer, answerOf, lookupFreeDictionary,
    encodeURIComponent, tryCatch,
    mbind, async_bind, bind, fetch, json, ok, mret, async_ret, ret, throw.
  destruct (isWellFormed _); [|discriminate].
  destruct (freeDictionaryApi net _) as [|st [data|]]; simpl;
    try discriminate.
  - destruct ((200 <=? st)%Z && (st <=? 299)%Z) eqn:Hok; simpl.
    + destruct data as [|[|entry rest]]; simpl; try discriminate.
      intros [= <-]. exists st, entry, rest.
      apply andb_true_iff in Hok as [H1 H2].
      split; [reflexivity|]. split; [lia | reflexivity].
    + destruct (st =? 404)%Z; discriminate.
  - destruct ((200 <=? st)%Z && (st <=? 299)%Z); simpl;
      [|destruct (st =? 404)%Z]; discriminate.
Qed.

Lemma extractMeanings_shape (entry : ApiEntry) :
  length (extractMeanings entry) = length (default [] (api_meanings entry))
  /\ Forall (fun m =>
               partOfSpeech m <> []
               /\ (length (synonyms m) <= 5)%nat
               /\ Forall (fun def =>
                            (length (examples def) <= 1)%nat
                            /\ Forall (fun e => e <> []) (examples def)
                            /\ translationZh def = None)
                         (definitions m))
            (extractMeanings entry).
Proof.
  unfold extractMeanings. destruct (api_meanings entry) as [ms|]; simpl;
    [|split; [reflexivity | constructor]].
  split; [apply length_map|].
  apply Forall_forall. intros m Hm.
  apply list_elem_of_In, in_map_iff in Hm as (am & <- & _). simpl.
  split; [apply orString_truthy; discriminate|].
  split; [rewrite length_take; lia|].
  apply Forall_forall. intros def Hdef.
  apply list_elem_of_In, in_map_iff in Hdef as (ad & <- & _). simpl.
  unfold whenTruthy. destruct (api_example ad) as [e|]; simpl;
    [|split; [lia | split; [constructor | reflexivity]]].
  destruct (truthy e) eqn:E; simpl;
    [|split; [lia | split; [constructor | reflexivity]]].
  split; [lia|]. split; [|reflexivity].
  constructor; [|constructor]. destruct e; [discriminate | congruence].
Qed.

End Records.

(** X17. A record [lookupWiktionary] resolves to has the query, trimmed and
    in lower case, as its word, no phonetic, no audio and the source
    [wiktionary]; it has at least one meaning, and every meaning has a part
    of speech, no synonyms and at least one definition; every definition
    has a text that is not empty and is trimmed, and at most three
    examples. *)
Theorem lookupWiktionary_record
  (net : Dictionary.Network) (text : jsstring) (log : list Dictionary.Call)
  (d : Dictionary.DictData) :
  snd (Dictionary.lookupWiktionary net text log) = Resolved (Some d) ->
  Dictionary.word d = Some (toLowerCase (trim text))
  /\ Dictionary.phonetic d = []
  /\ Dictionary.audioUrl d = None
  /\ Dictionary.source d = u "wiktionary"
  /\ Dictionary.meanings d <> []
  /\ Forall (fun m =>
               Dictionary.partOfSpeech m <> []
               /\ Dictionary.synonyms m = []
               /\ Dictionary.definitions m <> []
               /\ Forall (fun def =>
                            Dictionary.definition def <> []
                            /\ trim (Dictionary.definition def)
                               = Dictionary.definition def
                            /\ (length (Dictionary.examples def) <= 3)%nat
                            /\ Dictionary.translationZh def = None)
                         (Dictionary.definitions m))
            (Dictionary.meanings d).
Proof.
  rewrite lookupWiktionary_run. simpl snd. intros [= H].
  destruct (wiktionaryAnswer_entries net text d H) as [entries Hentries].
  exact (parseWiktionaryEntries_record text entries d Hentries).
Qed.

Lemma lookupWiktionary_record_witness :
  exists d,
    snd (Dictionary.lookupWiktionary Sample.wikiNetwork (u " Ice  Cream ") [])
    = Resolved (Some d)
    /\ Dictionary.word d = Some (toLowerCase (trim (u " Ice  Cream ")))
    /\ Dictionary.source d = u "wiktionary"
    /\ Dictionary.meanings d <> [].
Proof.
  eexists. split; [vm_compute; reflexivity|].
  match goal with
  | |- Dictionary.word ?d = _ /\ _ =>
      destruct (lookupWiktionary_record Sample.wikiNetwork
                  (u " Ice  Cream ") [] d)
        as (Hword & _ & _ & Hsource & Hmeanings & _)
  end.
  - vm_compute. reflexivity.
  - split; [exact Hword|]. split; [exact Hsource | exact Hmeanings].
Defined.

(** X18. [lookupFreeDictionary] resolves to a record only when the service
    answered with a success status and an array that is not empty. The
    record is made of the first entry of the array: its word is the word of
    that entry, not the query, and its source is [free-dictionary]; it has
    a meaning for every meaning of the entry, each with a part of speech,
    at most five synonyms, and definitions of at most one example, which is
    not empty. *)
Theorem lookupFreeDictionary_record
  (net : Dictionary.Network) (w : jsstring) (log : list Dictionary.Call)
  (d : Dictionary.DictData) :
  snd (Dictionary.lookupFreeDictionary net w log) = Resolved (Some d) ->
  exists st entry rest,
    Dictionary.freeDictionaryApi net (toLowerCase (trim w))
    = Dictionary.Response st (Some (Dictionary.Entries (entry :: rest)))
    /\ (200 <= st <= 299)%Z
    /\ Dictionary.word d = Dictionary.api_word entry
    /\ Dictionary.source d = u "free-dictionary"
    /\ length (Dictionary.meanings d)
       = length (default [] (Dictionary.api_meanings entry))
    /\ Forall (fun m =>
                 Dictionary.partOfSpeech m <> []
                 /\ (length (Dictionary.synonyms m) <= 5)%nat
                 /\ Forall (fun def =>
                              (length (Dictionary.examples def) <= 1)%nat
                              /\ Forall (fun e => e <> [])
                                        (Dictionary.examples def)
                              /\ Dictionary.translationZh def = None)
                           (Dictionary.definitions m))
              (Dictionary.meanings d).
Proof.
  rewrite lookupFreeDictionary_run. simpl snd. intros [= H].
  destruct (freeDictionaryAnswer_entry net w d H)
    as (st & entry & rest & Hapi & Hst & ->).
  exists st, entry, rest. simpl.
  destruct (extractMeanings_shape entry) as [Hlen Hshape].
  repeat (split; [first [assumption | reflexivity]|]). exact Hshape.
Qed.

Lemma lookupFreeDictionary_record_witness :
  exists d st entry rest,
    snd (Dictionary.lookupFreeDictionary Sample.network (u " Run") [])
    = Resolved (Some d)
    /\ Dictionary.freeDictionaryApi Sample.network
         (toLowerCase (trim (u " Run")))
       = Dictionary.Response st (Some (Dictionary.Entries (entry :: rest)))
    /\ (200 <= st <= 299)%Z
    /\ Dictionary.word d = Dictionary.api_word entry
    /\ Dictionary.source d = u "free-dictionary".
Proof.
  eexists.
  match goal with
  | |- exists st entry rest, snd ?run = Resolved (Some ?d) /\ _ =>
      assert (Hrun : snd run = Resolved (Some d))
        by (vm_compute; reflexivity);
      destruct (lookupFreeDictionary_record Sample.network (u " Run") [] d
                  Hrun)
        as (st & entry & rest & Hapi & Hst & Hword & Hsource & _)
  end.
  exists st, entry, rest.
  repeat (split; [first [assumption | vm_compute; reflexivity]|]).
  exact Hsource.
Defined.

(** ** The translations of the definitions *)

Section Definitions.

Import Dictionary.

Context (net : Network).




End Definitions.


(** ** The lookup of a Chinese text *)

Section ChineseRequests.

Import Dictionary.

Context (net : Network).





Lemma chineseTranslation_truthy (chineseText english : jsstring) :
  chineseTranslation net chineseText = Some english -> english <> [].
Proof.
  assert (H : forall x, whenTruthy x = Some english -> english <> []).
  { intros [s|]; simpl; [|discriminate].
    destruct s; simpl; [discriminate|]. intros [= <-]. discriminate. }
  unfold chineseTranslation.
  destruct (whenTruthy (translationAnswer net chineseText (u "zh-CN|en")))
    as [e|] eqn:E.
  - intros [= <-]. exact (H _ E).
  - apply H.
Qed.

Lemma dictionaryAnswer_source (key : jsstring) (found : DictData) :
  dictionaryAnswer net key = Some found ->
  source found = u "free-dictionary" \/ source found = u "wiktionary".
Proof.
  unfold dictionaryAnswer.
  destruct (freeDictionaryAnswer net key) as [d|] eqn:E.
  - intros [= <-].
    destruct (freeDictionaryAnswer_entry net key d E)
      as (st & entry & rest & _ & _ & ->).
    left. reflexivity.
  - intros H. destruct (wiktionaryAnswer_entries net key found H)
      as [entries He].
    destruct (parseWiktionaryEntries_record key entries found He)
      as (_ & _ & _ & Hsource & _).
    right. exact Hsource.
Qed.

Lemma chineseResult_record (chineseText : jsstring) :
  chineseText <> [] ->
  exists d,
    dictData (chineseResult net chineseText) = Some d
    /\ inputType (chineseResult net chineseText) = Chinese
    /\ translation (chineseResult net chineseText) <> []
    /\ ((source d = u "translation-only"
         /\ word d = Some (toLowerCase (trim chineseText))
         /\ meanings d = []
         /\ originalWord d = None)
        \/ ((source d = u "free-dictionary" \/ source d = u "wiktionary")
            /\ word d = Some chineseText)).
Proof.
  intros Htext. unfold chineseResult.
  destruct (chineseTranslation net chineseText) as [english|] eqn:Ht.
  - pose proof (chineseTranslation_truthy chineseText english Ht) as He.
    destruct (dictionaryAnswer net (englishWordOf english)) as [found|]
      eqn:Hfound;
      eexists; (split; [reflexivity|]); (split; [reflexivity|]);
      (split; [exact He|]).
    + right. split; [|reflexivity].
      exact (dictionaryAnswer_source _ found Hfound).
    + left. repeat split.
  - eexists. split; [reflexivity|]. split; [reflexivity|].
    split; [exact Htext|]. left. repeat split.
Qed.

End ChineseRequests.



(** ** The record of a word or a phrase *)

Section Sources.

Import Dictionary Waterfall Tags.

Context (net : Network).

Lemma tierAnswer_tagged (q fetched : jsstring) (tier : Tier)
  (d : DictData) (tr : jsstring) :
  tierAnswer net q fetched tier = Some (d, tr) -> tagged q d.
Proof.
  destruct tier; simpl.
  - destruct (freeDictionaryAnswer net q) as [found|] eqn:E;
      [|discriminate].
    intros [= <- _].
    destruct (freeDictionaryAnswer_entry net q found E)
      as (st & entry & rest & _ & _ & ->).
    split; [left|]; reflexivity.
  - destruct (wiktionaryAnswer net q) as [found|] eqn:E; [|discriminate].
    intros [= <- _].
    destruct (wiktionaryAnswer_entries net q found E) as [entries He].
    destruct (parseWiktionaryEntries_record q entries found He)
      as (Hword & _ & _ & Hsource & Hmeanings & _).
    split; [right; left; auto|].
    unfold parseWiktionaryEntries in He.
    destruct (flat_map _ entries); [discriminate|].
    injection He as <-. reflexivity.
  - destruct (isTranslation fetched); [|discriminate].
    intros [= <- _]. split; [right; right; simpl; auto | reflexivity].
  - destruct (whenTruthy (llmAnswer net q)); [|discriminate].
    intros [= <- _]. split; [right; right; simpl; auto | reflexivity].
Qed.

Lemma waterfall_tagged (q fetched : jsstring) (tiers : list Tier)
  (d : DictData) (tr : jsstring) :
  snd (waterfall net q fetched tiers) = Some (d, tr) -> tagged q d.
Proof.
  induction tiers as [|tier rest IH]; simpl; [discriminate|].
  destruct (tierAnswer net q fetched tier) as [[d' tr']|] eqn:E.
  - simpl. intros [= <- _]. exact (tierAnswer_tagged q fetched tier _ _ E).
  - destruct (waterfall net q fetched rest) as [tried answer]. exact IH.
Qed.

End Sources.

(** X21. The record of the lookup of a word or a phrase, when there is
    one, comes from the Free Dictionary, or from Wiktionary with the query
    in lower case as its word, or has no meanings, the query in lower case
    as its word and the source [translation-only] or [deepseek];
    [deepseek] is the source of a record of the language model whichever
    provider answered. The record has no original word, and the result has
    the class of the query. *)
Theorem lookupWord_record_tagged
  (net : Dictionary.Network) (text : jsstring) (log : list Dictionary.Call) :
  Dictionary.detectInputType text <> Dictionary.Chinese ->
  exists calls r,
    Dictionary.lookupWord net text log = (log ++ calls, Resolved r)
    /\ Dictionary.inputType r = Dictionary.detectInputType text
    /\ forall d, Dictionary.dictData r = Some d -> Tags.tagged text d.
Proof.
  intros Hclass. eexists. eexists.
  split; [apply (lookupWord_run net text log Hclass)|].
  split; [reflexivity|].
  intros d. unfold Waterfall.resultOf. simpl.
  destruct (snd (Waterfall.waterfall net (trim text)
                   (Dictionary.fetchedTranslation net (trim text))
                   (Waterfall.tiersOf (Dictionary.detectInputType text))))
    as [[found tr]|] eqn:E; simpl; [|discriminate].
  intros [= <-].
  pose proof (waterfall_tagged net _ _ _ _ _ E) as [Hsource Horiginal].
  unfold Tags.tagged, Dictionary.annotated. simpl.
  rewrite trim_idempotent in Hsource. split; [|exact Horiginal].
  destruct Hsource as [H | [(H1 & H2 & H3) | (H1 & H2 & H3)]].
  - left. exact H.
  - right. left. split; [exact H1|]. split; [|exact H3].
    destruct (Dictionary.meanings found); [congruence | discriminate].
  - right. right. split; [exact H1|]. split; [|exact H3].
    rewrite H2. reflexivity.
Qed.

Lemma lookupWord_record_tagged_witness :
  Dictionary.detectInputType (u " Ice  Cream ") <> Dictionary.Chinese
  /\ exists calls r,
       Dictionary.lookupWord Sample.wikiNetwork (u " Ice  Cream ") []
       = ([] ++ calls, Resolved r)
       /\ Dictionary.inputType r
          = Dictionary.detectInputType (u " Ice  Cream ")
       /\ forall d, Dictionary.dictData r = Some d ->
                    Tags.tagged (u " Ice  Cream ") d.
Proof.
  assert (H : Dictionary.detectInputType (u " Ice  Cream ")
              <> Dictionary.Chinese) by (vm_compute; discriminate).
  split; [exact H|].
  exact (lookupWord_record_tagged Sample.wikiNetwork (u " Ice  Cream ") [] H).
Defined.

(** ** The search of the dictionary page *)

Section Search.

Import Storage Main.

Context (net : Dictionary.Network) (now : Z).


Lemma handleSearch_run (input : jsstring) (w : World) :
  handleSearch net now input w
  = if negb (truthy (trim input)) then (w, Resolved NoSearch)
    else
      match store w !! toLowerCase (trim input) with
      | Some entry =>
          ({| store := store w;
              requests := requests w;
              currentSaveKey := Some (word entry) |},
           Resolved (FromCache entry
                       (Dictionary.detectInputType (trim input))))
      | None =>
          match Dictionary.lookupWord net (trim input) (requests w) with
          | (log, Rejected _) =>
              ({| store := store w;
                  requests := log;
                  currentSaveKey := currentSaveKey w |},
               Resolved SearchFailed)
          | (log, Resolved result) =>
              match Dictionary.dictData result with
              | None =>
                  ({| store := store w;
                      requests := log;
                      currentSaveKey := currentSaveKey w |},
                   Resolved (NotFound (Dictionary.inputType result)))
              | Some d =>
                  match Dictionary.word d with
                  | None =>
                      ({| store := store w;
                          requests := log;
                          currentSaveKey := None |},
                       Resolved SearchFailed)
                  | Some k =>
                      ({| store :=
                            match store w !! toLowerCase k with
                            | Some _ => store w
                            | None =>
                                fst (saveWord now
                                       {| WordData.word := k;
                                          WordData.phonetic :=
                                            Some (Dictionary.phonetic d);
                                          WordData.audioUrl :=
                                            Dictionary.whenTruthy
                                              (Dictionary.audioUrl d);
                                          WordData.meanings :=
                                            Some (Dictionary.meanings d);
                                          WordData.translation :=
                                            Some (Dictionary.translation
                                                    result) |}
                                       (store w))
                            end;
                          requests := log;
                          currentSaveKey := Some k |},
                       Resolved
                         (Found d (Dictionary.translation result)
                            (bool_decide
                               (is_Some (store w !! toLowerCase k)))
                            (Dictionary.inputType result)))
                  end
              end
          end
      end.
Proof.
  unfold handleSearch. destruct (negb (truthy (trim input))); [reflexivity|].
  unfold tryCatch, mbind, async_bind, bind.
  unfold onStore at 1, getWord, get, gets. simpl.
  destruct (store w !! toLowerCase (trim input)) as [entry|] eqn:Hcached.
  - reflexivity.
  - unfold onNetwork at 1. simpl.
    destruct (Dictionary.lookupWord net (trim input) (requests w))
      as [log [result|e]]; [|reflexivity].
    destruct (Dictionary.dictData result) as [d|]; [|reflexivity].
    unfold setCurrentSaveKey, modify, withString.
    destruct (Dictionary.word d) as [k|]; [|reflexivity].
    unfold onStore at 1. simpl.
    destruct (store w !! toLowerCase k) as [existing|]; reflexivity.
Qed.


End Search.


Lemma handleSearch_cached
  (net : Dictionary.Network) (now : Z) (input : jsstring)
  (w : Main.World) (entry : Storage.WordEntry) :
  trim input <> [] ->
  Main.store w !! toLowerCase (trim input) = Some entry ->
  Main.handleSearch net now input w
  = ({| Main.store := Main.store w;
        Main.requests := Main.requests w;
        Main.currentSaveKey := Some (Storage.word entry) |},
     Resolved (Main.FromCache entry (Dictionary.detectInputType input))).
Proof.
  intros Htext Hcached. rewrite handleSearch_run, Hcached.
  destruct (trim input) as [|c r] eqn:E; [congruence|]. simpl negb.
  cbv iota. rewrite <- E. unfold Dictionary.detectInputType.
  rewrite trim_idempotent. reflexivity.
Qed.

(** X22. A search for a text whose lower-case form is the key of a stored
    record is answered from the store: no request is sent, the store stays
    as it is, the record is shown and its word becomes the current key. *)
Theorem handleSearch_from_cache
  (net : Dictionary.Network) (now : Z) (input : jsstring)
  (w : Main.World) (entry : Storage.WordEntry) :
  trim input <> [] ->
  Main.store w !! toLowerCase (trim input) = Some entry ->
  Main.handleSearch net now input w
  = ({| Main.store := Main.store w;
        Main.requests := Main.requests w;
        Main.currentSaveKey := Some (Storage.word entry) |},
     Resolved (Main.FromCache entry (Dictionary.detectInputType input))).
Proof.
  intros Htext Hcached. rewrite handleSearch_run, Hcached.
  destruct (trim input) as [|c r] eqn:E; [congruence|]. simpl negb.
  cbv iota. rewrite <- E. unfold Dictionary.detectInputType.
  rewrite trim_idempotent. reflexivity.
Qed.

Lemma handleSearch_from_cache_witness :
  exists entry,
    Main.handleSearch Sample.deadNetwork 7000 (u " RUN ")
      {| Main.store := Sample.oneWord;
         Main.requests := [];
         Main.currentSaveKey := None |}
    = ({| Main.store := Sample.oneWord;
          Main.requests := [];
          Main.currentSaveKey := Some (Storage.word entry) |},
       Resolved (Main.FromCache entry
                   (Dictionary.detectInputType (u " RUN ")))).
Proof.
  destruct oneWord_entry as (e & He & _).
  exists e.
  apply (handleSearch_from_cache Sample.deadNetwork 7000 (u " RUN ")
           {| Main.store := Sample.oneWord;
              Main.requests := [];
              Main.currentSaveKey := None |} e).
  - vm_compute. discriminate.
  - exact He.
Defined.


Section SearchAgain.

Import Dictionary.

Context (net : Network).

(** The word of the record of a lookup is the query, but for its case,
    unless the record is one of the Free Dictionary for a word or a
    phrase. *)
Lemma lookupWord_word (text : jsstring) (log log' : list Call)
  (r : LookupResult) (d : DictData) :
  lookupWord net text log = (log', Resolved r) ->
  dictData r = Some d ->
  inputType r = Chinese \/ source d <> u "free-dictionary" ->
  exists k, word d = Some k /\ toLowerCase k = toLowerCase (trim text).
Proof.
  intros Hrun Hd Hsource.
  destruct (detectInputType text) eqn:Hclass.
  1, 2: rewrite lookupWord_run in Hrun by (rewrite Hclass; discriminate);
    injection Hrun as _ <-; simpl in Hd, Hsource;
    destruct Hsource as [Hsource | Hsource]; [congruence|];
    destruct (snd (Waterfall.waterfall net (trim text)
                     (fetchedTranslation net (trim text))
                     (Waterfall.tiersOf (detectInputType text))))
      as [[found tr]|] eqn:E; simpl in Hd; [|discriminate];
    injection Hd as <-;
    destruct (waterfall_tagged net _ _ _ _ _ E)
      as [[H | [(_ & _ & H) | (_ & _ & H)]] _];
    simpl in *; try congruence;
    (eexists; split; [exact H|]);
    rewrite trim_idempotent; apply toLowerCase_idempotent.
  rewrite lookupWord_dispatch, Hclass, handleChineseLookup_run in Hrun.
  injection Hrun as _ <-.
  assert (Htext : trim text <> []).
  { unfold detectInputType in Hclass. intros E. rewrite E in Hclass.
    discriminate Hclass. }
  destruct (chineseResult_record net (trim text) Htext)
    as (d' & Hd' & _ & _ & Hword).
  rewrite Hd in Hd'. injection Hd' as <-.
  rewrite trim_idempotent in Hword.
  destruct Hword as [(_ & Hword & _) | (_ & Hword)];
    (eexists; split; [exact Hword|]);
    [apply toLowerCase_idempotent | reflexivity].
Qed.

End SearchAgain.

(** X24. When a search has found a record that is not one of the Free
    Dictionary, or has found a record for a Chinese text, the same search
    again is answered from the store, whatever the network does: no
    request is sent and the store stays as it is. *)
Theorem handleSearch_again
  (net net' : Dictionary.Network) (now now' : Z) (input : jsstring)
  (w w' : Main.World) (d : Dictionary.DictData) (tr : jsstring)
  (isSaved : bool) (t : Dictionary.InputType) :
  Main.handleSearch net now input w
  = (w', Resolved (Main.Found d tr isSaved t)) ->
  t = Dictionary.Chinese
  \/ Dictionary.source d <> u "free-dictionary" ->
  exists e,
    Main.store w' !! toLowerCase (trim input) = Some e
    /\ Main.handleSearch net' now' input w'
       = ({| Main.store := Main.store w';
             Main.requests := Main.requests w';
             Main.currentSaveKey := Some (Storage.word e) |},
          Resolved (Main.FromCache e (Dictionary.detectInputType input))).
Proof.
  intros Hrun Hsource. rewrite handleSearch_run in Hrun.
  destruct (trim input) as [|c s] eqn:Htext; [discriminate Hrun|].
  simpl negb in Hrun. cbv iota in Hrun. rewrite <- Htext in *.
  destruct (Main.store w !! toLowerCase (trim input)) as [entry|];
    [discriminate Hrun|].
  destruct (Dictionary.lookupWord net (trim input) (Main.requests w))
    as [log [result|err]] eqn:Hlookup; [|discriminate Hrun].
  destruct (Dictionary.dictData result) as [found|] eqn:Hfound;
    [|discriminate Hrun].
  destruct (Dictionary.word found) as [key|] eqn:Hkey;
    [|discriminate Hrun].
  injection Hrun as <- <- <- <- <-.
  destruct (lookupWord_word net (trim input) _ _ result found
              Hlookup Hfound Hsource) as (k & Hk & Hword).
  rewrite Hkey in Hk. injection Hk as <-.
  rewrite trim_idempotent in Hword. cbn [Main.store].
  assert (Hstored : exists e,
            match Main.store w !! toLowerCase key with
            | Some _ => Main.store w
            | None =>
                fst (Storage.saveWord now
                       {| Storage.WordData.word := key;
                          Storage.WordData.phonetic :=
                            Some (Dictionary.phonetic found);
                          Storage.WordData.audioUrl :=
                            Dictionary.whenTruthy
                              (Dictionary.audioUrl found);
                          Storage.WordData.meanings :=
                            Some (Dictionary.meanings found);
                          Storage.WordData.translation :=
                            Some (Dictionary.translation result) |}
                       (Main.store w))
            end !! toLowerCase (trim input) = Some e).
  { rewrite <- Hword.
    destruct (Main.store w !! toLowerCase key)
      as [existing|] eqn:E; [eauto|].
    unfold Storage.saveWord, Storage.put, modify. simpl fst.
    cbn [Storage.WordData.word Storage.word].
    eexists. apply lookup_insert_eq. }
  destruct Hstored as [e He]. exists e. split; [exact He|].
  apply handleSearch_cached; [|exact He].
  rewrite Htext. discriminate.
Qed.

Lemma handleSearch_again_witness :
  exists e,
    Main.store
      (fst (Main.handleSearch Sample.wikiNetwork 1000 (u " Ice  Cream ")
              {| Main.store := ∅;
                 Main.requests := [];
                 Main.currentSaveKey := None |}))
      !! toLowerCase (trim (u " Ice  Cream ")) = Some e
    /\ Main.handleSearch Sample.deadNetwork 2000 (u " Ice  Cream ")
         (fst (Main.handleSearch Sample.wikiNetwork 1000 (u " Ice  Cream ")
                 {| Main.store := ∅;
                    Main.requests := [];
                    Main.currentSaveKey := None |}))
       = ({| Main.store :=
               Main.store
                 (fst (Main.handleSearch Sample.wikiNetwork 1000
                         (u " Ice  Cream ")
                         {| Main.store := ∅;
                            Main.requests := [];
                            Main.currentSaveKey := None |}));
             Main.requests :=
               Main.requests
                 (fst (Main.handleSearch Sample.wikiNetwork 1000
                         (u " Ice  Cream ")
                         {| Main.store := ∅;
                            Main.requests := [];
                            Main.currentSaveKey := None |}));
             Main.currentSaveKey := Some (Storage.word e) |},
          Resolved (Main.FromCache e
                      (Dictionary.detectInputType (u " Ice  Cream ")))).
Proof.
  eapply (handleSearch_again Sample.wikiNetwork Sample.deadNetwork 1000 2000
            (u " Ice  Cream ")
            {| Main.store := ∅;
               Main.requests := [];
               Main.currentSaveKey := None |}).
  - rewrite handleSearch_run. reflexivity.
  - right. simpl. discriminate.
Defined.

(** ** Retranslation *)

Section Retranslation.

Import Storage Main.

Context (net : Dictionary.Network).





End Retranslation.



(** ** The review session *)

Section ReviewSession.

Import Storage Ebbinghaus Due Main.

(** A word that has just been reviewed is not due before a day has
    passed, whatever its level was. *)
Lemma reviewed_not_due (now t : Z) (remembered : bool) (e : WordEntry) :
  (t < now + DAY)%Z ->
  notAfter (nextReviewAt (reviewed now remembered e)) t
  && learning (reviewed now remembered e) = false.
Proof.
  intros Ht. unfold reviewed, learning. simpl nextReviewAt. simpl level.
  change (Z.of_nat (length REVIEW_INTERVALS)) with 6%Z.
  change (Z.of_nat 6) with 6%Z.
  set (newLevel := if remembered then Z.min (level e + 1) 6 else 0%Z).
  destruct (Z.ltb_spec newLevel 6) as [Hlt|Hge]; [|apply andb_false_r].
  rewrite andb_true_r.
  destruct (Z.ltb_spec newLevel 0) as [Hneg|Hpos].
  - unfold getNextReviewDate, intervalAt.
    change (Z.of_nat (length REVIEW_INTERVALS)) with 6%Z.
    destruct (Z.leb_spec 6 newLevel); [lia|].
    destruct (Z.ltb_spec newLevel 0); [reflexivity | lia].
  - rewrite getNextReviewDate_days by lia. simpl. apply Z.leb_gt.
    assert (DAY <= intervalDays newLevel * DAY)%Z; [|lia].
    assert (newLevel = 0 \/ newLevel = 1 \/ newLevel = 2 \/ newLevel = 3
            \/ newLevel = 4 \/ newLevel = 5)%Z as Hl by lia.
    unfold DAY.
    destruct Hl as [->|[->|[->|[->|[->| ->]]]]]; simpl; lia.
Qed.

(** One answer, when the card at the index of the session is a stored
    record. *)
Lemma handleReviewAction_run (now : Z) (remembered : bool) (s : Session)
  (db : ObjectStore) (e : WordEntry) :
  lowerKeyed db ->
  reviewQueue s !! reviewIndex s = Some e ->
  db !! word e = Some e ->
  handleReviewAction now remembered s db
  = (<[word e := reviewed now remembered e]> db,
     Resolved
       {| reviewQueue := reviewQueue s;
          reviewIndex := S (reviewIndex s);
          reviewRemembered :=
            if remembered then S (reviewRemembered s)
            else reviewRemembered s;
          reviewForgot :=
            if remembered then reviewForgot s else S (reviewForgot s) |}).
Proof.
  intros Hdb Hcard He. unfold handleReviewAction. rewrite Hcard.
  pose proof (proj2 (Hdb _ _ He)) as Hlow.
  unfold mbind, async_bind, bind.
  rewrite (markAsReviewed_run now (word e) remembered db
             (lowerKeyed_keyed db Hdb)), Hlow, He.
  cbn [reviewQueue reviewIndex].
  destruct (length (reviewQueue s) <=? S (reviewIndex s))%nat; reflexivity.
Qed.

(** The answers to the cards that are left, when these are stored records
    of different words. *)
Lemma answerAll_run (answers : list (Z * bool)) :
  forall (done rest : list WordEntry) (s : Session) (db : ObjectStore),
    reviewQueue s = done ++ rest ->
    reviewIndex s = length done ->
    length answers = length rest ->
    lowerKeyed db ->
    NoDup (map word rest) ->
    (forall e, In e rest -> db !! word e = Some e) ->
    exists db' s',
      answerAll answers s db = (db', Resolved s')
      /\ reviewQueue s' = reviewQueue s
      /\ reviewIndex s' = length (reviewQueue s)
      /\ (reviewRemembered s' + reviewForgot s'
          = reviewRemembered s + reviewForgot s + length rest)%nat
      /\ (forall k, ~ In k (map word rest) -> db' !! k = db !! k)
      /\ (forall e, In e rest ->
            exists a, In a answers
                      /\ db' !! word e = Some (reviewed a.1 a.2 e)).
Proof.
  induction answers as [|[now remembered] later IH];
    intros done rest s db Hqueue Hindex Hlen Hdb Hwords Hstored.
  - destruct rest; [|discriminate Hlen]. exists db, s. simpl.
    rewrite Hqueue, app_nil_r, Hindex.
    split; [reflexivity|]. split; [reflexivity|]. split; [reflexivity|].
    split; [lia|]. split; [reflexivity|]. intros e [].
  - destruct rest as [|e rest]; [discriminate Hlen|].
    simpl in Hlen. injection Hlen as Hlen.
    apply NoDup_cons in Hwords as [Hfresh Hwords].
    assert (He : db !! word e = Some e) by (apply Hstored; left; reflexivity).
    assert (Hcard : reviewQueue s !! reviewIndex s = Some e).
    { rewrite Hqueue, Hindex. apply list_lookup_middle. reflexivity. }
    simpl answerAll. unfold mbind, async_bind, bind.
    rewrite (handleReviewAction_run now remembered s db e Hdb Hcard He).
    destruct (IH (done ++ [e]) rest
                 {| reviewQueue := reviewQueue s;
                    reviewIndex := S (reviewIndex s);
                    reviewRemembered :=
                      if remembered then S (reviewRemembered s)
                      else reviewRemembered s;
                    reviewForgot :=
                      if remembered then reviewForgot s
                      else S (reviewForgot s) |}
                 (<[word e := reviewed now remembered e]> db))
      as (db' & s' & Hrun & Hq & Hi & Hcount & Hother & Hreviewed).
    + simpl. rewrite Hqueue, <- app_assoc. reflexivity.
    + simpl. rewrite Hindex, length_app. simpl. lia.
    + exact Hlen.
    + apply lowerKeyed_insert; [reflexivity | apply (Hdb _ _ He) | exact Hdb].
    + exact Hwords.
    + intros e' Hin. rewrite lookup_insert_ne.
      * apply Hstored. right. exact Hin.
      * intros E. apply Hfresh. rewrite E.
        apply list_elem_of_In, in_map, Hin.
    + exists db', s'. simpl in *.
      split; [exact Hrun|]. split; [exact Hq|]. split; [exact Hi|].
      split; [destruct remembered; lia|]. split.
      * intros k Hk. rewrite Hother by tauto.
        apply lookup_insert_ne. tauto.
      * intros e' [<- | Hin].
        -- exists (now, remembered). split; [left; reflexivity|].
           rewrite Hother by (intros H; apply Hfresh, list_elem_of_In, H).
           apply lookup_insert_eq.
        -- destruct (Hreviewed e' Hin) as (a & Ha & Hstore).
           exists a. split; [right; exact Ha | exact Hstore].
Qed.

(** The words of the records of a keyed store are all different. *)
Lemma allWords_NoDup (db : ObjectStore) :
  keyed db -> NoDup (map word (allWords db)).
Proof.
  intros Hkeyed. unfold allWords.
  assert (H : map word (map snd (map_to_list db)) = (map_to_list db).*1).
  { assert (Hin : forall k e, (k, e) ∈ map_to_list db -> word e = k).
    { intros k e Hke. apply elem_of_map_to_list in Hke.
      exact (Hkeyed _ _ Hke). }
    induction (map_to_list db) as [|[k e] l IH]; [reflexivity|].
    simpl. rewrite (Hin k e) by left. f_equal. apply IH.
    intros k' e' Hke. apply Hin. right. exact Hke. }
  rewrite H. apply NoDup_fst_map_to_list.
Qed.

Lemma filter_words_NoDup (p : WordEntry -> bool) (l : list WordEntry) :
  NoDup (map word l) -> NoDup (map word (List.filter p l)).
Proof.
  induction l as [|x r IH]; simpl; [auto|].
  intros H. apply NoDup_cons in H as [Hx Hr].
  destruct (p x); [|exact (IH Hr)].
  simpl. apply NoDup_cons. split; [|exact (IH Hr)].
  intros Hin. apply Hx. apply list_elem_of_In in Hin.
  apply in_map_iff in Hin as (y & Hy & Hin). apply filter_In in Hin as [Hin _].
  apply list_elem_of_In. rewrite <- Hy. apply in_map. exact Hin.
Qed.

End ReviewSession.

(** X26. A review session that is answered to its end. The queue is the
    list of the words due when the session starts, in any order. Once every
    card has been answered, the index and the two counts of the session add
    up to the length of the queue, every word of the queue has been
    reviewed once, with one of the answers, and every other record is as it
    was. As long as less than a day has passed since each answer, no word
    of the session is due again; at the time the session started nothing is
    due any more. *)
Theorem review_session_completes
  (db : Storage.ObjectStore) (now0 t : Z)
  (shuffle : list Storage.WordEntry -> list Storage.WordEntry)
  (s0 : Main.Session) (answers : list (Z * bool))
  (due : list Storage.WordEntry) :
  Due.lowerKeyed db ->
  (forall l, Permutation (shuffle l) l) ->
  snd (Due.getDueWords now0 db) = Resolved due ->
  due <> [] ->
  length answers = length due ->
  Forall (fun a => (t < a.1 + Storage.DAY)%Z) answers ->
  exists db' s' due',
    (s ← Main.refreshReview now0 shuffle s0; Main.answerAll answers s) db
    = (db', Resolved s')
    /\ Main.reviewIndex s' = length due
    /\ (Main.reviewRemembered s' + Main.reviewForgot s' = length due)%nat
    /\ (forall e, In e due ->
          exists a, In a answers
                    /\ db' !! Storage.word e
                       = Some (Due.reviewed a.1 a.2 e))
    /\ (forall k e, db !! k = Some e -> ~ In e due -> db' !! k = Some e)
    /\ (forall k, db !! k = None -> db' !! k = None)
    /\ snd (Due.getDueWords t db') = Resolved due'
    /\ (forall x, In x due' -> ~ In x due /\ In x (Due.allWords db))
    /\ ((t <= now0)%Z -> due' = []).
Proof.
  intros Hdb Hshuffle Hdue Hne Hlen Hsoon.
  pose proof (lowerKeyed_keyed db Hdb) as Hkeyed.
  rewrite getDueWords_run in Hdue. simpl in Hdue. injection Hdue as Hdue.
  assert (Hqueue : forall e, In e (shuffle due) <-> In e due).
  { intros e. split; apply Permutation_in;
      [apply Hshuffle | symmetry; apply Hshuffle]. }
  assert (Hstored : forall e, In e due -> db !! Storage.word e = Some e).
  { intros e He. rewrite <- Hdue in He. apply filter_In in He as [He _].
    apply allWords_lookup in He as [k Hk].
    rewrite (Hkeyed _ _ Hk). exact Hk. }
  assert (Hwords : NoDup (map Storage.word (shuffle due))).
  { rewrite (Permutation_map Storage.word (Hshuffle due)), <- Hdue.
    apply filter_words_NoDup, allWords_NoDup, Hkeyed. }
  assert (Hrefresh :
            Main.refreshReview now0 shuffle s0 db
            = (db, Resolved {| Main.reviewQueue := shuffle due;
                               Main.reviewIndex := 0;
                               Main.reviewRemembered := 0;
                               Main.reviewForgot := 0 |})).
  { unfold Main.refreshReview, tryCatch, mbind, async_bind, bind.
    rewrite getDueWords_run, Hdue.
    destruct due; [congruence | reflexivity]. }
  destruct (answerAll_run answers [] (shuffle due)
              {| Main.reviewQueue := shuffle due;
                 Main.reviewIndex := 0;
                 Main.reviewRemembered := 0;
                 Main.reviewForgot := 0 |} db)
    as (db' & s' & Hrun & _ & Hindex & Hcount & Hother & Hreviewed);
    try reflexivity.
  { rewrite Hlen. symmetry. apply Permutation_length, Hshuffle. }
  { exact Hdb. }
  { exact Hwords. }
  { intros e He. apply Hstored, Hqueue, He. }
  simpl in Hindex, Hcount.
  rewrite (Permutation_length (Hshuffle due)) in Hindex, Hcount.
  assert (Hkey : forall k, In k (map Storage.word (shuffle due)) ->
                           exists e, In e due /\ Storage.word e = k).
  { intros k Hk. apply in_map_iff in Hk as (e & <- & He).
    exists e. split; [apply Hqueue, He | reflexivity]. }
  assert (Hunchanged : forall k e, db !! k = Some e -> ~ In e due ->
                                   db' !! k = Some e).
  { intros k e Hk Hnot. rewrite Hother; [exact Hk|].
    intros Hin. destruct (Hkey k Hin) as (e' & He' & <-).
    rewrite (Hstored e' He') in Hk. congruence. }
  assert (Hlate : forall x, In x (Due.allWords db') ->
            Due.notAfter (Storage.nextReviewAt x) t && Due.learning x = true ->
            ~ In x due /\ In x (Due.allWords db)).
  { intros x Hx Hpred. apply allWords_lookup in Hx as [k Hk].
    destruct (decide (k ∈ map Storage.word (shuffle due))) as [Hin|Hout].
    - exfalso. apply list_elem_of_In in Hin.
      destruct (Hkey k Hin) as (e & He & <-).
      destruct (Hreviewed e (proj2 (Hqueue e) He)) as (a & Ha & Hstore).
      rewrite Hstore in Hk. injection Hk as <-.
      rewrite reviewed_not_due in Hpred; [discriminate Hpred|].
      rewrite Forall_forall in Hsoon. apply Hsoon, list_elem_of_In, Ha.
    - rewrite Hother in Hk by (intros H; apply Hout, list_elem_of_In, H).
      split; [|apply allWords_lookup; eauto].
      intros Hx. apply Hout, list_elem_of_In, in_map_iff.
      exists x. split; [|apply Hqueue, Hx].
      exact (Hkeyed _ _ Hk). }
  exists db', s',
    (List.filter
       (fun w => Due.notAfter (Storage.nextReviewAt w) t && Due.learning w)
       (Due.allWords db')).
  split.
  { unfold mbind, async_bind, bind. rewrite Hrefresh. exact Hrun. }
  split; [exact Hindex|]. split; [exact Hcount|]. split.
  { intros e He. apply Hreviewed, Hqueue, He. }
  split; [exact Hunchanged|]. split.
  { intros k Hk. rewrite Hother; [exact Hk|].
    intros Hin. destruct (Hkey k Hin) as (e & He & <-).
    rewrite (Hstored e He) in Hk. discriminate Hk. }
  split; [rewrite getDueWords_run; reflexivity|]. split.
  { intros x Hx. apply filter_In in Hx as [Hx Hpred].
    exact (Hlate x Hx Hpred). }
  intros Hearly.
  destruct (List.filter _ (Due.allWords db')) as [|x r] eqn:E;
    [reflexivity|].
  exfalso.
  assert (Hx : In x (x :: r)) by (left; reflexivity).
  rewrite <- E in Hx. apply filter_In in Hx as [Hx Hpred].
  destruct (Hlate x Hx Hpred) as [Hnot Hold]. apply Hnot.
  rewrite <- Hdue. apply filter_In. split; [exact Hold|].
  apply andb_true_iff in Hpred as [Hpast Hlearning].
  apply andb_true_iff. split; [|exact Hlearning].
  unfold Due.notAfter in *.
  destruct (Storage.nextReviewAt x); [|discriminate Hpast].
  apply Z.leb_le in Hpast. apply Z.leb_le. lia.
Qed.

Lemma review_session_completes_witness :
  exists db' s' due',
    (s ← Main.refreshReview 86401000 (fun l => l)
           {| Main.reviewQueue := [];
              Main.reviewIndex := 0;
              Main.reviewRemembered := 0;
              Main.reviewForgot := 0 |};
     Main.answerAll [(86401005%Z, true)] s) Sample.oneWord
    = (db', Resolved s')
    /\ Main.reviewIndex s' = 1%nat
    /\ (Main.reviewRemembered s' + Main.reviewForgot s' = 1)%nat
    /\ snd (Due.getDueWords 86401000 db') = Resolved due'
    /\ due' = [].
Proof.
  assert (H : { due | snd (Due.getDueWords 86401000 Sample.oneWord)
                      = Resolved due
                      /\ due <> []
                      /\ length [(86401005%Z, true)] = length due }).
  { eexists. split; [vm_compute; reflexivity|].
    split; [discriminate | reflexivity]. }
  destruct H as (due & Hdue & Hne & Hlen).
  destruct (review_session_completes Sample.oneWord 86401000 86401000
              (fun l => l)
              {| Main.reviewQueue := [];
                 Main.reviewIndex := 0;
                 Main.reviewRemembered := 0;
                 Main.reviewForgot := 0 |}
              [(86401005%Z, true)] due)
    as (db' & s' & due' & Hrun & Hindex & Hcount & _ & _ & _ & Hlist & _
        & Hempty).
  - apply evolved_lowerKeyed, Due.evolved_saveWord, Due.evolved_empty.
  - intros l. apply Permutation_refl.
  - exact Hdue.
  - exact Hne.
  - exact Hlen.
  - constructor; [unfold Storage.DAY; simpl; lia | constructor].
  - exists db', s', due'. simpl in Hlen. rewrite <- Hlen in Hindex, Hcount.
    split; [exact Hrun|]. split; [exact Hindex|]. split; [exact Hcount|].
    split; [exact Hlist|]. apply Hempty. lia.
Defined.

(** ** Text without tags *)

Section Stripping.

Import Html.

Lemma closes_app (a b : jsstring) : closes (a ++ b) = closes a || closes b.
Proof. apply existsb_app. Qed.

(** A string without [>] has no tag. *)
Lemma tagFree_open (s : jsstring) : closes s = false -> tagFree s = true.
Proof.
  induction s as [|c r IH]; [reflexivity|].
  intros H. unfold closes in H. simpl in H.
  apply orb_false_iff in H as [_ H]. fold (closes r) in H.
  cbn [tagFree]. rewrite H, (IH H). destruct (c =? 0x3C); reflexivity.
Qed.

(** What [removeTags] returns has no tag; the pending code units have no
    [>]. *)
Lemma removeTags_tagFree (s : jsstring) :
  forall pending : option jsstring,
    match pending with
    | Some p => closes p = false
    | None => True
    end ->
    tagFree (removeTags pending s) = true.
Proof.
  induction s as [|c r IH]; intros [p|] Hp; simpl.
  - apply tagFree_open. unfold closes. rewrite existsb_rev. exact Hp.
  - reflexivity.
  - destruct (c =? 0x3E) eqn:E; [apply IH; exact I|].
    apply IH. simpl. rewrite E. exact Hp.
  - destruct (c =? 0x3C) eqn:E.
    + apply IH. simpl. apply N.eqb_eq in E as ->. reflexivity.
    + simpl. rewrite E. apply IH. exact I.
Qed.

(** [removeTags] with a tag pending, on a string without [>]. *)
Lemma removeTags_open (s : jsstring) :
  forall p : jsstring,
    closes s = false -> removeTags (Some p) s = rev p ++ s.
Proof.
  induction s as [|c r IH]; intros p H; simpl.
  - rewrite app_nil_r. reflexivity.
  - simpl in H. apply orb_false_iff in H as [Hc H]. rewrite Hc.
    rewrite (IH (c :: p) H). simpl. rewrite <- app_assoc. reflexivity.
Qed.

(** [removeTags] leaves a string without tags as it is. *)
Lemma removeTags_id (s : jsstring) :
  tagFree s = true -> removeTags None s = s.
Proof.
  induction s as [|c r IH]; [reflexivity|]. cbn [tagFree removeTags].
  intros H. apply andb_true_iff in H as [Hc Hr].
  destruct (c =? 0x3C).
  - apply negb_true_iff in Hc. rewrite (removeTags_open r [c] Hc).
    reflexivity.
  - rewrite (IH Hr). reflexivity.
Qed.

Lemma tagFree_suffix (a b : jsstring) :
  tagFree (a ++ b) = true -> tagFree b = true.
Proof.
  induction a as [|c r IH]; [auto|]. cbn [app tagFree].
  intros H. apply andb_true_iff in H as [_ H]. exact (IH H).
Qed.

Lemma tagFree_prefix (a b : jsstring) :
  tagFree (a ++ b) = true -> tagFree a = true.
Proof.
  induction a as [|c r IH]; [reflexivity|]. cbn [app tagFree].
  intros H. apply andb_true_iff in H as [Hc H]. rewrite (IH H), andb_true_r.
  destruct (c =? 0x3C); [|reflexivity].
  rewrite closes_app in Hc. apply negb_true_iff, orb_false_iff in Hc as [-> _].
  reflexivity.
Qed.

Lemma dropWhile_suffix (p : N -> bool) (s : jsstring) :
  exists pre, s = pre ++ dropWhile p s.
Proof.
  induction s as [|c r [pre IH]]; [exists []; reflexivity|]. simpl.
  destruct (p c).
  - exists (c :: pre). simpl. rewrite <- IH. reflexivity.
  - exists []. reflexivity.
Qed.

Lemma dropWhileEnd_prefix (p : N -> bool) (s : jsstring) :
  exists post, s = dropWhileEnd p s ++ post.
Proof.
  unfold dropWhileEnd. destruct (dropWhile_suffix p (rev s)) as [pre H].
  exists (rev pre). rewrite <- rev_app_distr, <- H, rev_involutive.
  reflexivity.
Qed.

Lemma trim_tagFree (s : jsstring) : tagFree s = true -> tagFree (trim s) = true.
Proof.
  intros H. unfold trim.
  destruct (dropWhile_suffix isWhitespace s) as [pre Hpre].
  destruct (dropWhileEnd_prefix isWhitespace (dropWhile isWhitespace s))
    as [post Hpost].
  rewrite Hpre in H. apply tagFree_suffix in H.
  rewrite Hpost in H. exact (tagFree_prefix _ _ H).
Qed.

Lemma stripHtml_tagFree (html : jsstring) :
  tagFree (Dictionary.stripHtml html) = true.
Proof.
  unfold Dictionary.stripHtml. destruct (truthy html); [|reflexivity].
  apply trim_tagFree, (removeTags_tagFree html None). exact I.
Qed.

End Stripping.

(** X27. What [stripHtml] returns has no tag left, that is no [<] with a
    [>] after it, and is trimmed; stripping it again changes nothing. *)
Theorem stripHtml_idempotent (html : jsstring) :
  Html.tagFree (Dictionary.stripHtml html) = true
  /\ trim (Dictionary.stripHtml html) = Dictionary.stripHtml html
  /\ Dictionary.stripHtml (Dictionary.stripHtml html)
     = Dictionary.stripHtml html.
Proof.
  split; [apply stripHtml_tagFree|]. split; [apply stripHtml_trimmed|].
  pose proof (stripHtml_tagFree html) as Hfree.
  pose proof (stripHtml_trimmed html) as Htrimmed.
  set (text := Dictionary.stripHtml html) in *.
  unfold Dictionary.stripHtml at 1.
  destruct text as [|c r] eqn:E; [reflexivity|]. simpl truthy. cbv iota.
  rewrite (removeTags_id _ Hfree). exact Htrimmed.
Qed.
